(** * Feed monitor of RSS-to-Telegram-Bot: [src/command/monitor.py]

    A shallow embedding of the monitoring task ([run_monitor_task],
    [__monitor], [__notify_all], [__send],
    [__deactivate_feed_and_notify_all], [MonitoringLogs]) and the
    properties of it that the specification states.

    Conventions of the embedding:
    - Python [int] is [Z]; [//] is [Z.div], [%] is [Z.modulo].
    - A [datetime] is a [Z] counting microseconds; [timedelta(minutes=n)]
      is [n * 60_000_000].
    - [None] is [None]; truthiness of [Optional[str]] and of
      [Optional[int]] is written out ([truthy_str], [str_or], [int_or]).
    - A feed entry (a [MutableMapping]) is a [gmap string string].
    - A coroutine is a function from the process state to the calls it
      made, its result (a value or an exception) and the state it leaves.
    - The collaborators that live outside the file (database, fetcher,
      Telegram client, ...) are the fields of an environment [Env]; they
      answer from, and may change, a world of any type.  Every call to
      them and every log record is recorded, in order.
    - Of the collaborators only a delivery raises; the three errors of
      line 212 and any other are told apart.
    - [asyncio.gather] runs its awaitables one after the other, in list
      order, each to its end.  What depends on the order in which awaits
      come back -- the lock of [__send] -- is modelled a second time, as
      interleavings of the sends in flight ([Interleaving]); the lemma
      [send_agrees_with_interleaving] relates the two. *)

From Stdlib Require Import ZArith List Lia Ascii.
From stdpp Require Import base option list gmap strings.

Local Open Scope Z_scope.

(** ** Python values *)

Module Py.

(** [bool(s)] for [s : Optional[str]]. *)
Definition truthy_str (o : option string) : bool :=
  match o with
  | Some s => negb (String.eqb s EmptyString)
  | None => false
  end.

(** [a or b] where [b] is a plain string: [a] when truthy, else [b]. *)
Definition str_or (a : option string) (b : string) : string :=
  match a with
  | Some s => if String.eqb s EmptyString then b else s
  | None => b
  end.

(** [a or b] where both are [Optional[str]]. *)
Definition opt_str_or (a b : option string) : option string :=
  if truthy_str a then a else b.

(** [a or b] for [a : Optional[int]] and [b : int]. *)
Definition int_or (a : option Z) (b : Z) : Z :=
  match a with
  | Some n => if n =? 0 then b else n
  | None => b
  end.

(** [l[:k]]: a negative [k] counts from the end. *)
Definition slice_to {A} (l : list A) (k : Z) : list A :=
  if 0 <=? k then firstn (Z.to_nat k) l
  else firstn (Z.to_nat (Z.of_nat (length l) + k)) l.

(** [len(l)]. *)
Definition len {A} (l : list A) : Z := Z.of_nat (length l).

(** [x in l] for a list of strings. *)
Definition str_in (x : string) (l : list string) : bool :=
  existsb (String.eqb x) l.

(** [timedelta(minutes=n)] in microseconds. *)
Definition timedelta_minutes (n : Z) : Z := n * 60000000.

End Py.

(** ** Data model *)

(** The six monitoring results (lines 19-24). *)
Inductive Outcome : Type :=
  | NOT_UPDATED | CACHED | EMPTY | FAILED | UPDATED | SKIPPED.

(** A parsed feed entry: a mapping from field names to text. *)
Abbreviation Entry := (gmap string string).

(** The fields of [db.Feed] that the monitor reads or writes.
    [entry_hashes] is stored as JSON text; the model keeps the decoded
    list ([json.loads] after [json.dumps] is the identity on lists of
    strings), [None] standing for an absent or empty column. *)
Module Feed.
Record t : Type := mk {
  id : Z;
  link : string;
  title : string;
  etag : option string;
  last_modified : option Z;
  updated_at : Z;
  interval : option Z;
  error_count : Z;
  next_check_time : option Z;
  entry_hashes : option (list string)
}.

Definition set_error_count (n : Z) (f : t) : t :=
  mk (id f) (link f) (title f) (etag f) (last_modified f) (updated_at f)
     (interval f) n (next_check_time f) (entry_hashes f).

Definition set_next_check_time (o : option Z) (f : t) : t :=
  mk (id f) (link f) (title f) (etag f) (last_modified f) (updated_at f)
     (interval f) (error_count f) o (entry_hashes f).

Definition set_entry_hashes (o : option (list string)) (f : t) : t :=
  mk (id f) (link f) (title f) (etag f) (last_modified f) (updated_at f)
     (interval f) (error_count f) (next_check_time f) o.

Definition set_etag (o : option string) (f : t) : t :=
  mk (id f) (link f) (title f) o (last_modified f) (updated_at f)
     (interval f) (error_count f) (next_check_time f) (entry_hashes f).

Definition set_last_modified (o : option Z) (f : t) : t :=
  mk (id f) (link f) (title f) (etag f) o (updated_at f)
     (interval f) (error_count f) (next_check_time f) (entry_hashes f).
End Feed.

(** The fields of [db.Sub] that the monitor reads; [user_lang] is
    [sub.user.lang], loaded by [prefetch_related('user')]. *)
Module Sub.
Record t : Type := mk {
  user_id : Z;
  title : option string;
  user_lang : string
}.
End Sub.

(** The dictionary returned by [feed_get]. *)
Module Fetched.
Record t : Type := mk {
  status : Z;
  rss_d : option (list Entry);      (* [rss_d.entries], [None] when [rss_d is None] *)
  url : string;
  headers : gmap string string;
  msg : option string
}.
End Fetched.

(** The exceptions a delivery may raise: the three that line 212 catches,
    and any other. *)
Inductive exn : Type :=
  | UserIsBlockedError
  | UserIdInvalidError
  | ChatWriteForbiddenError
  | OtherError (name : string).

(** The [except] clause of line 212. *)
Definition caught_by_send (e : exn) : bool :=
  match e with
  | UserIsBlockedError | UserIdInvalidError | ChatWriteForbiddenError => true
  | OtherError _ => false
  end.

(** [e.__class__.__name__]. *)
Definition class_name (e : exn) : string :=
  match e with
  | UserIsBlockedError => "UserIsBlockedError"
  | UserIdInvalidError => "UserIdInvalidError"
  | ChatWriteForbiddenError => "ChatWriteForbiddenError"
  | OtherError n => n
  end.

(** The class attributes of [MonitoringLogs] (lines 30-37). *)
Module MonitoringLogs.
Record t : Type := mk {
  monitoring_counts : Z;
  not_updated : Z;
  cached : Z;
  empty : Z;
  failed : Z;
  updated : Z;
  skipped : Z
}.
End MonitoringLogs.

(** Log records, one constructor per message of the file. *)
Inductive level : Type := DEBUG | INFO | WARNING | ERROR.

Inductive message : Type :=
  | MsgFinished (not_updated cached empty failed updated skipped : Z)  (* line 47 *)
  | MsgSummary (not_updated cached empty failed updated skipped : Z)   (* line 59 *)
  | MsgStarted                                                         (* line 76 *)
  | MsgCached (link : string)                                          (* line 132 *)
  | MsgDeactivated (link : string)                                     (* line 137 *)
  | MsgFetchFailed (error_count : Z) (msg : option string) (link : string) (* line 142 *)
  | MsgEmpty (link : string)                                           (* line 154 *)
  | MsgNotUpdated (link : string)                                      (* line 172 *)
  | MsgUpdated (link : string)                                         (* line 175 *)
  | MsgUserBlocked (class_name : string) (user_id : Z).                (* line 218 *)

(** ** Collaborators, recorded calls and the monad *)

(** What is sent to a recipient: text (line 209) or a [Post] (line 211). *)
Abbreviation Content Post := (string + Post)%type.

(** One record per call that leaves the file; a delivery is recorded with
    the exception it raised, if any. *)
Inductive event (Post : Type) : Type :=
  | EvGetTasks                                         (* line 70 *)
  | EvFeedFilter (ids : list Z)                        (* line 74 *)
  | EvFeedGet (link : string) (headers : gmap string string)  (* line 123 *)
  | EvSave (feed : Feed.t)                             (* lines 129, 148, 182 *)
  | EvMigrate (feed : Feed.t) (url : string)           (* lines 153, 185 *)
  | EvSubFilter (feed : Feed.t) (prefetch_user : bool) (* lines 194, 223 *)
  | EvUpdateInterval (feed : Feed.t)                   (* line 196 *)
  | EvGenerateMessage (post : Post)                    (* line 198 *)
  | EvSend (user_id : Z) (content : Content Post) (raised : option exn)
                                                       (* lines 209, 211 *)
  | EvUnsubAll (user_id : Z)                           (* line 219 *)
  | EvDeactivateFeed (feed : Feed.t)                   (* line 224 *)
  | EvLog (lvl : level) (m : message).

Arguments EvGetTasks {Post}.
Arguments EvFeedFilter {Post} ids.
Arguments EvFeedGet {Post} link headers.
Arguments EvSave {Post} feed.
Arguments EvMigrate {Post} feed url.
Arguments EvSubFilter {Post} feed prefetch_user.
Arguments EvUpdateInterval {Post} feed.
Arguments EvGenerateMessage {Post} post.
Arguments EvSend {Post} user_id content raised.
Arguments EvUnsubAll {Post} user_id.
Arguments EvDeactivateFeed {Post} feed.
Arguments EvLog {Post} lvl m.

(** The names the file imports.  [W] is the state of the outside world
    (database, network, Telegram); awaited collaborators may change it.
    A delivery answers [Some e] when it raises [e].  The other
    collaborators are taken not to raise, and not to change the fields of
    the in-memory feed they are handed ([migrate_to_new_url] hands back
    the record to go on with, [None] when its result is not a [db.Feed]). *)
Record Env (Post W : Type) : Type := mkEnv {
  (* pure helpers *)
  get_hash : string -> string;
  format_datetime : Z -> string;
  get_http_caching_headers : gmap string string -> option string * option Z;
  escape_html : string -> string;
  feed_deactivated_warn : string -> string;  (* [i18n[lang]['feed_deactivated_warn']] *)
  get_post_from_entry : Entry -> string -> string -> Post;
  (* readings of the world *)
  datetime_now : W -> Z;
  default_interval : W -> Z;
  get_tasks : W -> list Z * W;
  (* awaited collaborators *)
  Feed_filter : list Z -> W -> list Feed.t * W;
  feed_get : string -> gmap string string -> W -> Fetched.t * W;
  Feed_save : Feed.t -> W -> W;
  migrate_to_new_url : Feed.t -> string -> W -> option Feed.t * W;
  Sub_filter : Feed.t -> W -> list Sub.t * W;
  update_interval : Feed.t -> W -> W;
  generate_message : Post -> W -> W;
  send_message : Z -> Content Post -> W -> option exn * W;
  unsub_all : Z -> W -> W;
  deactivate_feed : Feed.t -> W -> W
}.

Arguments get_hash {Post W} _ _.
Arguments format_datetime {Post W} _ _.
Arguments get_http_caching_headers {Post W} _ _.
Arguments escape_html {Post W} _ _.
Arguments feed_deactivated_warn {Post W} _ _.
Arguments get_post_from_entry {Post W} _ _ _ _.
Arguments datetime_now {Post W} _ _.
Arguments default_interval {Post W} _ _.
Arguments get_tasks {Post W} _ _.
Arguments Feed_filter {Post W} _ _ _.
Arguments feed_get {Post W} _ _ _ _.
Arguments Feed_save {Post W} _ _ _.
Arguments migrate_to_new_url {Post W} _ _ _ _.
Arguments Sub_filter {Post W} _ _ _.
Arguments update_interval {Post W} _ _ _.
Arguments generate_message {Post W} _ _ _.
Arguments send_message {Post W} _ _ _ _.
Arguments unsub_all {Post W} _ _ _.
Arguments deactivate_feed {Post W} _ _ _.

(** The process state next to the world: the lock bucket of line 27
    ([true] = locked) and the counters of [MonitoringLogs]. *)
Record State (W : Type) : Type := mkState {
  world : W;
  bucket : gmap Z bool;
  logs : MonitoringLogs.t
}.

Arguments mkState {W} _ _ _.
Arguments world {W} _.
Arguments bucket {W} _.
Arguments logs {W} _.

(** A coroutine returns or raises. *)
Inductive res (A : Type) : Type :=
  | Ok (a : A)
  | Raise (e : exn).

Arguments Ok {A} a.
Arguments Raise {A} e.

(** A coroutine: from a state to the calls it made, its result and the
    state it leaves. *)
Definition M (Post W A : Type) : Type :=
  State W -> list (event Post) * res A * State W.

Section Monad.
Context {Post W : Type}.

Definition ret {A} (a : A) : M Post W A :=
  fun s => ([], Ok a, s).

Definition raise {A} (e : exn) : M Post W A :=
  fun s => ([], Raise e, s).

Definition bind {A B} (m : M Post W A) (k : A -> M Post W B) : M Post W B :=
  fun s =>
    let '(t1, r, s1) := m s in
    match r with
    | Ok a => let '(t2, r2, s2) := k a s1 in (t1 ++ t2, r2, s2)
    | Raise e => (t1, Raise e, s1)
    end.

(** [try: m  except <the classes h accepts> as e: h e]. *)
Definition try_except {A} (m : M Post W A) (h : exn -> option (M Post W A))
  : M Post W A :=
  fun s =>
    let '(t1, r, s1) := m s in
    match r with
    | Ok a => (t1, Ok a, s1)
    | Raise e =>
        match h e with
        | Some k => let '(t2, r2, s2) := k s1 in (t1 ++ t2, r2, s2)
        | None => (t1, Raise e, s1)
        end
    end.

(** A call that answers [a] and moves the world. *)
Definition call {A} (ev : event Post) (h : W -> A * W) : M Post W A :=
  fun s =>
    let '(a, w) := h (world s) in
    ([ev], Ok a, mkState w (bucket s) (logs s)).

(** A call with no answer. *)
Definition call_ (ev : event Post) (h : W -> W) : M Post W unit :=
  call ev (fun w => (tt, h w)).

(** A call that may raise. *)
Definition call_raising (ev : option exn -> event Post)
    (h : W -> option exn * W) : M Post W unit :=
  fun s =>
    let '(o, w) := h (world s) in
    ([ev o], match o with Some e => Raise e | None => Ok tt end,
     mkState w (bucket s) (logs s)).

(** A reading of the world. *)
Definition read {A} (h : W -> A) : M Post W A :=
  fun s => ([], Ok (h (world s)), s).

Definition log (lvl : level) (m : message) : M Post W unit :=
  fun s => ([EvLog lvl m], Ok tt, s).

(** [asyncio.gather] over [ts], without [return_exceptions]: every awaitable
    runs; when some raise, the awaiter gets the first exception while
    the others go on.  The model runs the awaitables one after the
    other in list order. *)
Fixpoint run_all {A} (ts : list (M Post W A)) (s : State W)
  : list (event Post) * list (res A) * State W :=
  match ts with
  | [] => ([], [], s)
  | t :: ts' =>
      let '(t1, r, s1) := t s in
      let '(t2, rs, s2) := run_all ts' s1 in
      (t1 ++ t2, r :: rs, s2)
  end.

Fixpoint collect {A} (rs : list (res A)) : res (list A) :=
  match rs with
  | [] => Ok []
  | Raise e :: _ => Raise e
  | Ok a :: rs' =>
      match collect rs' with
      | Ok l => Ok (a :: l)
      | Raise e => Raise e
      end
  end.

Definition gather {A} (ts : list (M Post W A)) : M Post W (list A) :=
  fun s => let '(t, rs, s') := run_all ts s in (t, collect rs, s').

End Monad.

(** stdpp's notations [x ← m; k] and [m;; k] are used for [bind]. *)
#[global] Instance M_ret {Post W} : MRet (M Post W) := @ret Post W.
#[global] Instance M_bind {Post W} : MBind (M Post W) :=
  fun A B k m => bind m k.

(** ** The program *)

(** The double quote and the line feed of the notice of lines 234-235. *)
Definition dquote : string := String "034"%char EmptyString.
Definition newline : string := String "010"%char EmptyString.

(** [bucket[user_id]] on a [defaultdict(asyncio.Lock)]: a missing key is
    inserted with a fresh lock, which is free. *)
Definition bucket_get (user_id : Z) (b : gmap Z bool) : bool * gmap Z bool :=
  match b !! user_id with
  | Some l => (l, b)
  | None => (false, <[user_id := false]> b)
  end.

(** [lock.acquire()] on a free lock and [lock.release()]. *)
Definition acquire (user_id : Z) (b : gmap Z bool) : gmap Z bool :=
  <[user_id := true]> b.
Definition release (user_id : Z) (b : gmap Z bool) : gmap Z bool :=
  <[user_id := false]> b.

(** Lines 162-163: the identifier of an entry, when it has one. *)
Definition guid_of (entry : Entry) : option string :=
  let guid := Py.opt_str_or (entry !! "guid") (entry !! "link") in
  if Py.truthy_str guid then guid else None.

Arguments guid_of : simpl never.

(** One turn of the loop of lines 161-169, on the two accumulators. *)
Definition diff_step (hash : string -> string) (old_hashes : list string)
    (acc : list string * list Entry) (entry : Entry)
  : list string * list Entry :=
  let '(updated_hashes, updated_entries) := acc in
  match guid_of entry with
  | None => acc                                           (* continue *)
  | Some guid =>
      let h := hash guid in
      if Py.str_in h old_hashes then acc                  (* continue *)
      else (updated_hashes ++ [h], updated_entries ++ [entry])
  end.

(** Lines 159-169. *)
Definition diff (hash : string -> string) (entries : list Entry)
    (old_hashes : list string) : list string * list Entry :=
  fold_left (diff_step hash old_hashes) entries ([], []).

(** Lines 176-177. *)
Definition merge (updated_hashes old_hashes : list string) (entry_count : Z)
  : list string :=
  let length := Z.max (entry_count * 2) 100 in
  updated_hashes ++ Py.slice_to old_hashes (length - Py.len updated_hashes).

(** Line 145. *)
Definition next_check_interval (interval error_count : Z) : Z :=
  Z.min interval 15 * Z.min (error_count / 10 + 1) 5.

(** Lines 143-147: the next check of a feed that failed ten times or
    more is put off when the delay is longer than its interval. *)
Definition delay_next_check (now default : Z) (feed : Feed.t) : Feed.t :=
  if 10 <=? Feed.error_count feed then
    let interval := Py.int_or (Feed.interval feed) default in
    let nci := next_check_interval interval (Feed.error_count feed) in
    if interval <? nci then
      Feed.set_next_check_time (Some (now + Py.timedelta_minutes nci)) feed
    else feed
  else feed.

(** Lines 117-121. *)
Definition request_headers (fmt : Z -> string) (feed : Feed.t)
  : gmap string string :=
  let headers : gmap string string :=
    {[ "If-Modified-Since" :=
         fmt (default (Feed.updated_at feed) (Feed.last_modified feed)) ]} in
  match Feed.etag feed with
  | Some etag =>
      if Py.truthy_str (Some etag) then <["If-None-Match" := etag]> headers
      else headers
  | None => headers
  end.

Arguments request_headers : simpl never.

(** Line 114: the feed is not due yet. *)
Definition not_due (now : Z) (feed : Feed.t) : bool :=
  match Feed.next_check_time feed with
  | Some t => now <? t
  | None => false
  end.

(** Line 126: what makes the recovery write happen. *)
Definition recovers (d : Fetched.t) (feed : Feed.t) : bool :=
  (bool_decide (is_Some (Fetched.rss_d d)) || (Fetched.status d =? 304))
  && ((0 <? Feed.error_count feed)
      || bool_decide (is_Some (Feed.next_check_time feed))).

(** Lines 87-101: one turn of the tally loop. *)
Definition tally (acc : Z * Z * Z * Z * Z * Z) (r : Outcome)
  : Z * Z * Z * Z * Z * Z :=
  let '(not_updated, cached, empty, failed, updated, skipped) := acc in
  match r with
  | NOT_UPDATED => (not_updated + 1, cached, empty, failed, updated, skipped)
  | CACHED => (not_updated + 1, cached + 1, empty, failed, updated, skipped)
  | EMPTY => (not_updated + 1, cached, empty + 1, failed, updated, skipped)
  | UPDATED => (not_updated, cached, empty, failed, updated + 1, skipped)
  | FAILED => (not_updated, cached, empty, failed + 1, updated, skipped)
  | SKIPPED => (not_updated, cached, empty, failed, updated, skipped + 1)
  end.

Section Program.
Context {Post W : Type} (env : Env Post W).

Local Abbreviation M := (M Post W).

Definition get_logs : M MonitoringLogs.t :=
  fun s => ([], Ok (logs s), s).

Definition put_logs (l : MonitoringLogs.t) : M unit :=
  fun s => ([], Ok tt, mkState (world s) (bucket s) l).

(** Line 213 ([bucket[user_id]]) and line 214 ([lock.locked()]). *)
Definition lock_locked (user_id : Z) : M bool :=
  fun s =>
    let '(l, b) := bucket_get user_id (bucket s) in
    ([], Ok l, mkState (world s) b (logs s)).

(** [async with lock: body] on a free lock: taken at once, released on
    the way out whatever [body] did. *)
Definition async_with_lock {A} (user_id : Z) (body : M A) : M A :=
  fun s =>
    let '(t, r, s1) :=
      body (mkState (world s) (acquire user_id (bucket s)) (logs s)) in
    (t, r, mkState (world s1) (release user_id (bucket s1)) (logs s1)).

(** Lines 204-219. *)
Definition __send (sub : Sub.t) (post : Content Post) : M unit :=
  let user_id := Sub.user_id sub in
  try_except
    (call_raising (EvSend user_id post) (send_message env user_id post))
    (fun e =>
       if caught_by_send e then Some (
         locked ← lock_locked user_id;
         if (locked : bool) then mret tt       (* no need to unsub twice! *)
         else
           async_with_lock user_id (
             log ERROR (MsgUserBlocked (class_name e) user_id);;
             call_ (EvUnsubAll user_id) (unsub_all env user_id)))
       else None).

(** Lines 193-201. *)
Definition __notify_all (feed : Feed.t) (entry : Entry) : M unit :=
  subs ← call (EvSubFilter feed false) (Sub_filter env feed);
  match subs with
  | [] => call_ (EvUpdateInterval feed) (update_interval env feed)
  | _ :: _ => mret tt
  end;;
  let post :=
    get_post_from_entry env entry (Feed.title feed) (Feed.link feed) in
  call_ (EvGenerateMessage post) (generate_message env post);;
  gather (map (fun sub => __send sub (inr post)) subs);;
  mret tt.

(** Lines 234-235. *)
Definition deactivation_notice (feed : Feed.t) (sub : Sub.t) : string :=
  ("<a href=" ++ dquote ++ Feed.link feed ++ dquote ++ ">"
   ++ escape_html env (Py.str_or (Sub.title sub) (Feed.title feed))
   ++ "</a>" ++ newline
   ++ feed_deactivated_warn env (Sub.user_lang sub))%string.

(** Lines 222-239. *)
Definition __deactivate_feed_and_notify_all (feed : Feed.t) : M unit :=
  subs ← call (EvSubFilter feed true) (Sub_filter env feed);
  call_ (EvDeactivateFeed feed) (deactivate_feed env feed);;
  match subs with
  | [] => mret tt
  | _ :: _ =>
      gather
        (map (fun sub => __send sub (inl (deactivation_notice feed sub)))
             subs);;
      mret tt
  end.

(** Lines 135-149: the fetch failed. *)
Definition on_error (now : Z) (d : Fetched.t) (feed : Feed.t) : M Outcome :=
  if 100 <=? Feed.error_count feed then
    log ERROR (MsgDeactivated (Feed.link feed));;
    __deactivate_feed_and_notify_all feed;;
    mret FAILED
  else
    let feed := Feed.set_error_count (Feed.error_count feed + 1) feed in
    (if Feed.error_count feed mod 10 =? 0 then
       log WARNING (MsgFetchFailed (Feed.error_count feed)
                                   (Fetched.msg d) (Feed.link feed))
     else mret tt);;
    default ← read (default_interval env);
    let feed := delay_next_check now default feed in
    call_ (EvSave feed) (Feed_save env feed);;
    mret FAILED.

(** Lines 178-181: the new history and the cache validators of the
    response. *)
Definition refresh (d : Fetched.t) (new_hashes : list string)
    (feed : Feed.t) : Feed.t :=
  let feed := Feed.set_entry_hashes (Some new_hashes) feed in
  let http_caching_d := get_http_caching_headers env (Fetched.headers d) in
  let feed := Feed.set_etag (fst http_caching_d) feed in
  Feed.set_last_modified (snd http_caching_d) feed.

(** Lines 184-186: the feed moved; go on with the record handed back. *)
Definition follow (d : Fetched.t) (feed : Feed.t) : M Feed.t :=
  if bool_decide (Fetched.url d ≠ Feed.link feed) then
    new_url_feed ← call (EvMigrate feed (Fetched.url d))
                        (migrate_to_new_url env feed (Fetched.url d));
    mret (default feed new_url_feed)
  else mret feed.

(** Lines 157-190: the fetch brought entries. *)
Definition on_entries (d : Fetched.t) (entries : list Entry) (feed : Feed.t)
  : M Outcome :=
  let old_hashes := default [] (Feed.entry_hashes feed) in
  let '(updated_hashes, updated_entries) :=
    diff (get_hash env) entries old_hashes in
  match updated_hashes with
  | [] =>
      log DEBUG (MsgNotUpdated (Feed.link feed));;
      mret NOT_UPDATED
  | _ :: _ =>
      log DEBUG (MsgUpdated (Feed.link feed));;
      let new_hashes := merge updated_hashes old_hashes (Py.len entries) in
      let feed := refresh d new_hashes feed in
      call_ (EvSave feed) (Feed_save env feed);;
      feed ← follow d feed;
      gather (map (__notify_all feed) updated_entries);;
      mret UPDATED
  end.

(** Lines 126-129: a fetch that came back clears the error state. *)
Definition recover (d : Fetched.t) (feed : Feed.t) : M Feed.t :=
  if recovers d feed then
    let feed := Feed.set_error_count 0 feed in
    let feed := Feed.set_next_check_time None feed in
    call_ (EvSave feed) (Feed_save env feed);;
    mret feed
  else mret feed.

(** Lines 151-155: the fetch brought no entry. *)
Definition on_empty (d : Fetched.t) (feed : Feed.t) : M Outcome :=
  (if bool_decide (Fetched.url d ≠ Feed.link feed) then
     call (EvMigrate feed (Fetched.url d))
          (migrate_to_new_url env feed (Fetched.url d));;
     mret tt
   else mret tt);;
  log DEBUG (MsgEmpty (Feed.link feed));;
  mret EMPTY.

(** Lines 124-190: what follows the fetch. *)
Definition after_fetch (now : Z) (d : Fetched.t) (feed : Feed.t)
  : M Outcome :=
  let rss_d := Fetched.rss_d d in
  feed ← recover d feed;
  if Fetched.status d =? 304 then
    log DEBUG (MsgCached (Feed.link feed));;
    mret CACHED
  else
    match rss_d with
    | None => on_error now d feed
    | Some [] => on_empty d feed
    | Some (entry :: entries) => on_entries d (entry :: entries) feed
    end.

(** Lines 106-190. *)
Definition __monitor (feed : Feed.t) : M Outcome :=
  now ← read (datetime_now env);
  if not_due now feed then mret SKIPPED  (* skip this monitor task *)
  else
    let headers := request_headers (format_datetime env) feed in
    d ← call (EvFeedGet (Feed.link feed) headers)
             (feed_get env (Feed.link feed) headers);
    after_fetch now d feed.

(** Lines 56-66. *)
Definition print_summary : M unit :=
  l ← get_logs;
  log INFO (MsgSummary (MonitoringLogs.not_updated l)
                       (MonitoringLogs.cached l)
                       (MonitoringLogs.empty l)
                       (MonitoringLogs.failed l)
                       (MonitoringLogs.updated l)
                       (MonitoringLogs.skipped l));;
  put_logs (MonitoringLogs.mk 0 0 0 0 0 0 0).

(** Lines 39-54. *)
Definition MonitoringLogs_log
    (not_updated cached empty failed updated skipped : Z) : M unit :=
  l ← get_logs;
  put_logs (MonitoringLogs.mk
              (MonitoringLogs.monitoring_counts l)
              (MonitoringLogs.not_updated l + not_updated)
              (MonitoringLogs.cached l + cached)
              (MonitoringLogs.empty l + empty)
              (MonitoringLogs.failed l + failed)
              (MonitoringLogs.updated l + updated)
              (MonitoringLogs.skipped l + skipped));;
  log DEBUG (MsgFinished not_updated cached empty failed updated skipped);;
  l ← get_logs;
  put_logs (MonitoringLogs.mk
              (MonitoringLogs.monitoring_counts l + 1)
              (MonitoringLogs.not_updated l)
              (MonitoringLogs.cached l)
              (MonitoringLogs.empty l)
              (MonitoringLogs.failed l)
              (MonitoringLogs.updated l)
              (MonitoringLogs.skipped l));;
  l ← get_logs;
  if MonitoringLogs.monitoring_counts l =? 10 then print_summary
  else mret tt.

(** Lines 69-103. *)
Definition run_monitor_task : M unit :=
  feed_id_to_monitor ← call EvGetTasks (get_tasks env);
  match feed_id_to_monitor with
  | [] => mret tt
  | _ :: _ =>
      feeds ← call (EvFeedFilter feed_id_to_monitor)
                   (Feed_filter env feed_id_to_monitor);
      log DEBUG MsgStarted;;
      result ← gather (map __monitor feeds);
      let '(not_updated, cached, empty, failed, updated, skipped) :=
        fold_left tally result (0, 0, 0, 0, 0, 0) in
      MonitoringLogs_log not_updated cached empty failed updated skipped
  end.

End Program.

(** ** Observations on a run *)

Section Observations.
Context {Post : Type}.

(** The deliveries attempted, in order. *)
Definition sends (t : list (event Post)) : list (Z * Content Post) :=
  omap (fun ev => match ev with
                  | EvSend user_id content _ => Some (user_id, content)
                  | _ => None
                  end) t.

(** The feed records written by [feed.save()], in order. *)
Definition saves (t : list (event Post)) : list Feed.t :=
  omap (fun ev => match ev with
                  | EvSave feed => Some feed
                  | _ => None
                  end) t.

(** The posts rendered, in order. *)
Definition renders (t : list (event Post)) : list Post :=
  omap (fun ev => match ev with
                  | EvGenerateMessage post => Some post
                  | _ => None
                  end) t.

(** The recipients unsubscribed from everything, in order. *)
Definition unsubs (t : list (event Post)) : list Z :=
  omap (fun ev => match ev with
                  | EvUnsubAll user_id => Some user_id
                  | _ => None
                  end) t.

(** The feeds deactivated, in order. *)
Definition deactivations (t : list (event Post)) : list Feed.t :=
  omap (fun ev => match ev with
                  | EvDeactivateFeed feed => Some feed
                  | _ => None
                  end) t.

(** The errors raised by deliveries that line 212 does not catch, in
    order. *)
Definition uncaught (t : list (event Post)) : list exn :=
  omap (fun ev => match ev with
                  | EvSend _ _ (Some e) =>
                      if caught_by_send e then None else Some e
                  | _ => None
                  end) t.

(** The log records, in order. *)
Definition logged (t : list (event Post)) : list (level * message) :=
  omap (fun ev => match ev with
                  | EvLog lvl m => Some (lvl, m)
                  | _ => None
                  end) t.

End Observations.

(** The calls, the result and the last state of a run. *)
Definition calls {Post W A} (x : list (event Post) * res A * State W)
  : list (event Post) := fst (fst x).
Definition result {Post W A} (x : list (event Post) * res A * State W)
  : res A := snd (fst x).
Definition final {Post W A} (x : list (event Post) * res A * State W)
  : State W := snd x.

(** ** A small world to run the program in *)

Module Sample.

(** A post is what it was built from. *)
Definition Post : Type := Entry * string * string.

(** A world that never changes: a fixed clock, one fetch result for
    every address, one list of active subscriptions for every feed, a
    fixed answer per recipient, no migration. *)
Definition env (now : Z) (d : Fetched.t) (subs : list Sub.t)
    (deliver : Z -> option exn) (feeds : list Feed.t) : Env Post unit :=
  {| get_hash := fun guid => guid;
     format_datetime := fun _ => "Thu, 01 Jan 1970 00:00:00 +0000";
     get_http_caching_headers :=
       fun h => (h !! "ETag", None);
     escape_html := fun s => s;
     feed_deactivated_warn := fun _ => "deactivated";
     get_post_from_entry := fun entry title link => (entry, title, link);
     datetime_now := fun _ => now;
     default_interval := fun _ => 10;
     get_tasks := fun w => (map Feed.id feeds, w);
     Feed_filter := fun _ w => (feeds, w);
     feed_get := fun _ _ w => (d, w);
     Feed_save := fun _ w => w;
     migrate_to_new_url := fun _ _ w => (None, w);
     Sub_filter := fun _ w => (subs, w);
     update_interval := fun _ w => w;
     generate_message := fun _ w => w;
     send_message := fun user_id _ w => (deliver user_id, w);
     unsub_all := fun _ w => w;
     deactivate_feed := fun _ w => w |}.

Definition s0 : State unit :=
  mkState tt ∅ (MonitoringLogs.mk 0 0 0 0 0 0 0).

Definition feed (error_count : Z) (interval : option Z)
    (next_check_time : option Z) (entry_hashes : option (list string))
  : Feed.t :=
  Feed.mk 1 "http://example.org/feed" "Example" None None 0
          interval error_count next_check_time entry_hashes.

Definition entry (guid : string) : Entry := {[ "guid" := guid ]}.

Definition fetched (status : Z) (rss_d : option (list Entry)) : Fetched.t :=
  Fetched.mk status rss_d "http://example.org/feed" ∅ None.

Definition sub (user_id : Z) : Sub.t := Sub.mk user_id None "en".

Definition everyone_reached (user_id : Z) : option exn := None.

(** Every delivery is refused with an error that line 212 does not
    name. *)
Definition flooded (user_id : Z) : option exn :=
  Some (OtherError "FloodWaitError").

(** A failed fetch, and a not-modified answer. *)
Definition broken : Fetched.t := fetched (-1) None.
Definition not_modified : Fetched.t := fetched 304 None.

(** The scenarios the claims are tried on. *)

(* a feed at the threshold whose fetch fails, two subscribers *)
Definition deactivation_env : Env Post unit :=
  env 1000 broken [sub 7; sub 8] everyone_reached [].
Definition deactivation_feed : Feed.t := feed 100 (Some 5) None None.

(* the tenth failure of a feed polled every five minutes *)
Definition backoff_env : Env Post unit :=
  env 1000 broken [sub 7] everyone_reached [].
Definition backoff_feed : Feed.t := feed 9 (Some 5) None None.

(* a new entry whose delivery is refused; a sibling feed that has
   nothing new *)
Definition flood_feed : Feed.t := feed 0 (Some 5) None None.
Definition sibling_feed : Feed.t :=
  Feed.mk 2 "http://example.org/other" "Other" None None 0
          (Some 5) 0 None (Some ["a"]).
Definition flood_env : Env Post unit :=
  env 1000 (fetched 200 (Some [entry "a"])) [sub 7] flooded
      [flood_feed; sibling_feed].

(* a feed that failed three times and now brings a new entry *)
Definition recovering_env : Env Post unit :=
  env 1000 (fetched 200 (Some [entry "a"])) [sub 7] everyone_reached [].
Definition recovering_feed : Feed.t := feed 3 (Some 5) None None.

(* a new entry on a feed nobody subscribes to *)
Definition lonely_env : Env Post unit :=
  env 1000 (fetched 200 (Some [entry "a"])) [] everyone_reached [].

(* stored [h1; h2], fetched [h3; h1; h2] *)
Definition dedup_env : Env Post unit :=
  env 1000 (fetched 200 (Some [entry "h3"; entry "h1"; entry "h2"]))
      [sub 7] everyone_reached [].
Definition dedup_feed : Feed.t :=
  feed 0 (Some 5) None (Some ["h1"; "h2"]).

(* a history of 120 fingerprints, three entries fetched, two new *)
Definition long_env : Env Post unit :=
  env 1000 (fetched 200 (Some [entry "a"; entry "old"; entry "b"]))
      [] everyone_reached [].
Definition long_feed : Feed.t :=
  feed 0 (Some 5) None (Some (replicate 120 "old")).

(* a not-modified answer after three failures and a deferred check
   that is now due *)
Definition cached_env : Env Post unit :=
  env 1000 not_modified [sub 7] everyone_reached [].
Definition cached_feed : Feed.t := feed 3 (Some 5) (Some 500) None.

(* a batch with the fingerprint [dup] twice *)
Definition twice_env : Env Post unit :=
  env 1000
      (fetched 200
         (Some [entry "x"; entry "dup"; entry "old"; entry "dup"]))
      [sub 7] everyone_reached [].
Definition twice_feed : Feed.t := feed 0 (Some 5) None (Some ["old"]).

End Sample.

(** ** Interleavings of the failure handler of [__send]

    The sends of a cycle are awaited together, so several of them can be
    in flight for one recipient.  A coroutine gives way at its awaits
    only: in [__send], at the delivery (lines 209 and 211) and at
    [unsub_all] (line 219).  [locked()] and the entry of [async with] on
    a free lock do not give way, so a delivery that raises one of the
    errors of line 212 runs lines 213-219 up to the call of [unsub_all]
    in one go, and the return of [unsub_all] runs the exit of
    [async with].  The order in which the awaits of the coroutines come
    back is the scheduler's: a schedule is a list of [tick]s. *)

Module Interleaving.

(** Where a [__send] stands. *)
Inductive phase : Type :=
  | Sending          (* awaiting the delivery *)
  | Unsubscribing    (* awaiting [unsub_all], holding the lock *)
  | Finished.

#[global] Instance phase_eq_dec : EqDecision phase.
Proof. solve_decision. Defined.

Inductive tick : Type :=
  | Delivers (i : nat)   (* the delivery of send [i] comes back *)
  | Fails (i : nat)      (* the delivery of send [i] raises a caught error *)
  | Returns (i : nat).   (* the [unsub_all] awaited by send [i] comes back *)

(** The sends (recipient and phase), the lock bucket, and the
    recipients [unsub_all] was called for, in order. *)
Record conf : Type := mkConf {
  tasks : list (Z * phase);
  locks : gmap Z bool;
  executed : list Z
}.

Definition step (c : conf) (t : tick) : option conf :=
  match t with
  | Delivers i =>
      match tasks c !! i with
      | Some (user_id, Sending) =>
          Some (mkConf (<[i := (user_id, Finished)]> (tasks c))
                       (locks c) (executed c))
      | _ => None
      end
  | Fails i =>
      match tasks c !! i with
      | Some (user_id, Sending) =>
          let '(locked, b) := bucket_get user_id (locks c) in
          if (locked : bool) then                          (* line 215 *)
            Some (mkConf (<[i := (user_id, Finished)]> (tasks c))
                         b (executed c))
          else                                             (* lines 216-219 *)
            Some (mkConf (<[i := (user_id, Unsubscribing)]> (tasks c))
                         (acquire user_id b)
                         (executed c ++ [user_id]))
      | _ => None
      end
  | Returns i =>
      match tasks c !! i with
      | Some (user_id, Unsubscribing) =>
          Some (mkConf (<[i := (user_id, Finished)]> (tasks c))
                       (release user_id (locks c)) (executed c))
      | _ => None
      end
  end.

(** [None] when the schedule asks for a tick that cannot happen. *)
Fixpoint run (c : conf) (sched : list tick) : option conf :=
  match sched with
  | [] => Some c
  | t :: sched' =>
      match step c t with
      | Some c' => run c' sched'
      | None => None
      end
  end.

(** Sends in flight to the given recipients, with the bucket as the
    process left it. *)
Definition start (b : gmap Z bool) (recipients : list Z) : conf :=
  mkConf (map (fun user_id => (user_id, Sending)) recipients) b [].

(** No lock of the bucket is held. *)
Definition free (b : gmap Z bool) : Prop :=
  forall user_id, b !! user_id <> Some true.

(** How often [unsub_all] was called for [user_id]. *)
Definition executions (user_id : Z) (c : conf) : nat :=
  length (filter (fun u => u = user_id) (executed c)).

(** The sends of [user_id] that are inside [unsub_all]. *)
Definition running (user_id : Z) (c : conf) : nat :=
  length (filter (fun t => t = (user_id, Unsubscribing)) (tasks c)).

Definition held (user_id : Z) (c : conf) : bool :=
  bool_decide (locks c !! user_id = Some true).

(** The ticks of a schedule in which a delivery to [user_id] fails,
    and those in which an [unsub_all] for [user_id] comes back. *)
Definition is_failure (recipients : list Z) (user_id : Z) (t : tick) : bool :=
  match t with
  | Fails i => bool_decide (recipients !! i = Some user_id)
  | _ => false
  end.

Definition is_return (recipients : list Z) (user_id : Z) (t : tick) : bool :=
  match t with
  | Returns i => bool_decide (recipients !! i = Some user_id)
  | _ => false
  end.

Definition failures (recipients : list Z) (user_id : Z) (sched : list tick)
  : nat :=
  length (filter (fun t => is_failure recipients user_id t = true) sched).

Definition returns (recipients : list Z) (user_id : Z) (sched : list tick)
  : nat :=
  length (filter (fun t => is_return recipients user_id t = true) sched).

(** Every send has come to its end. *)
Definition all_finished (c : conf) : bool :=
  forallb (fun t => bool_decide (snd t = Finished)) (tasks c).

(** What the configurations reached from a start satisfy: the sends
    keep their recipients; for every recipient the lock is held exactly
    when one send is inside [unsub_all], and then only one; and a send
    inside [unsub_all] is an execution that was counted. *)
Definition consistent (recipients : list Z) (c : conf) : Prop :=
  map fst (tasks c) = recipients
  /\ (forall u, running u c = if held u c then 1%nat else 0%nat)
  /\ (forall u, (running u c <= executions u c)%nat).

(** Two runs to try, of sends in flight to recipients 7, 7 and 8.
    In the first the second send to 7 fails after the [unsub_all] of
    the first has come back.  In the second the first send to 7 and the
    send to 8 have failed and nothing has come back yet; the
    configuration this leaves is written out. *)
Definition one_after_the_other : list tick :=
  [Fails 0; Returns 0; Fails 1; Returns 1; Fails 2; Returns 2].

Definition two_failures : list tick := [Fails 0; Fails 2].

Definition after_two_failures : conf :=
  mkConf [(7, Unsubscribing); (7, Sending); (8, Unsubscribing)]
         (<[8 := true]> (<[7 := true]> ∅)) [7; 8].

End Interleaving.


(** A run propagates when it raises exactly the first error that a
    delivery raised and line 212 did not catch, and returns when there is
    none. *)
Definition propagates {Post W A} (x : list (event Post) * res A * State W)
  : Prop :=
  match result x with
  | Raise e => head (uncaught (calls x)) = Some e
  | Ok _ => uncaught (calls x) = []
  end.

(** ** More observations and harnesses *)

(** The migrations asked for, in order (lines 153 and 185). *)
Definition migrations {Post} (t : list (event Post)) : list (Feed.t * string) :=
  omap (fun ev => match ev with
                  | EvMigrate feed url => Some (feed, url)
                  | _ => None
                  end) t.

(** The feeds whose interval was handed to [update_interval], in order
    (line 196). *)
Definition interval_updates {Post} (t : list (event Post)) : list Feed.t :=
  omap (fun ev => match ev with
                  | EvUpdateInterval feed => Some feed
                  | _ => None
                  end) t.

(** The fetches, in order (line 123). *)
Definition fetches {Post} (t : list (event Post))
  : list (string * gmap string string) :=
  omap (fun ev => match ev with
                  | EvFeedGet link headers => Some (link, headers)
                  | _ => None
                  end) t.

#[global] Instance Outcome_eq_dec : EqDecision Outcome.
Proof. solve_decision. Defined.

(** How often an outcome occurs among the results of a cycle. *)
Definition occurrences (o : Outcome) (results : list Outcome) : Z :=
  Py.len (filter (fun r => r = o) results).

(** The tallies of a cycle, as [MonitoringLogs.log] takes them. *)
Abbreviation Tallies := (Z * Z * Z * Z * Z * Z)%type.

(** [MonitoringLogs.log] called with the tallies of one cycle. *)
Definition log_cycle {Post W} (t : Tallies) : M Post W unit :=
  let '(not_updated, cached, empty, failed, updated, skipped) := t in
  MonitoringLogs_log not_updated cached empty failed updated skipped.

(** Consecutive cycles: [MonitoringLogs.log] called once for each. *)
Fixpoint log_cycles {Post W} (l : list Tallies) : M Post W unit :=
  match l with
  | [] => mret tt
  | t :: l' => log_cycle t;; log_cycles l'
  end.

(** The counters with the tallies of one cycle added (lines 41-46). *)
Definition add_tallies (l : MonitoringLogs.t) (t : Tallies)
  : MonitoringLogs.t :=
  let '(not_updated, cached, empty, failed, updated, skipped) := t in
  MonitoringLogs.mk
    (MonitoringLogs.monitoring_counts l)
    (MonitoringLogs.not_updated l + not_updated)
    (MonitoringLogs.cached l + cached)
    (MonitoringLogs.empty l + empty)
    (MonitoringLogs.failed l + failed)
    (MonitoringLogs.updated l + updated)
    (MonitoringLogs.skipped l + skipped).

(** The counters of a record with another cycle count. *)
Definition with_counts (n : Z) (l : MonitoringLogs.t) : MonitoringLogs.t :=
  MonitoringLogs.mk n (MonitoringLogs.not_updated l) (MonitoringLogs.cached l)
    (MonitoringLogs.empty l) (MonitoringLogs.failed l)
    (MonitoringLogs.updated l) (MonitoringLogs.skipped l).

(** The record of line 47 and the record of line 59. *)
Definition finished_record (t : Tallies) : level * message :=
  let '(not_updated, cached, empty, failed, updated, skipped) := t in
  (DEBUG, MsgFinished not_updated cached empty failed updated skipped).

Definition summary_record (l : MonitoringLogs.t) : level * message :=
  (INFO, MsgSummary (MonitoringLogs.not_updated l) (MonitoringLogs.cached l)
                    (MonitoringLogs.empty l) (MonitoringLogs.failed l)
                    (MonitoringLogs.updated l) (MonitoringLogs.skipped l)).

(** A lock of the bucket is held. *)
Definition lock_held (b : gmap Z bool) (user_id : Z) : Prop :=
  b !! user_id = Some true.

(** A coroutine keeps a relation between the state it starts in and the
    state it leaves. *)
Definition keeps {Post W A} (R : State W -> State W -> Prop)
    (m : M Post W A) : Prop :=
  forall s, R s (final (m s)).

(** The counters of [MonitoringLogs] are as they were. *)
Definition same_logs {W} (s s' : State W) : Prop := logs s' = logs s.

(** The locks that are held are those that were. *)
Definition same_locks {W} (s s' : State W) : Prop :=
  forall user_id, lock_held (bucket s') user_id <-> lock_held (bucket s) user_id.

(** An entry is new against a history: it has an identifier whose
    fingerprint the history lacks (lines 162-167). *)
Definition is_new (hash : string -> string) (old_hashes : list string)
    (entry : Entry) : bool :=
  match guid_of entry with
  | Some guid => negb (Py.str_in (hash guid) old_hashes)
  | None => false
  end.

(** The fingerprint of an entry that has an identifier. *)
Definition fingerprint (hash : string -> string) (entry : Entry)
  : option string :=
  hash <$> guid_of entry.

(** The outcome the branches of lines 131-190 lead to, read off what the
    fetch answered and the history of the feed. *)
Definition outcome_of (hash : string -> string) (d : Fetched.t)
    (feed : Feed.t) : Outcome :=
  if Fetched.status d =? 304 then CACHED
  else
    match Fetched.rss_d d with
    | None => FAILED
    | Some [] => EMPTY
    | Some entries =>
        match fst (diff hash entries (default [] (Feed.entry_hashes feed))) with
        | [] => NOT_UPDATED
        | _ :: _ => UPDATED
        end
    end.

(** The recipients of the deliveries that raised an error line 212
    catches, in order. *)
Definition permanent_failures {Post} (t : list (event Post)) : list Z :=
  omap (fun ev => match ev with
                  | EvSend user_id _ (Some e) =>
                      if caught_by_send e then Some user_id else None
                  | _ => None
                  end) t.

(** Every trace of a coroutine has a property. *)
Definition traces {Post W A} (Q : list (event Post) -> Prop)
    (m : M Post W A) : Prop :=
  forall s, Q (calls (m s)).

(** The calls made between the fetch and the deliveries. *)
Definition inner {Post} (ev : event Post) : Prop :=
  match ev with
  | EvGetTasks | EvFeedFilter _ | EvFeedGet _ _
  | EvSend _ _ _ | EvUnsubAll _ => False
  | _ => True
  end.

(** A saved record is the polled feed but for the fields a poll
    maintains. *)
Definition same_identity (feed saved : Feed.t) : Prop :=
  Feed.id saved = Feed.id feed
  /\ Feed.link saved = Feed.link feed
  /\ Feed.title saved = Feed.title feed
  /\ Feed.interval saved = Feed.interval feed
  /\ Feed.updated_at saved = Feed.updated_at feed.

(** The record a poll goes on with after lines 126-129. *)
Definition recovered (d : Fetched.t) (feed : Feed.t) : Feed.t :=
  if recovers d feed
  then Feed.set_next_check_time None (Feed.set_error_count 0 feed)
  else feed.

(** The migration of lines 153 and 185, when the fetch ended at another
    URL. *)
Definition moved {Post} (d : Fetched.t) (feed : Feed.t) : list (event Post) :=
  if bool_decide (Fetched.url d ≠ Feed.link feed)
  then [EvMigrate feed (Fetched.url d)]
  else [].

(** ** More scenarios to run the program on *)

Module Trial.

(* the ninth cycle since a summary, with some outcomes counted *)
Definition ninth : State unit :=
  mkState tt ∅ (MonitoringLogs.mk 8 3 1 0 2 4 0).

(* an empty feed found at another address *)
Definition redirected : Fetched.t :=
  Fetched.mk 200 (Some []) "http://example.org/new" ∅ None.
Definition redirect_env : Env Sample.Post unit :=
  Sample.env 1000 redirected [Sample.sub 7] Sample.everyone_reached [].

(* the feed of [Sample.dedup_feed] after its update *)
Definition merged_feed : Feed.t :=
  Sample.feed 0 (Some 5) None (Some ["h3"; "h1"; "h2"]).

(* a cycle over two feeds, one with a new entry, nobody refusing *)
Definition calm_env : Env Sample.Post unit :=
  Sample.env 1000 (Sample.fetched 200 (Some [Sample.entry "a"]))
             [Sample.sub 7] Sample.everyone_reached
             [Sample.sibling_feed; Sample.flood_feed].

(* a feed whose next check is still ahead *)
Definition deferred_feed : Feed.t := Sample.feed 12 (Some 5) (Some 2000) None.

(* a feed with both validators *)
Definition validated_feed : Feed.t :=
  Feed.mk 1 "http://example.org/feed" "Example" (Some "abc") (Some 42) 0
          (Some 5) 0 None None.

(* the sends to 7, 7 and 8 when each has failed and come back in turn *)
Definition all_done : Interleaving.conf :=
  Interleaving.mkConf
    [(7, Interleaving.Finished); (7, Interleaving.Finished);
     (8, Interleaving.Finished)]
    (<[8 := false]> (<[7 := false]> ∅)) [7; 7; 8].

End Trial.
(** * Properties *)

(** ** The fingerprint history: [diff] and [merge] *)

Section History.
Variable hash : string -> string.
Variable old_hashes : list string.

Lemma diff_acc entries updated_hashes updated_entries :
  fold_left (diff_step hash old_hashes) entries
            (updated_hashes, updated_entries)
  = (updated_hashes ++ fst (diff hash entries old_hashes),
     updated_entries ++ snd (diff hash entries old_hashes)).
Proof.
  unfold diff.
  revert updated_hashes updated_entries.
  induction entries as [|entry entries IH]; intros uh ue; simpl.
  - by rewrite !app_nil_r.
  - destruct (guid_of entry) as [guid|]; [|apply IH].
    destruct (Py.str_in (hash guid) old_hashes); [apply IH|].
    rewrite (IH (uh ++ [hash guid]) (ue ++ [entry])).
    rewrite (IH [hash guid] [entry]).
    simpl. by rewrite <- !app_assoc.
Qed.

Lemma diff_nil : diff hash [] old_hashes = ([], []).
Proof. reflexivity. Qed.

Lemma diff_app l1 l2 :
  diff hash (l1 ++ l2) old_hashes
  = (fst (diff hash l1 old_hashes) ++ fst (diff hash l2 old_hashes),
     snd (diff hash l1 old_hashes) ++ snd (diff hash l2 old_hashes)).
Proof.
  unfold diff at 1. rewrite fold_left_app.
  fold (diff hash l1 old_hashes).
  destruct (diff hash l1 old_hashes) as [uh ue]. apply diff_acc.
Qed.

Lemma diff_cons entry entries :
  diff hash (entry :: entries) old_hashes
  = (fst (diff hash [entry] old_hashes) ++ fst (diff hash entries old_hashes),
     snd (diff hash [entry] old_hashes) ++ snd (diff hash entries old_hashes)).
Proof. apply (diff_app [entry] entries). Qed.

(** An entry is new by itself: it has an identifier whose fingerprint
    the stored history lacks. *)
Lemma diff_one_new entry guid :
  guid_of entry = Some guid ->
  Py.str_in (hash guid) old_hashes = false ->
  diff hash [entry] old_hashes = ([hash guid], [entry]).
Proof. intros Hg Hn. unfold diff. simpl. by rewrite Hg, Hn. Qed.

Lemma diff_one_old entry guid :
  guid_of entry = Some guid ->
  Py.str_in (hash guid) old_hashes = true ->
  diff hash [entry] old_hashes = ([], []).
Proof. intros Hg Hn. unfold diff. simpl. by rewrite Hg, Hn. Qed.

Lemma diff_length entries :
  (length (fst (diff hash entries old_hashes)) <= length entries)%nat.
Proof.
  induction entries as [|entry entries IH]; [done|].
  rewrite diff_cons. simpl fst. rewrite length_app. simpl length.
  assert (length (fst (diff hash [entry] old_hashes)) <= 1)%nat; [|lia].
  unfold diff. simpl. destruct (guid_of entry) as [guid|]; simpl; [|lia].
  destruct (Py.str_in (hash guid) old_hashes); simpl; lia.
Qed.

End History.

Lemma slice_to_prefix {A} (l : list A) (k : Z) :
  exists n, Py.slice_to l k = take n l.
Proof. unfold Py.slice_to. destruct (0 <=? k); eauto. Qed.

Lemma slice_to_length {A} (l : list A) (k : Z) :
  0 <= k -> Py.len (Py.slice_to l k) <= k.
Proof.
  intros Hk. unfold Py.slice_to, Py.len.
  destruct (Z.leb_spec 0 k); [|lia].
  rewrite length_take. lia.
Qed.

Lemma merge_length updated_hashes old_hashes entry_count :
  Py.len updated_hashes <= entry_count ->
  Py.len (merge updated_hashes old_hashes entry_count)
  <= Z.max (entry_count * 2) 100.
Proof.
  intros Hle. unfold merge.
  assert (0 <= Py.len updated_hashes) by (unfold Py.len; lia).
  pose proof (slice_to_length old_hashes
    (Z.max (entry_count * 2) 100 - Py.len updated_hashes)) as Hs.
  unfold Py.len in *. rewrite length_app. lia.
Qed.

(** ** Laws of the monad *)

Section MonadLaws.
Context {Post W : Type}.

Implicit Types (s : State W).

Lemma calls_run {A} (t : list (event Post)) (r : res A) s :
  calls (t, r, s) = t.
Proof. reflexivity. Qed.

Lemma result_run {A} (t : list (event Post)) (r : res A) s :
  result (t, r, s) = r.
Proof. reflexivity. Qed.

Lemma final_run {A} (t : list (event Post)) (r : res A) s :
  final (t, r, s) = s.
Proof. reflexivity. Qed.

Lemma bind_ok {A B} (m : M Post W A) (k : A -> M Post W B) s t1 a s1 :
  m s = (t1, Ok a, s1) ->
  (m ≫= k) s = (t1 ++ calls (k a s1), result (k a s1), final (k a s1)).
Proof.
  intros H. unfold mbind, M_bind, bind. rewrite H.
  by destruct (k a s1) as [[t2 r2] s2].
Qed.

Lemma bind_raise {A B} (m : M Post W A) (k : A -> M Post W B) s t1 e s1 :
  m s = (t1, Raise e, s1) ->
  (m ≫= k) s = (t1, Raise e, s1).
Proof. intros H. unfold mbind, M_bind, bind. by rewrite H. Qed.

Lemma gather_nil {A} s : gather (@nil (M Post W A)) s = ([], Ok [], s).
Proof. reflexivity. Qed.

Lemma gather_cons {A} (t : M Post W A) ts s :
  gather (t :: ts) s
  = (calls (t s) ++ calls (gather ts (final (t s))),
     match result (t s), result (gather ts (final (t s))) with
     | Ok a, Ok l => Ok (a :: l)
     | Ok _, Raise e => Raise e
     | Raise e, _ => Raise e
     end,
     final (gather ts (final (t s)))).
Proof.
  unfold gather. simpl.
  destruct (t s) as [[t1 r] s1]. simpl.
  destruct (run_all ts s1) as [[t2 rs] s2]. simpl.
  by destruct r.
Qed.

(** What a gathering shows is what its awaitables show, in order. *)
Lemma gather_omap {A B X} (obs : event Post -> option X)
    (f : B -> M Post W A) (g : B -> list X) (l : list B) :
  (forall b s, omap obs (calls (f b s)) = g b) ->
  forall s, omap obs (calls (gather (map f l) s)) = concat (map g l).
Proof.
  intros Hf. induction l as [|b l IH]; intros s; [done|].
  simpl map. rewrite gather_cons. unfold calls at 1. simpl fst.
  by rewrite omap_app, Hf, IH.
Qed.

Lemma gather_omap_one {A B X} (obs : event Post -> option X)
    (f : B -> M Post W A) (g : B -> X) (l : list B) :
  (forall b s, omap obs (calls (f b s)) = [g b]) ->
  forall s, omap obs (calls (gather (map f l) s)) = map g l.
Proof.
  intros Hf s. rewrite (gather_omap obs f (fun b => [g b])) by done.
  induction l as [|b l IH]; [done|]. simpl. by rewrite IH.
Qed.

Lemma gather_omap_none {A B X} (obs : event Post -> option X)
    (f : B -> M Post W A) (l : list B) :
  (forall b s, omap obs (calls (f b s)) = []) ->
  forall s, omap obs (calls (gather (map f l) s)) = [].
Proof.
  intros Hf s. rewrite (gather_omap obs f (fun _ => [])) by done.
  induction l as [|b l IH]; [done|]. simpl. by rewrite IH.
Qed.

(** *** Propagation of what no handler caught *)

Lemma propagates_ret {A} (a : A) s : propagates (@ret Post W A a s).
Proof. done. Qed.

Lemma propagates_mret {A} (a : A) s :
  propagates ((mret a : M Post W A) s).
Proof. done. Qed.

Lemma propagates_read {A} (h : W -> A) s : propagates (@read Post W A h s).
Proof. done. Qed.

Lemma propagates_log lvl m s : propagates (@log Post W lvl m s).
Proof. done. Qed.

Lemma propagates_call {A} ev (h : W -> A * W) s :
  (forall u c o, ev <> EvSend u c o) -> propagates (@call Post W A ev h s).
Proof.
  intros Hev. unfold propagates, call.
  destruct (h (world s)) as [a w]. simpl.
  destruct ev; try done. by destruct (Hev user_id content raised).
Qed.

Lemma propagates_call_ ev (h : W -> W) s :
  (forall u c o, ev <> EvSend u c o) -> propagates (@call_ Post W ev h s).
Proof. apply propagates_call. Qed.

Lemma propagates_bind {A B} (m : M Post W A) (k : A -> M Post W B) s :
  propagates (m s) ->
  (forall a s', propagates (k a s')) ->
  propagates ((m ≫= k) s).
Proof.
  intros Hm Hk. destruct (m s) as [[t1 [a|e]] s1] eqn:Hms.
  - erewrite bind_ok by done. specialize (Hk a s1).
    unfold propagates, calls, result in *. simpl in *.
    unfold uncaught in *. rewrite omap_app, Hm. apply Hk.
  - erewrite bind_raise by done. apply Hm.
Qed.

Lemma propagates_gather {A} (ts : list (M Post W A)) :
  (forall t, t ∈ ts -> forall s, propagates (t s)) ->
  forall s, propagates (gather ts s).
Proof.
  induction ts as [|t ts IH]; intros Hts s; [done|].
  rewrite gather_cons.
  assert (Ht := Hts t ltac:(left) s).
  assert (Hr := IH (fun t' Hin => Hts t' ltac:(by right)) (final (t s))).
  unfold propagates, calls, result in *. simpl.
  unfold uncaught in *. rewrite omap_app.
  destruct (t s) as [[t1 [a|e]] s1]; simpl in *.
  - rewrite Ht. simpl.
    by destruct (gather ts s1) as [[t2 [l|e]] s2].
  - destruct (omap _ t1); [done|]. by simpl in *.
Qed.

End MonadLaws.

(** ** Runs of the coroutines *)

(** Unfolding of the monad's operations. *)
Ltac run_simpl :=
  unfold mbind, mret, M_bind, M_ret, bind, ret, call_, call, log, read,
    get_logs, put_logs, calls, result, final in *;
  simpl in *.

(** [simpl] on an observation of a trace, keeping [omap] folded. *)
Ltac obs_simpl :=
  simpl;
  repeat match goal with
         | |- context [list_omap ?A ?B ?f ?l] =>
             change (list_omap A B f l) with (omap f l)
         end.

Section Runs.
Context {Post W : Type} (env : Env Post W).

Implicit Types (s : State W) (feed : Feed.t) (sub : Sub.t).

(** *** [__send] *)

Lemma send_delivered sub post s w :
  send_message env (Sub.user_id sub) post (world s) = (None, w) ->
  __send env sub post s
  = ([EvSend (Sub.user_id sub) post None], Ok tt,
     mkState w (bucket s) (logs s)).
Proof.
  intros H. unfold __send, try_except, call_raising. by rewrite H.
Qed.

Lemma send_uncaught sub post s w e :
  send_message env (Sub.user_id sub) post (world s) = (Some e, w) ->
  caught_by_send e = false ->
  __send env sub post s
  = ([EvSend (Sub.user_id sub) post (Some e)], Raise e,
     mkState w (bucket s) (logs s)).
Proof.
  intros H He. unfold __send, try_except, call_raising. by rewrite H, He.
Qed.

Lemma send_caught_locked sub post s w e b :
  send_message env (Sub.user_id sub) post (world s) = (Some e, w) ->
  caught_by_send e = true ->
  bucket_get (Sub.user_id sub) (bucket s) = (true, b) ->
  __send env sub post s
  = ([EvSend (Sub.user_id sub) post (Some e)], Ok tt, mkState w b (logs s)).
Proof.
  intros H He Hb. unfold __send, try_except, call_raising.
  rewrite H, He. unfold mbind, M_bind, bind, lock_locked. simpl.
  by rewrite Hb.
Qed.

Lemma send_caught_free sub post s w e b :
  send_message env (Sub.user_id sub) post (world s) = (Some e, w) ->
  caught_by_send e = true ->
  bucket_get (Sub.user_id sub) (bucket s) = (false, b) ->
  __send env sub post s
  = ([EvSend (Sub.user_id sub) post (Some e);
      EvLog ERROR (MsgUserBlocked (class_name e) (Sub.user_id sub));
      EvUnsubAll (Sub.user_id sub)],
     Ok tt,
     mkState (unsub_all env (Sub.user_id sub) w)
             (release (Sub.user_id sub) (acquire (Sub.user_id sub) b))
             (logs s)).
Proof.
  intros H He Hb. unfold __send, try_except, call_raising.
  rewrite H, He. unfold mbind, M_bind, bind, lock_locked. simpl.
  by rewrite Hb.
Qed.

(** The calls of a send: the delivery, then nothing, or the record of
    line 218 and [unsub_all]. *)
Lemma send_calls sub post s :
  exists o rest,
    calls (__send env sub post s) = EvSend (Sub.user_id sub) post o :: rest
    /\ o = fst (send_message env (Sub.user_id sub) post (world s))
    /\ (rest = []
        \/ exists e,
            o = Some e /\ caught_by_send e = true
            /\ rest = [EvLog ERROR (MsgUserBlocked (class_name e)
                                                   (Sub.user_id sub));
                       EvUnsubAll (Sub.user_id sub)]).
Proof.
  destruct (send_message env (Sub.user_id sub) post (world s))
    as [[e|] w] eqn:H.
  - destruct (caught_by_send e) eqn:He.
    + destruct (bucket_get (Sub.user_id sub) (bucket s)) as [[|] b] eqn:Hb.
      * erewrite send_caught_locked by done. eauto 10.
      * erewrite send_caught_free by done. eauto 10.
    + erewrite send_uncaught by done. eauto 10.
  - erewrite send_delivered by done. eauto 10.
Qed.

(** A send raises what the delivery raised and line 212 lets through,
    and nothing else. *)
Lemma send_result sub post s :
  result (__send env sub post s)
  = match fst (send_message env (Sub.user_id sub) post (world s)) with
    | Some e => if caught_by_send e then Ok tt else Raise e
    | None => Ok tt
    end.
Proof.
  destruct (send_message env (Sub.user_id sub) post (world s))
    as [[e|] w] eqn:H; simpl.
  - destruct (caught_by_send e) eqn:He.
    + destruct (bucket_get (Sub.user_id sub) (bucket s)) as [[|] b] eqn:Hb.
      * by erewrite send_caught_locked.
      * by erewrite send_caught_free.
    + by erewrite send_uncaught.
  - by erewrite send_delivered.
Qed.

Lemma send_sends sub post s :
  sends (calls (__send env sub post s)) = [(Sub.user_id sub, post)].
Proof.
  destruct (send_calls sub post s) as (o & rest & -> & _ & [->|(e & _ & _ & ->)]);
    done.
Qed.

Lemma send_saves sub post s : saves (calls (__send env sub post s)) = [].
Proof.
  destruct (send_calls sub post s) as (o & rest & -> & _ & [->|(e & _ & _ & ->)]);
    done.
Qed.

Lemma send_renders sub post s : renders (calls (__send env sub post s)) = [].
Proof.
  destruct (send_calls sub post s) as (o & rest & -> & _ & [->|(e & _ & _ & ->)]);
    done.
Qed.

Lemma send_deactivations sub post s :
  deactivations (calls (__send env sub post s)) = [].
Proof.
  destruct (send_calls sub post s) as (o & rest & -> & _ & [->|(e & _ & _ & ->)]);
    done.
Qed.

Lemma send_propagates sub post s : propagates (__send env sub post s).
Proof.
  unfold propagates. rewrite send_result.
  destruct (send_calls sub post s)
    as (o & rest & -> & <- & [->|(e & -> & He & ->)]).
  - destruct o as [e|]; [|done]. simpl. by destruct (caught_by_send e).
  - simpl. by rewrite He.
Qed.

(** *** [__notify_all] *)

Lemma notify_all_run feed entry s subs w :
  Sub_filter env feed (world s) = (subs, w) ->
  let post :=
    get_post_from_entry env entry (Feed.title feed) (Feed.link feed) in
  let w' :=
    generate_message env post
      match subs with [] => update_interval env feed w | _ :: _ => w end in
  let x :=
    gather (map (fun sub => __send env sub (inr post)) subs)
           (mkState w' (bucket s) (logs s)) in
  __notify_all env feed entry s
  = (EvSubFilter feed false
       :: match subs with [] => [EvUpdateInterval feed] | _ :: _ => [] end
       ++ EvGenerateMessage post :: calls x,
     match result x with Ok _ => Ok tt | Raise e => Raise e end,
     final x).
Proof.
  intros H post w' x. unfold __notify_all.
  erewrite bind_ok; [|unfold call; by rewrite H].
  subst x w'. fold post.
  destruct subs as [|sub subs]; run_simpl; [done|].
  destruct (gather _ _) as [[t [l|e]] s2]; simpl; by rewrite ?app_nil_r.
Qed.

Lemma notify_all_calls feed entry s :
  exists rest,
    calls (__notify_all env feed entry s) = EvSubFilter feed false :: rest
    /\ saves rest = [] /\ deactivations rest = []
    /\ renders rest
       = [get_post_from_entry env entry (Feed.title feed) (Feed.link feed)]
    /\ sends rest
       = map (fun sub =>
                (Sub.user_id sub,
                 inr (get_post_from_entry env entry (Feed.title feed)
                                          (Feed.link feed))))
             (fst (Sub_filter env feed (world s))).
Proof.
  destruct (Sub_filter env feed (world s)) as [subs w] eqn:H.
  rewrite (notify_all_run _ _ _ _ _ H). eexists. split; [done|].
  unfold saves, deactivations, renders, sends.
  rewrite !omap_app. simpl omap.
  rewrite (gather_omap_none _ _ _ (fun sub s => send_saves sub _ s)).
  rewrite (gather_omap_none _ _ _ (fun sub s => send_deactivations sub _ s)).
  rewrite (gather_omap_none _ _ _ (fun sub s => send_renders sub _ s)).
  rewrite (gather_omap_one _ _ _ _ (fun sub s => send_sends sub _ s)).
  by destruct subs.
Qed.

Lemma notify_all_saves feed entry s :
  saves (calls (__notify_all env feed entry s)) = [].
Proof. by destruct (notify_all_calls feed entry s) as (? & -> & ? & _). Qed.

Lemma notify_all_deactivations feed entry s :
  deactivations (calls (__notify_all env feed entry s)) = [].
Proof.
  by destruct (notify_all_calls feed entry s) as (? & -> & _ & ? & _).
Qed.

Lemma notify_all_renders feed entry s :
  renders (calls (__notify_all env feed entry s))
  = [get_post_from_entry env entry (Feed.title feed) (Feed.link feed)].
Proof.
  by destruct (notify_all_calls feed entry s) as (? & -> & _ & _ & ? & _).
Qed.

Lemma notify_all_propagates feed entry s :
  propagates (__notify_all env feed entry s).
Proof.
  unfold __notify_all.
  apply propagates_bind; [by apply propagates_call|intros subs s1].
  apply propagates_bind.
  { destruct subs; [by apply propagates_call_|apply propagates_mret]. }
  intros _ s2. apply propagates_bind; [by apply propagates_call_|].
  intros _ s3. apply propagates_bind; [|intros; apply propagates_mret].
  apply propagates_gather. intros t Ht s4.
  apply list_elem_of_fmap in Ht as (sub & -> & _). apply send_propagates.
Qed.

(** *** [__deactivate_feed_and_notify_all] *)

Lemma deactivate_run feed s subs w :
  Sub_filter env feed (world s) = (subs, w) ->
  let x :=
    gather
      (map (fun sub =>
              __send env sub (inl (deactivation_notice env feed sub))) subs)
      (mkState (deactivate_feed env feed w) (bucket s) (logs s)) in
  __deactivate_feed_and_notify_all env feed s
  = (EvSubFilter feed true :: EvDeactivateFeed feed :: calls x,
     match result x with Ok _ => Ok tt | Raise e => Raise e end,
     final x).
Proof.
  intros H x. unfold __deactivate_feed_and_notify_all.
  erewrite bind_ok; [|unfold call; by rewrite H].
  subst x. destruct subs as [|sub subs]; run_simpl; [done|].
  destruct (gather _ _) as [[t [l|e]] s2]; simpl; by rewrite ?app_nil_r.
Qed.

(** The calls of the deactivation: the subscriptions are read, the
    feed is deactivated, and one notice is sent per subscription. *)
Lemma deactivate_calls feed s :
  exists rest,
    calls (__deactivate_feed_and_notify_all env feed s)
    = EvSubFilter feed true :: EvDeactivateFeed feed :: rest
    /\ saves rest = [] /\ deactivations rest = [] /\ renders rest = []
    /\ sends rest
       = map (fun sub =>
                (Sub.user_id sub, inl (deactivation_notice env feed sub)))
             (fst (Sub_filter env feed (world s)))
    /\ (fst (Sub_filter env feed (world s)) = [] -> rest = []).
Proof.
  destruct (Sub_filter env feed (world s)) as [subs w] eqn:H.
  rewrite (deactivate_run _ _ _ _ H), calls_run. eexists. split; [done|].
  unfold saves, deactivations, renders, sends.
  rewrite (gather_omap_none _ _ _ (fun sub s => send_saves sub _ s)).
  rewrite (gather_omap_none _ _ _ (fun sub s => send_deactivations sub _ s)).
  rewrite (gather_omap_none _ _ _ (fun sub s => send_renders sub _ s)).
  rewrite (gather_omap_one _ _ _ _ (fun sub s => send_sends sub _ s)).
  simpl. do 4 (split; [done|]). by intros ->.
Qed.

Lemma deactivate_propagates feed s :
  propagates (__deactivate_feed_and_notify_all env feed s).
Proof.
  unfold __deactivate_feed_and_notify_all.
  apply propagates_bind; [by apply propagates_call|intros subs s1].
  apply propagates_bind; [by apply propagates_call_|intros _ s2].
  destruct subs as [|sub subs]; [apply propagates_mret|].
  apply propagates_bind; [|intros; apply propagates_mret].
  apply propagates_gather. intros t Ht s4.
  apply list_elem_of_fmap in Ht as (sub' & -> & _). apply send_propagates.
Qed.

(** *** The branches of [__monitor] *)

Lemma on_error_deactivates now d feed s :
  100 <= Feed.error_count feed ->
  let x := __deactivate_feed_and_notify_all env feed s in
  on_error env now d feed s
  = (EvLog ERROR (MsgDeactivated (Feed.link feed)) :: calls x,
     match result x with Ok _ => Ok FAILED | Raise e => Raise e end,
     final x).
Proof.
  intros H x. unfold on_error.
  destruct (Z.leb_spec 100 (Feed.error_count feed)); [|lia].
  subst x. run_simpl.
  destruct (__deactivate_feed_and_notify_all _ _ _) as [[t [l|e]] s2];
    simpl; by rewrite ?app_nil_r.
Qed.

Lemma on_error_backs_off now d feed s :
  Feed.error_count feed < 100 ->
  let feed1 := Feed.set_error_count (Feed.error_count feed + 1) feed in
  let feed2 := delay_next_check now (default_interval env (world s)) feed1 in
  on_error env now d feed s
  = ((if Feed.error_count feed1 mod 10 =? 0
      then [EvLog WARNING (MsgFetchFailed (Feed.error_count feed1)
                                          (Fetched.msg d) (Feed.link feed1))]
      else [])
     ++ [EvSave feed2],
     Ok FAILED,
     mkState (Feed_save env feed2 (world s)) (bucket s) (logs s)).
Proof.
  intros H feed1 feed2. unfold on_error.
  destruct (Z.leb_spec 100 (Feed.error_count feed)); [lia|].
  fold feed1. subst feed2.
  destruct (Feed.error_count feed1 mod 10 =? 0); by run_simpl.
Qed.

Lemma on_error_propagates now d feed s :
  propagates (on_error env now d feed s).
Proof.
  unfold on_error. destruct (100 <=? Feed.error_count feed).
  - apply propagates_bind; [apply propagates_log|intros _ s1].
    apply propagates_bind; [apply deactivate_propagates|].
    intros; apply propagates_mret.
  - apply propagates_bind.
    { destruct (_ =? 0); [apply propagates_log|apply propagates_mret]. }
    intros _ s1. apply propagates_bind; [apply propagates_read|].
    intros default s2. apply propagates_bind; [by apply propagates_call_|].
    intros; apply propagates_mret.
Qed.

Lemma recover_run d feed s :
  recover env d feed s
  = if recovers d feed then
      let feed' :=
        Feed.set_next_check_time None (Feed.set_error_count 0 feed) in
      ([EvSave feed'], Ok feed',
       mkState (Feed_save env feed' (world s)) (bucket s) (logs s))
    else ([], Ok feed, s).
Proof. unfold recover. by destruct (recovers d feed). Qed.

Lemma on_empty_run d feed s :
  exists t s',
    on_empty env d feed s = (t, Ok EMPTY, s')
    /\ saves t = [] /\ sends t = [] /\ renders t = []
    /\ deactivations t = [] /\ uncaught t = [].
Proof.
  unfold on_empty. destruct (bool_decide _); run_simpl.
  - destruct (migrate_to_new_url _ _ _ _) as [o w]. simpl. by eexists _, _.
  - by eexists _, _.
Qed.

Lemma refresh_entry_hashes d new_hashes feed :
  Feed.entry_hashes (refresh env d new_hashes feed) = Some new_hashes.
Proof. reflexivity. Qed.

Lemma refresh_error_count d new_hashes feed :
  Feed.error_count (refresh env d new_hashes feed) = Feed.error_count feed.
Proof. reflexivity. Qed.

Lemma refresh_next_check_time d new_hashes feed :
  Feed.next_check_time (refresh env d new_hashes feed)
  = Feed.next_check_time feed.
Proof. reflexivity. Qed.

Lemma follow_run d feed s :
  exists t feed' s',
    follow env d feed s = (t, Ok feed', s')
    /\ saves t = [] /\ sends t = [] /\ renders t = []
    /\ deactivations t = [] /\ uncaught t = [].
Proof.
  unfold follow. destruct (bool_decide _); run_simpl.
  - destruct (migrate_to_new_url _ _ _ _) as [o w]. simpl.
    by eexists _, _, _.
  - by eexists _, _, _.
Qed.

Lemma on_entries_not_updated d entries feed s updated_entries :
  diff (get_hash env) entries (default [] (Feed.entry_hashes feed))
  = ([], updated_entries) ->
  on_entries env d entries feed s
  = ([EvLog DEBUG (MsgNotUpdated (Feed.link feed))], Ok NOT_UPDATED, s).
Proof. intros H. unfold on_entries. by rewrite H. Qed.

(** The update path: the record of the update, one write of the
    refreshed record, the migration if any, then one fanout for every
    new entry. *)
Lemma on_entries_updated d entries feed s updated_hashes updated_entries :
  diff (get_hash env) entries (default [] (Feed.entry_hashes feed))
  = (updated_hashes, updated_entries) ->
  updated_hashes <> [] ->
  let feed1 :=
    refresh env d
      (merge updated_hashes (default [] (Feed.entry_hashes feed))
             (Py.len entries)) feed in
  exists t feed2 s2,
    let x := gather (map (__notify_all env feed2) updated_entries) s2 in
    on_entries env d entries feed s
    = (EvLog DEBUG (MsgUpdated (Feed.link feed)) :: EvSave feed1
         :: t ++ calls x,
       match result x with Ok _ => Ok UPDATED | Raise e => Raise e end,
       final x)
    /\ saves t = [] /\ sends t = [] /\ renders t = []
    /\ deactivations t = [] /\ uncaught t = [].
Proof.
  intros H Hne feed1. unfold on_entries. rewrite H.
  destruct updated_hashes as [|h hs]; [done|]. fold feed1.
  destruct (follow_run d feed1
              (mkState (Feed_save env feed1 (world s)) (bucket s) (logs s)))
    as (t & feed2 & s2 & Hf & Hobs).
  exists t, feed2, s2. split; [|done].
  run_simpl. rewrite Hf.
  destruct (gather _ s2) as [[t2 [l|e]] s3]; simpl; by rewrite ?app_nil_r.
Qed.

Lemma on_entries_propagates d entries feed s :
  propagates (on_entries env d entries feed s).
Proof.
  unfold on_entries. destruct (diff _ _ _) as [[|h hs] ue].
  - apply propagates_bind; [apply propagates_log|].
    intros; apply propagates_mret.
  - apply propagates_bind; [apply propagates_log|intros _ s1].
    apply propagates_bind; [by apply propagates_call_|intros _ s2].
    apply propagates_bind.
    { unfold follow. destruct (bool_decide _); [|apply propagates_mret].
      apply propagates_bind; [by apply propagates_call|].
      intros; apply propagates_mret. }
    intros feed2 s3.
    apply propagates_bind; [|intros; apply propagates_mret].
    apply propagates_gather. intros t Ht s4.
    apply list_elem_of_fmap in Ht as (entry & -> & _).
    apply notify_all_propagates.
Qed.

(** *** [__monitor] *)

Lemma monitor_skipped feed s :
  not_due (datetime_now env (world s)) feed = true ->
  __monitor env feed s = ([], Ok SKIPPED, s).
Proof. intros H. unfold __monitor. run_simpl. by rewrite H. Qed.

Lemma monitor_fetched feed s d w :
  not_due (datetime_now env (world s)) feed = false ->
  feed_get env (Feed.link feed)
           (request_headers (format_datetime env) feed) (world s) = (d, w) ->
  let x := after_fetch env (datetime_now env (world s)) d feed
                       (mkState w (bucket s) (logs s)) in
  __monitor env feed s
  = (EvFeedGet (Feed.link feed) (request_headers (format_datetime env) feed)
       :: calls x,
     result x, final x).
Proof.
  intros Hdue Hget x. unfold __monitor.
  unfold mbind at 1, M_bind at 1, bind at 1, read at 1.
  rewrite Hdue. erewrite bind_ok; [|unfold call; by rewrite Hget]. done.
Qed.

Lemma after_fetch_run now d feed s :
  let feed' := if recovers d feed
               then Feed.set_next_check_time None
                      (Feed.set_error_count 0 feed)
               else feed in
  let s' := if recovers d feed
            then mkState (Feed_save env feed' (world s)) (bucket s) (logs s)
            else s in
  let y :=
    if Fetched.status d =? 304
    then ([EvLog DEBUG (MsgCached (Feed.link feed'))], Ok CACHED, s')
    else match Fetched.rss_d d with
         | None => on_error env now d feed' s'
         | Some [] => on_empty env d feed' s'
         | Some (entry :: entries) =>
             on_entries env d (entry :: entries) feed' s'
         end in
  after_fetch env now d feed s
  = ((if recovers d feed then [EvSave feed'] else []) ++ calls y,
     result y, final y).
Proof.
  intros feed' s' y. subst y s' feed'. unfold after_fetch.
  destruct (recovers d feed) eqn:Hr;
    (erewrite bind_ok; [|rewrite recover_run, Hr; reflexivity]);
    (destruct (Fetched.status d =? 304); [by run_simpl|]);
    by destruct (Fetched.rss_d d) as [[|entry entries]|].
Qed.

Lemma after_fetch_propagates now d feed s :
  propagates (after_fetch env now d feed s).
Proof.
  unfold after_fetch. apply propagates_bind.
  { unfold recover. destruct (recovers d feed); [|apply propagates_mret].
    apply propagates_bind; [by apply propagates_call_|].
    intros; apply propagates_mret. }
  intros feed' s1. destruct (Fetched.status d =? 304).
  { apply propagates_bind; [apply propagates_log|].
    intros; apply propagates_mret. }
  destruct (Fetched.rss_d d) as [[|entry entries]|].
  - destruct (on_empty_run d feed' s1) as (t & s' & -> & _ & _ & _ & _ & H).
    apply H.
  - apply on_entries_propagates.
  - apply on_error_propagates.
Qed.

Lemma monitor_propagates feed s : propagates (__monitor env feed s).
Proof.
  unfold __monitor. apply propagates_bind; [apply propagates_read|].
  intros now s1. destruct (not_due now feed); [apply propagates_mret|].
  apply propagates_bind; [by apply propagates_call|].
  intros d s2. apply after_fetch_propagates.
Qed.

Lemma fanout_saves feed entries s :
  saves (calls (gather (map (__notify_all env feed) entries) s)) = [].
Proof. apply gather_omap_none, notify_all_saves. Qed.

Lemma fanout_deactivations feed entries s :
  deactivations (calls (gather (map (__notify_all env feed) entries) s)) = [].
Proof. apply gather_omap_none, notify_all_deactivations. Qed.

Lemma fanout_renders feed entries s :
  renders (calls (gather (map (__notify_all env feed) entries) s))
  = map (fun entry =>
           get_post_from_entry env entry (Feed.title feed) (Feed.link feed))
        entries.
Proof. apply gather_omap_one, notify_all_renders. Qed.

Lemma fanout_propagates feed entries s :
  propagates (gather (map (__notify_all env feed) entries) s).
Proof.
  apply propagates_gather. intros t Ht s'.
  apply list_elem_of_fmap in Ht as (entry & -> & _).
  apply notify_all_propagates.
Qed.

(** A run that propagates and shows no uncaught error returns. *)
Lemma propagates_returns {A} (x : list (event Post) * res A * State W) :
  propagates x -> uncaught (calls x) = [] -> exists a, result x = Ok a.
Proof.
  unfold propagates. destruct (result x) as [a|e]; [by eexists|].
  intros H1 H2. by rewrite H2 in H1.
Qed.

(** The poll on the update path, call by call. *)
Lemma monitor_updated feed s d w entries updated_hashes updated_entries :
  not_due (datetime_now env (world s)) feed = false ->
  feed_get env (Feed.link feed)
           (request_headers (format_datetime env) feed) (world s) = (d, w) ->
  Fetched.status d <> 304 ->
  Fetched.rss_d d = Some entries ->
  diff (get_hash env) entries (default [] (Feed.entry_hashes feed))
  = (updated_hashes, updated_entries) ->
  updated_hashes <> [] ->
  let feed0 :=
    if recovers d feed
    then Feed.set_next_check_time None (Feed.set_error_count 0 feed)
    else feed in
  let feed1 :=
    refresh env d
      (merge updated_hashes (default [] (Feed.entry_hashes feed))
             (Py.len entries)) feed0 in
  exists t feed2 s2,
    let x := gather (map (__notify_all env feed2) updated_entries) s2 in
    __monitor env feed s
    = (EvFeedGet (Feed.link feed)
                 (request_headers (format_datetime env) feed)
         :: (if recovers d feed then [EvSave feed0] else [])
         ++ EvLog DEBUG (MsgUpdated (Feed.link feed)) :: EvSave feed1
         :: t ++ calls x,
       match result x with Ok _ => Ok UPDATED | Raise e => Raise e end,
       final x)
    /\ saves t = [] /\ sends t = [] /\ renders t = []
    /\ deactivations t = [] /\ uncaught t = [].
Proof.
  intros Hdue Hget H304 Hrss Hdiff Hne feed0 feed1.
  rewrite (monitor_fetched _ _ _ _ Hdue Hget), after_fetch_run.
  apply Z.eqb_neq in H304. rewrite H304, Hrss. fold feed0.
  assert (Hh : Feed.entry_hashes feed0 = Feed.entry_hashes feed)
    by (subst feed0; by destruct (recovers d feed)).
  assert (Hl : Feed.link feed0 = Feed.link feed)
    by (subst feed0; by destruct (recovers d feed)).
  destruct entries as [|entry entries].
  { rewrite diff_nil in Hdiff. by inversion Hdiff; subst. }
  rewrite <- Hh in Hdiff.
  set (s1 := if recovers d feed then mkState _ _ _ else _).
  destruct (on_entries_updated d (entry :: entries) feed0 s1 _ _ Hdiff Hne)
    as (t & feed2 & s2 & Heq & Hobs).
  rewrite Hh, Hl in Heq. fold feed1 in Heq.
  exists t, feed2, s2. rewrite Heq, !calls_run, result_run, final_run.
  done.
Qed.

(** *** [run_monitor_task] *)

Lemma MonitoringLogs_log_run nu c e f u k s :
  exists (t : list (event Post)) s',
    MonitoringLogs_log nu c e f u k s = (t, Ok tt, s') /\ uncaught t = [].
Proof.
  unfold MonitoringLogs_log, print_summary. run_simpl.
  destruct (_ =? 10); by eexists _, _.
Qed.

(** The cycle up to its gathering, and what follows when a poll raised:
    nothing. *)
Lemma run_monitor_task_run s id ids w feeds w' :
  get_tasks env (world s) = (id :: ids, w) ->
  Feed_filter env (id :: ids) w = (feeds, w') ->
  let x := gather (map (__monitor env) feeds)
                  (mkState w' (bucket s) (logs s)) in
  exists y,
    run_monitor_task env s
    = (EvGetTasks :: EvFeedFilter (id :: ids) :: EvLog DEBUG MsgStarted
         :: calls x ++ calls y,
       result y, final y)
    /\ match result x with
       | Raise e => y = ([], Raise e, final x)
       | Ok outcomes =>
           exists nu c e f u k,
             fold_left tally outcomes (0, 0, 0, 0, 0, 0) = (nu, c, e, f, u, k)
             /\ y = MonitoringLogs_log nu c e f u k (final x)
       end.
Proof.
  intros Ht Hf x. subst x. unfold run_monitor_task.
  run_simpl. rewrite Ht. simpl. rewrite Hf. simpl.
  destruct (gather _ _) as [[t [outcomes|e]] s1]; simpl.
  - destruct (fold_left tally outcomes (0, 0, 0, 0, 0, 0))
      as [[[[[nu c] e] f] u] k] eqn:Hfold.
    eexists. split; [|by eexists _, _, _, _, _, _].
    by destruct (MonitoringLogs_log _ _ _ _ _ _ _) as [[? ?] ?].
  - eexists. split; [|done]. simpl. by rewrite app_nil_r.
Qed.

Lemma run_monitor_task_propagates s :
  propagates (run_monitor_task env s).
Proof.
  unfold run_monitor_task.
  apply propagates_bind; [by apply propagates_call|intros ids s1].
  destruct ids as [|id ids]; [apply propagates_mret|].
  apply propagates_bind; [by apply propagates_call|intros feeds s2].
  apply propagates_bind; [apply propagates_log|intros _ s3].
  apply propagates_bind.
  { apply propagates_gather. intros t Ht s4.
    apply list_elem_of_fmap in Ht as (feed & -> & _).
    apply monitor_propagates. }
  intros outcomes s4.
  destruct (fold_left tally outcomes (0, 0, 0, 0, 0, 0))
    as [[[[[nu c] e] f] u] k].
  destruct (MonitoringLogs_log_run nu c e f u k s4) as (t & s' & -> & H).
  apply H.
Qed.

End Runs.

(** ** The claims of the specification *)

Lemma str_in_false (x : string) (l : list string) :
  Py.str_in x l = false <-> x ∉ l.
Proof.
  unfold Py.str_in. induction l as [|y l IH]; simpl.
  - split; [intros _; apply not_elem_of_nil|done].
  - rewrite orb_false_iff, IH, not_elem_of_cons, String.eqb_neq. tauto.
Qed.

Section Claims.
Context {Post W : Type} (env : Env Post W).

Implicit Types (s : State W) (feed : Feed.t) (sub : Sub.t).

(** What the update path writes: the recovery write, if any, then the
    refreshed record; and what it renders: one post per new entry. *)
Lemma monitor_updated_observed feed s d w entries
    updated_hashes updated_entries :
  not_due (datetime_now env (world s)) feed = false ->
  feed_get env (Feed.link feed)
           (request_headers (format_datetime env) feed) (world s) = (d, w) ->
  Fetched.status d <> 304 ->
  Fetched.rss_d d = Some entries ->
  diff (get_hash env) entries (default [] (Feed.entry_hashes feed))
  = (updated_hashes, updated_entries) ->
  updated_hashes <> [] ->
  let feed0 :=
    if recovers d feed
    then Feed.set_next_check_time None (Feed.set_error_count 0 feed)
    else feed in
  let feed1 :=
    refresh env d
      (merge updated_hashes (default [] (Feed.entry_hashes feed))
             (Py.len entries)) feed0 in
  let x := __monitor env feed s in
  saves (calls x) = (if recovers d feed then [feed0] else []) ++ [feed1]
  /\ (exists pre feed2 s2,
       calls x
       = pre ++ calls (gather (map (__notify_all env feed2) updated_entries)
                              s2)
       /\ renders pre = [] /\ sends pre = []
       /\ renders (calls x)
          = map (fun entry =>
                   get_post_from_entry env entry (Feed.title feed2)
                                       (Feed.link feed2))
                updated_entries)
  /\ (uncaught (calls x) = [] -> result x = Ok UPDATED).
Proof.
  intros Hdue Hget H304 Hrss Hdiff Hne feed0 feed1 x.
  destruct (monitor_updated env feed s d w entries _ _
              Hdue Hget H304 Hrss Hdiff Hne)
    as (t & feed2 & s2 & Heq & Hsv & Hsd & Hrd & _ & Hun).
  subst x. rewrite Heq. fold feed0 feed1.
  set (y := gather _ s2).
  assert (Hys : saves (calls y) = []) by apply fanout_saves.
  assert (Hyr : renders (calls y) = _) by apply fanout_renders.
  assert (Hyp : propagates y) by apply fanout_propagates.
  clearbody feed0 feed1. rewrite !calls_run, result_run.
  unfold saves, renders, sends, uncaught in *.
  split; [|split].
  - destruct (recovers d feed); obs_simpl; by rewrite omap_app, Hsv, Hys.
  - exists (EvFeedGet (Feed.link feed)
                      (request_headers (format_datetime env) feed)
              :: (if recovers d feed then [EvSave feed0] else [])
              ++ EvLog DEBUG (MsgUpdated (Feed.link feed)) :: EvSave feed1
              :: t), feed2, s2.
    fold y.
    split; [|split; [|split]].
    + simpl. f_equal. rewrite <- app_assoc. reflexivity.
    + destruct (recovers d feed); obs_simpl; by rewrite Hrd.
    + destruct (recovers d feed); obs_simpl; by rewrite Hsd.
    + destruct (recovers d feed); obs_simpl; by rewrite omap_app, Hrd, Hyr.
  - intros Hu.
    assert (Hy : uncaught (calls y) = []).
    { unfold uncaught.
      destruct (recovers d feed); revert Hu; obs_simpl;
        rewrite omap_app; intros Hu; by apply app_eq_nil in Hu as [_ Hu]. }
    destruct (propagates_returns y Hyp Hy) as [a ->]. done.
Qed.

(** C8 (bounded history).  On every update path -- the fetch brought
    [entries] of which some are new -- the history written by the poll
    is the new fingerprints followed by a prefix of the stored history
    (its oldest part cut off), and is at most
    [max (2 * len entries) 100] long. *)
Theorem bounded_history feed s d w entries :
  not_due (datetime_now env (world s)) feed = false ->
  feed_get env (Feed.link feed)
           (request_headers (format_datetime env) feed) (world s) = (d, w) ->
  Fetched.status d <> 304 ->
  Fetched.rss_d d = Some entries ->
  let old_hashes := default [] (Feed.entry_hashes feed) in
  let updated_hashes := fst (diff (get_hash env) entries old_hashes) in
  updated_hashes <> [] ->
  exists feed' new_hashes k,
    last (saves (calls (__monitor env feed s))) = Some feed'
    /\ Feed.entry_hashes feed' = Some new_hashes
    /\ new_hashes = updated_hashes ++ take k old_hashes
    /\ Py.len new_hashes <= Z.max (2 * Py.len entries) 100.
Proof.
  intros Hdue Hget H304 Hrss old_hashes updated_hashes Hne.
  destruct (diff (get_hash env) entries old_hashes) as [uh ue] eqn:Hdiff.
  destruct (monitor_updated_observed feed s d w entries uh ue
              Hdue Hget H304 Hrss Hdiff Hne) as (Hsaves & _).
  rewrite Hsaves. simpl in updated_hashes. subst updated_hashes.
  destruct (slice_to_prefix old_hashes
              (Z.max (Py.len entries * 2) 100 - Py.len uh)) as [k Hk].
  eexists _, (merge uh old_hashes (Py.len entries)), k.
  split; [by rewrite last_snoc|]. split; [done|]. split.
  - unfold merge. by rewrite Hk.
  - replace (2 * Py.len entries) with (Py.len entries * 2) by lia.
    apply merge_length.
    pose proof (diff_length (get_hash env) old_hashes entries) as Hl.
    rewrite Hdiff in Hl. unfold Py.len. simpl in Hl. lia.
Qed.

(** C7 (dedup scenario).  With the stored history [h1; h2] and a fetch
    of three entries whose fingerprints are [h3; h1; h2] in this order,
    the new fingerprints are [h3], the history written is [h3; h1; h2],
    exactly one fanout is started, for the entry of [h3], and the poll
    returns [UPDATED] (unless a delivery raises an error that line 212
    does not catch). *)
Theorem dedup_scenario feed s d w e1 e2 e3 g1 g2 g3 :
  not_due (datetime_now env (world s)) feed = false ->
  feed_get env (Feed.link feed)
           (request_headers (format_datetime env) feed) (world s) = (d, w) ->
  Fetched.status d <> 304 ->
  Fetched.rss_d d = Some [e3; e1; e2] ->
  guid_of e1 = Some g1 -> guid_of e2 = Some g2 -> guid_of e3 = Some g3 ->
  let h1 := get_hash env g1 in
  let h2 := get_hash env g2 in
  let h3 := get_hash env g3 in
  Feed.entry_hashes feed = Some [h1; h2] ->
  h3 <> h1 -> h3 <> h2 ->
  let x := __monitor env feed s in
  diff (get_hash env) [e3; e1; e2] [h1; h2] = ([h3], [e3])
  /\ merge [h3] [h1; h2] 3 = [h3; h1; h2]
  /\ (exists feed',
        last (saves (calls x)) = Some feed'
        /\ Feed.entry_hashes feed' = Some [h3; h1; h2])
  /\ (exists pre feed2 s2,
        calls x = pre ++ calls (gather [__notify_all env feed2 e3] s2)
        /\ renders pre = [] /\ sends pre = []
        /\ renders (calls x)
           = [get_post_from_entry env e3 (Feed.title feed2)
                                  (Feed.link feed2)])
  /\ (uncaught (calls x) = [] -> result x = Ok UPDATED).
Proof.
  intros Hdue Hget H304 Hrss Hg1 Hg2 Hg3 h1 h2 h3 Hold H31 H32 x.
  assert (Hdiff :
    diff (get_hash env) [e3; e1; e2] [h1; h2] = ([h3], [e3])).
  { rewrite (diff_cons _ _ e3), (diff_cons _ _ e1).
    rewrite (diff_one_new _ _ e3 g3 Hg3), (diff_one_old _ _ e1 g1 Hg1),
      (diff_one_old _ _ e2 g2 Hg2); [done|..].
    - fold h2. unfold Py.str_in. simpl.
      by rewrite String.eqb_refl, orb_true_r.
    - fold h1. unfold Py.str_in. simpl. by rewrite String.eqb_refl.
    - apply str_in_false. fold h3.
      rewrite !not_elem_of_cons. split_and!; [done..|apply not_elem_of_nil]. }
  assert (Hmerge : merge [h3] [h1; h2] 3 = [h3; h1; h2]) by done.
  do 2 (split; [done|]).
  assert (Hdiff' :
    diff (get_hash env) [e3; e1; e2] (default [] (Feed.entry_hashes feed))
    = ([h3], [e3])) by by rewrite Hold.
  destruct (monitor_updated_observed feed s d w _ _ _
              Hdue Hget H304 Hrss Hdiff' ltac:(done))
    as (Hsaves & Hfan & Hres).
  fold x in Hsaves, Hfan, Hres. split; [|done].
  rewrite Hsaves, last_snoc. eexists. split; [done|].
  rewrite refresh_entry_hashes, Hold. exact (f_equal Some Hmerge).
Qed.

(** C10 (a fingerprint twice in one batch).  Newness is decided against
    the stored history only: when two entries of the batch have the
    same fingerprint and the history lacks it, both are new, the
    fingerprint is in the updated list twice, and a fanout is started
    for each of the two entries. *)
Theorem duplicate_in_batch feed s d w l1 l2 l3 a b ga gb h :
  not_due (datetime_now env (world s)) feed = false ->
  feed_get env (Feed.link feed)
           (request_headers (format_datetime env) feed) (world s) = (d, w) ->
  Fetched.status d <> 304 ->
  Fetched.rss_d d = Some (l1 ++ a :: l2 ++ b :: l3) ->
  guid_of a = Some ga -> guid_of b = Some gb ->
  get_hash env ga = h -> get_hash env gb = h ->
  let old_hashes := default [] (Feed.entry_hashes feed) in
  h ∉ old_hashes ->
  let new l := diff (get_hash env) l old_hashes in
  let updated_hashes :=
    fst (new l1) ++ h :: fst (new l2) ++ h :: fst (new l3) in
  let updated_entries :=
    snd (new l1) ++ a :: snd (new l2) ++ b :: snd (new l3) in
  let x := __monitor env feed s in
  new (l1 ++ a :: l2 ++ b :: l3) = (updated_hashes, updated_entries)
  /\ (exists feed' k,
        last (saves (calls x)) = Some feed'
        /\ Feed.entry_hashes feed'
           = Some (updated_hashes ++ take k old_hashes))
  /\ (exists pre feed2 s2,
        calls x
        = pre ++ calls (gather (map (__notify_all env feed2) updated_entries)
                               s2)
        /\ renders pre = [] /\ sends pre = []
        /\ renders (calls x)
           = map (fun entry =>
                    get_post_from_entry env entry (Feed.title feed2)
                                        (Feed.link feed2))
                 updated_entries)
  /\ (uncaught (calls x) = [] -> result x = Ok UPDATED).
Proof.
  intros Hdue Hget H304 Hrss Hga Hgb Hha Hhb old_hashes Hnew new
         updated_hashes updated_entries x.
  apply str_in_false in Hnew.
  assert (Ha : new [a] = ([h], [a])).
  { subst new. simpl. rewrite <- Hha. apply diff_one_new; [done|].
    by rewrite Hha. }
  assert (Hb : new [b] = ([h], [b])).
  { subst new. simpl. rewrite <- Hhb. apply diff_one_new; [done|].
    by rewrite Hhb. }
  assert (Hdiff :
    new (l1 ++ a :: l2 ++ b :: l3) = (updated_hashes, updated_entries)).
  { subst new updated_hashes updated_entries. simpl in *.
    rewrite diff_app, (diff_cons _ _ a). simpl.
    rewrite diff_app, (diff_cons _ _ b). simpl.
    by rewrite Ha, Hb. }
  split; [done|].
  destruct (monitor_updated_observed feed s d w _ _ _
              Hdue Hget H304 Hrss Hdiff)
    as (Hsaves & Hfan & Hres).
  { subst updated_hashes. by destruct (fst (new l1)). }
  fold x in Hsaves, Hfan, Hres. split; [|done].
  rewrite Hsaves, last_snoc.
  destruct (slice_to_prefix old_hashes
              (Z.max (Py.len (l1 ++ a :: l2 ++ b :: l3) * 2) 100
               - Py.len updated_hashes)) as [k Hk].
  eexists _, k. split; [done|].
  rewrite refresh_entry_hashes. unfold merge.
  fold old_hashes. by rewrite Hk.
Qed.

(** C9 (recovery).  When the fetch answers not-modified or brings a
    parsed feed, and the feed had errors or a deferred next check, the
    first thing after the fetch is the write of the record with
    [error_count = 0] and no [next_check_time]; whatever the poll
    writes later keeps both; a not-modified answer then ends the poll
    with [CACHED]. *)
Theorem recovery feed s d w :
  not_due (datetime_now env (world s)) feed = false ->
  feed_get env (Feed.link feed)
           (request_headers (format_datetime env) feed) (world s) = (d, w) ->
  Fetched.status d = 304 \/ is_Some (Fetched.rss_d d) ->
  0 < Feed.error_count feed \/ is_Some (Feed.next_check_time feed) ->
  let cleared :=
    Feed.set_next_check_time None (Feed.set_error_count 0 feed) in
  let x := __monitor env feed s in
  Feed.error_count cleared = 0
  /\ Feed.next_check_time cleared = None
  /\ exists rest,
      calls x
      = EvFeedGet (Feed.link feed)
                  (request_headers (format_datetime env) feed)
          :: EvSave cleared :: rest
      /\ (forall feed', feed' ∈ saves rest ->
            Feed.error_count feed' = 0
            /\ Feed.next_check_time feed' = None)
      /\ (Fetched.status d = 304 ->
          rest = [EvLog DEBUG (MsgCached (Feed.link feed))]
          /\ result x = Ok CACHED).
Proof.
  intros Hdue Hget Hback Herr cleared x. do 2 (split; [done|]).
  assert (Hrec : recovers d feed = true).
  { unfold recovers. apply andb_true_iff. split; apply orb_true_iff.
    - destruct Hback as [H|H]; [right; by apply Z.eqb_eq|left].
      by apply bool_decide_eq_true.
    - destruct Herr as [H|H]; [left; by apply Z.ltb_lt|right].
      by apply bool_decide_eq_true. }
  subst x.
  rewrite (monitor_fetched _ _ _ _ _ Hdue Hget), after_fetch_run.
  rewrite Hrec. fold cleared. rewrite !calls_run, result_run.
  set (s1 := mkState (Feed_save _ _ _) _ _). simpl app.
  destruct (Z.eqb_spec (Fetched.status d) 304) as [H304|H304].
  { eexists. split; [done|]. split; [|done].
    intros feed' Hin. by apply elem_of_nil in Hin. }
  destruct Hback as [?|[entries Hrss]]; [done|]. rewrite Hrss.
  destruct entries as [|entry entries].
  - destruct (on_empty_run env d cleared s1)
      as (t & s' & -> & Hsv & _).
    eexists. split; [done|]. split; [|done].
    rewrite calls_run, Hsv. intros feed' Hin. by apply elem_of_nil in Hin.
  - destruct (diff (get_hash env) (entry :: entries)
                   (default [] (Feed.entry_hashes cleared)))
      as [[|h hs] ue] eqn:Hdiff.
    + rewrite (on_entries_not_updated _ _ _ _ _ _ Hdiff).
      eexists. split; [done|]. split; [|done].
      intros feed' Hin. by apply elem_of_nil in Hin.
    + destruct (on_entries_updated env d _ cleared s1 _ _ Hdiff)
        as (t & feed2 & s2 & -> & Hsv & _); [done|].
      eexists. split; [done|]. split; [|done].
      rewrite calls_run. unfold saves in *. obs_simpl.
      rewrite omap_app, Hsv.
      fold (saves (calls (gather (map (__notify_all env feed2) ue) s2))).
      rewrite fanout_saves. intros feed' Hin.
      apply list_elem_of_singleton in Hin as ->. done.
Qed.

(** C2, amended (backoff at the tenth failure).  A failed fetch that
    takes [error_count] from 9 to 10 on a feed polled every 5 minutes
    computes a delay of [min 5 15 * min (10 / 10 + 1) 5 = 10] minutes;
    it is longer than the interval, so the record is written with
    [next_check_time] ten minutes from now, and the poll returns
    [FAILED]. *)
Theorem backoff_tenth_failure feed s d w :
  not_due (datetime_now env (world s)) feed = false ->
  feed_get env (Feed.link feed)
           (request_headers (format_datetime env) feed) (world s) = (d, w) ->
  Fetched.rss_d d = None ->
  Fetched.status d <> 304 ->
  Feed.error_count feed = 9 ->
  Feed.interval feed = Some 5 ->
  let now := datetime_now env (world s) in
  let feed' :=
    Feed.set_next_check_time (Some (now + Py.timedelta_minutes 10))
      (Feed.set_error_count 10 feed) in
  next_check_interval 5 10 = 10
  /\ __monitor env feed s
     = ([EvFeedGet (Feed.link feed)
                   (request_headers (format_datetime env) feed);
         EvLog WARNING (MsgFetchFailed 10 (Fetched.msg d) (Feed.link feed));
         EvSave feed'],
        Ok FAILED,
        mkState (Feed_save env feed' w) (bucket s) (logs s)).
Proof.
  intros Hdue Hget Hrss H304 Hec Hint now feed'. split; [done|].
  rewrite (monitor_fetched _ _ _ _ _ Hdue Hget), after_fetch_run.
  assert (Hrec : recovers d feed = false).
  { unfold recovers. rewrite Hrss. apply Z.eqb_neq in H304.
    by rewrite H304. }
  rewrite Hrec. apply Z.eqb_neq in H304. rewrite H304, Hrss.
  rewrite on_error_backs_off by lia.
  rewrite !calls_run, result_run, final_run.
  unfold delay_next_check. simpl Feed.error_count. simpl Feed.interval.
  rewrite Hec, Hint. simpl. reflexivity.
Qed.

(** The writes of a poll: at most one for recovery, which needs a prior
    error state, and at most one more, which together with a recovery
    write means the update path. *)
Lemma monitor_writes feed s :
  let x := __monitor env feed s in
  exists r u : bool,
    length (saves (calls x))
    = ((if r then 1 else 0) + (if u then 1 else 0))%nat
    /\ (r = true ->
        0 < Feed.error_count feed \/ is_Some (Feed.next_check_time feed))
    /\ (r = true -> u = true ->
        result x = Ok UPDATED \/ exists e, result x = Raise e).
Proof.
  intros x. subst x.
  destruct (not_due (datetime_now env (world s)) feed) eqn:Hdue.
  { rewrite monitor_skipped by done. by exists false, false. }
  destruct (feed_get env (Feed.link feed)
              (request_headers (format_datetime env) feed) (world s))
    as [d w] eqn:Hget.
  rewrite (monitor_fetched _ _ _ _ _ Hdue Hget), after_fetch_run.
  rewrite !calls_run, result_run.
  set (feed0 := if recovers d feed then _ else feed).
  set (s1 := if recovers d feed then mkState _ _ _ else _). clearbody s1.
  assert (Hr : recovers d feed = true ->
               0 < Feed.error_count feed
               \/ is_Some (Feed.next_check_time feed)).
  { unfold recovers. intros [_ H]%andb_true_iff.
    apply orb_true_iff in H as [H|H]; [left; by apply Z.ltb_lt|right].
    by apply bool_decide_eq_true in H. }
  assert (Hlen : forall t : list (event Post),
    length (saves (EvFeedGet (Feed.link feed)
                     (request_headers (format_datetime env) feed)
                   :: (if recovers d feed then [EvSave feed0] else [])
                   ++ t))
    = ((if recovers d feed then 1 else 0) + length (saves t))%nat)
    by (intros t; by destruct (recovers d feed)).
  destruct (Z.eqb_spec (Fetched.status d) 304) as [H304|H304].
  { exists (recovers d feed), false. rewrite calls_run, Hlen.
    split; [done|]. split; [done|]. by intros _ [=]. }
  destruct (Fetched.rss_d d) as [[|entry entries]|] eqn:Hrss.
  - destruct (on_empty_run env d feed0 s1) as (t & s' & -> & Hsv & _).
    exists (recovers d feed), false. rewrite calls_run, Hlen, Hsv.
    split; [done|]. split; [done|]. by intros _ [=].
  - destruct (diff (get_hash env) (entry :: entries)
                   (default [] (Feed.entry_hashes feed0)))
      as [[|h hs] ue] eqn:Hdiff.
    + rewrite (on_entries_not_updated _ _ _ _ _ _ Hdiff).
      exists (recovers d feed), false. rewrite calls_run, Hlen.
      split; [done|]. split; [done|]. by intros _ [=].
    + destruct (on_entries_updated env d _ feed0 s1 _ _ Hdiff)
        as (t & feed2 & s2 & -> & Hsv & _); [done|].
      exists (recovers d feed), true. rewrite calls_run, result_run, Hlen.
      split; [|split; [done|]].
      * unfold saves in *. obs_simpl. rewrite omap_app, Hsv.
        fold (saves (calls (gather (map (__notify_all env feed2) ue) s2))).
        by rewrite fanout_saves.
      * intros _ _.
        destruct (result (gather (map (__notify_all env feed2) ue) s2))
          as [l|e]; [by left|right; eauto].
  - assert (Hrec : recovers d feed = false).
    { unfold recovers. apply Z.eqb_neq in H304. by rewrite Hrss, H304. }
    subst feed0. rewrite Hrec in *.
    destruct (Z.le_gt_cases 100 (Feed.error_count feed)) as [Hec|Hec].
    + rewrite on_error_deactivates by done. rewrite calls_run.
      destruct (deactivate_calls env feed s1) as (rest & -> & Hsv & _).
      exists false, false. rewrite Hlen. simpl. rewrite Hsv.
      split; [done|]. split; by intros [=].
    + rewrite on_error_backs_off by lia. rewrite calls_run.
      exists false, true. rewrite Hlen. split; [|split; by intros [=]].
      unfold saves. rewrite omap_app. rewrite length_app.
      simpl. by destruct (_ =? 0).
Qed.

(** C4, amended (writes of a poll).  A poll writes the feed record at
    most twice: at most once to clear a prior error state and at most
    once more; so at most once when the feed had no error state, and at
    most once whenever the poll returns anything but [UPDATED].  It
    returns one outcome unless a delivery raised an error that line 212
    does not catch. *)
Theorem at_most_two_writes feed s :
  let x := __monitor env feed s in
  (length (saves (calls x)) <= 2)%nat
  /\ (Feed.error_count feed <= 0 -> Feed.next_check_time feed = None ->
      (length (saves (calls x)) <= 1)%nat)
  /\ (forall o, result x = Ok o -> o <> UPDATED ->
      (length (saves (calls x)) <= 1)%nat)
  /\ (uncaught (calls x) = [] -> exists o, result x = Ok o).
Proof.
  intros x. destruct (monitor_writes feed s) as (r & u & Hlen & Hr & Hu).
  fold x in Hlen, Hu. rewrite Hlen.
  split; [destruct r, u; simpl; lia|].
  split; [|split].
  - intros Hec Hnct. destruct r; [|destruct u; simpl; lia].
    destruct (Hr eq_refl) as [?|[t Ht]]; [lia|].
    by rewrite Hnct in Ht.
  - intros o Ho Hne. destruct r, u; simpl; try lia.
    destruct (Hu eq_refl eq_refl) as [H|[e H]]; rewrite H in Ho; by inversion Ho.
  - apply propagates_returns, monitor_propagates.
Qed.

(** C1 (deactivation threshold).  When the fetch of a feed whose
    [error_count] has reached 100 fails, the feed is deactivated and not
    backed off (nothing is written, the count is not raised), every
    active subscription is sent exactly one deactivation notice, no
    notice is sent and nothing follows the deactivation when there is
    no active subscription, and the poll returns [FAILED] (unless a
    delivery raises an error that line 212 does not catch). *)
Theorem deactivation_at_threshold feed s d w subs w' :
  not_due (datetime_now env (world s)) feed = false ->
  feed_get env (Feed.link feed)
           (request_headers (format_datetime env) feed) (world s) = (d, w) ->
  Fetched.rss_d d = None ->
  Fetched.status d <> 304 ->
  100 <= Feed.error_count feed ->
  Sub_filter env feed w = (subs, w') ->
  let x := __monitor env feed s in
  exists rest,
    calls x
    = [EvFeedGet (Feed.link feed)
                 (request_headers (format_datetime env) feed);
       EvLog ERROR (MsgDeactivated (Feed.link feed));
       EvSubFilter feed true;
       EvDeactivateFeed feed] ++ rest
    /\ deactivations (calls x) = [feed]
    /\ saves (calls x) = []
    /\ sends (calls x)
       = map (fun sub =>
                (Sub.user_id sub, inl (deactivation_notice env feed sub)))
             subs
    /\ (subs = [] -> rest = [])
    /\ (uncaught (calls x) = [] -> result x = Ok FAILED).
Proof.
  intros Hdue Hget Hrss H304 Hec Hsubs x. subst x.
  rewrite (monitor_fetched _ _ _ _ _ Hdue Hget), after_fetch_run.
  assert (Hrec : recovers d feed = false).
  { unfold recovers. rewrite Hrss. apply Z.eqb_neq in H304.
    by rewrite H304. }
  rewrite Hrec. apply Z.eqb_neq in H304. rewrite H304, Hrss.
  rewrite on_error_deactivates by done.
  rewrite !calls_run, result_run.
  set (s1 := mkState w (bucket s) (logs s)).
  pose proof (deactivate_propagates env feed s1) as Hp.
  destruct (deactivate_calls env feed s1)
    as (rest & Hcalls & Hsv & Hde & _ & Hsd & Hnil).
  simpl in Hsd, Hnil. rewrite Hsubs in Hsd, Hnil. simpl in Hsd, Hnil.
  unfold propagates in Hp. rewrite Hcalls in *.
  exists rest. split; [done|].
  unfold deactivations, saves, sends, uncaught in *.
  obs_simpl. rewrite Hde, Hsv, Hsd. do 4 (split; [done|]).
  revert Hp. obs_simpl. intros Hp Hu.
  destruct (result (__deactivate_feed_and_notify_all env feed s1));
    [done|by rewrite Hu in Hp].
Qed.

(** Below the threshold a failed fetch is backed off and nothing is
    deactivated: the failure that takes the count from 99 to 100 writes
    the record with [error_count = 100]; the deactivation comes with the
    next failure. *)
Lemma failure_below_threshold feed s d w :
  not_due (datetime_now env (world s)) feed = false ->
  feed_get env (Feed.link feed)
           (request_headers (format_datetime env) feed) (world s) = (d, w) ->
  Fetched.rss_d d = None ->
  Fetched.status d <> 304 ->
  Feed.error_count feed < 100 ->
  let x := __monitor env feed s in
  deactivations (calls x) = []
  /\ saves (calls x)
     = [delay_next_check (datetime_now env (world s))
          (default_interval env w)
          (Feed.set_error_count (Feed.error_count feed + 1) feed)]
  /\ result x = Ok FAILED.
Proof.
  intros Hdue Hget Hrss H304 Hec x. subst x.
  rewrite (monitor_fetched _ _ _ _ _ Hdue Hget), after_fetch_run.
  assert (Hrec : recovers d feed = false).
  { unfold recovers. rewrite Hrss. apply Z.eqb_neq in H304.
    by rewrite H304. }
  rewrite Hrec. apply Z.eqb_neq in H304. rewrite H304, Hrss.
  rewrite on_error_backs_off by lia.
  rewrite !calls_run, result_run.
  unfold deactivations, saves. simpl.
  by destruct (_ =? 0).
Qed.

(** C5 (fanout without subscribers): what the code does.  With no
    active subscription, [__notify_all] signals the hook and then goes
    on all the same: it builds the post and renders it, and only then
    ends, having delivered nothing. *)
Theorem notify_all_without_subscribers feed entry s w :
  Sub_filter env feed (world s) = ([], w) ->
  let post :=
    get_post_from_entry env entry (Feed.title feed) (Feed.link feed) in
  __notify_all env feed entry s
  = ([EvSubFilter feed false; EvUpdateInterval feed;
      EvGenerateMessage post],
     Ok tt,
     mkState (generate_message env post (update_interval env feed w))
             (bucket s) (logs s)).
Proof. intros H post. by rewrite (notify_all_run _ _ _ _ _ _ H). Qed.

(** With active subscriptions, one post is rendered and delivered to
    the recipient of each. *)
Lemma notify_all_with_subscribers feed entry s :
  let post :=
    get_post_from_entry env entry (Feed.title feed) (Feed.link feed) in
  let x := __notify_all env feed entry s in
  renders (calls x) = [post]
  /\ sends (calls x)
     = map (fun sub => (Sub.user_id sub, inr post))
           (fst (Sub_filter env feed (world s))).
Proof.
  intros post x. subst x.
  destruct (notify_all_calls env feed entry s)
    as (rest & -> & _ & _ & Hr & Hs).
  split; [exact Hr|exact Hs].
Qed.

(** C3, amended (errors that nothing catches).  A delivery error other
    than the three of line 212 is caught nowhere.  A poll returns an
    outcome exactly when no delivery in it raised such an error, and
    otherwise raises the first of them; so does the gathering of the
    polls of a cycle; and then [run_monitor_task] ends with the
    gathering, raising that error: no tally is made or logged. *)
Theorem unclassified_failure_escapes s id ids w feeds w' :
  get_tasks env (world s) = (id :: ids, w) ->
  Feed_filter env (id :: ids) w = (feeds, w') ->
  let x := gather (map (__monitor env) feeds)
                  (mkState w' (bucket s) (logs s)) in
  (forall feed s', propagates (__monitor env feed s'))
  /\ propagates x
  /\ (forall e, result x = Raise e ->
      run_monitor_task env s
      = (EvGetTasks :: EvFeedFilter (id :: ids) :: EvLog DEBUG MsgStarted
           :: calls x,
         Raise e, final x)).
Proof.
  intros Ht Hf x. split; [apply monitor_propagates|]. split.
  - apply propagates_gather. intros t Hin s'.
    apply list_elem_of_fmap in Hin as (feed & -> & _).
    apply monitor_propagates.
  - intros e He.
    destruct (run_monitor_task_run env s id ids w feeds w' Ht Hf)
      as (y & -> & Hy).
    fold x in Hy. rewrite He in Hy. subst y.
    by rewrite calls_run, result_run, final_run, app_nil_r.
Qed.

End Claims.

(** ** Interleaved failures of deliveries to one recipient *)

Section Interleavings.
Import Interleaving.

Implicit Types (c : conf) (u v : Z) (b : gmap Z bool).

Lemma filter_length_insert {A} (P : A -> Prop) {HP : forall x, Decision (P x)}
    (l : list A) (i : nat) (x y : A) :
  l !! i = Some x ->
  (length (filter P (<[i := y]> l)) + (if decide (P x) then 1 else 0)
   = length (filter P l) + (if decide (P y) then 1 else 0))%nat.
Proof.
  revert i. induction l as [|z l IH]; intros [|i] Hi; try done.
  - simpl in Hi. injection Hi as ->. simpl. rewrite !filter_cons.
    destruct (decide (P x)), (decide (P y)); simpl; lia.
  - simpl in Hi. simpl. rewrite !filter_cons. specialize (IH i Hi).
    destruct (decide (P z)); simpl; lia.
Qed.

Lemma fst_insert_phase (l : list (Z * phase)) i u p p' :
  l !! i = Some (u, p) -> map fst (<[i := (u, p')]> l) = map fst l.
Proof.
  revert i. induction l as [|z l IH]; intros [|i] Hi; try done.
  - simpl in Hi. by injection Hi as ->.
  - simpl in *. by rewrite (IH i Hi).
Qed.

(** Reading the bucket creates a free lock where there was none, and
    changes no lock that is there. *)
Lemma bucket_get_locked u b :
  fst (bucket_get u b) = bool_decide (b !! u = Some true).
Proof.
  unfold bucket_get. destruct (b !! u) as [[|]|]; done.
Qed.

Lemma bucket_get_held u v b :
  snd (bucket_get u b) !! v = Some true <-> b !! v = Some true.
Proof.
  unfold bucket_get. destruct (b !! u) as [l|] eqn:Hu; [done|]. simpl.
  destruct (decide (u = v)) as [->|Hne].
  - rewrite lookup_insert_eq, Hu. split; intros [=].
  - by rewrite lookup_insert_ne.
Qed.

Lemma running_insert c i w p p' u b e :
  tasks c !! i = Some (w, p) ->
  (running u (mkConf (<[i := (w, p')]> (tasks c)) b e)
   + (if decide ((w, p) = (u, Unsubscribing)) then 1 else 0)
   = running u c
     + (if decide ((w, p') = (u, Unsubscribing)) then 1 else 0))%nat.
Proof.
  intros Hi. unfold running. simpl.
  exact (filter_length_insert (fun t => t = (u, Unsubscribing))
           (HP := fun t => decide (t = (u, Unsubscribing)))
           (tasks c) i (w, p) (w, p') Hi).
Qed.

Lemma executions_snoc u w l b t :
  executions u (mkConf t b (l ++ [w]))
  = (executions u (mkConf t b l) + (if decide (w = u) then 1 else 0))%nat.
Proof.
  unfold executions. simpl. rewrite filter_app, length_app, filter_cons.
  by destruct (decide (w = u)).
Qed.

Lemma held_acquire u w b t e :
  held u (mkConf t (acquire w b) e)
  = if decide (w = u) then true else bool_decide (b !! u = Some true).
Proof.
  unfold held, acquire. simpl. destruct (decide (w = u)) as [->|Hne].
  - by rewrite lookup_insert_eq.
  - by rewrite lookup_insert_ne.
Qed.

Lemma held_release u w b t e :
  held u (mkConf t (release w b) e)
  = if decide (w = u) then false else bool_decide (b !! u = Some true).
Proof.
  unfold held, release. simpl. destruct (decide (w = u)) as [->|Hne].
  - by rewrite lookup_insert_eq.
  - by rewrite lookup_insert_ne.
Qed.

Lemma lookup_recipient recipients c i u p :
  consistent recipients c -> tasks c !! i = Some (u, p) ->
  recipients !! i = Some u.
Proof.
  intros [<- _] H. by rewrite list_lookup_fmap, H.
Qed.

(** One tick keeps the configuration consistent and accounts for the
    executions: one more when a failure finds the lock free, none
    otherwise; an execution in progress ends with its return. *)
Lemma step_consistent recipients c t c' :
  consistent recipients c -> step c t = Some c' ->
  consistent recipients c'
  /\ (forall u,
       (executions u c' + running u c
        = executions u c + running u c'
          + (if is_return recipients u t then 1 else 0))%nat)
  /\ (forall u, is_failure recipients u t = true ->
                (1 <= executions u c')%nat).
Proof.
  intros Hc Hstep. pose proof Hc as (Hfst & Hrun & Hex).
  destruct t as [i|i|i]; simpl in Hstep;
    destruct (tasks c !! i) as [[w [| |]]|] eqn:Hi; try done.
  - (* the delivery comes back *)
    injection Hstep as <-.
    pose proof (fun u => running_insert c i w Sending Finished u
                           (locks c) (executed c) Hi) as Hr.
    assert (Hr' : forall u,
      running u (mkConf (<[i := (w, Finished)]> (tasks c))
                        (locks c) (executed c)) = running u c).
    { intros u. specialize (Hr u). repeat case_decide; simplify_eq; lia. }
    split; [split; [|split]|split].
    + simpl. by rewrite (fst_insert_phase _ _ _ _ _ Hi).
    + intros u. rewrite Hr'. apply Hrun.
    + intros u. rewrite Hr'. apply Hex.
    + intros u. rewrite Hr'. unfold executions. simpl. lia.
    + done.
  - (* the delivery fails *)
    pose proof (lookup_recipient _ _ _ _ _ Hc Hi) as Hri.
    pose proof (bucket_get_locked w (locks c)) as Hl.
    pose proof (fun v => bucket_get_held w v (locks c)) as Hh.
    destruct (bucket_get w (locks c)) as [[|] b]; simpl in Hl, Hh;
      injection Hstep as <-; symmetry in Hl.
    + (* the lock is held: line 215 *)
      apply bool_decide_eq_true in Hl.
      pose proof (fun u => running_insert c i w Sending Finished u
                             b (executed c) Hi) as Hr.
      assert (Hr' : forall u,
        running u (mkConf (<[i := (w, Finished)]> (tasks c))
                          b (executed c)) = running u c).
      { intros u. specialize (Hr u). repeat case_decide; simplify_eq; lia. }
      split; [split; [|split]|split].
      * simpl. by rewrite (fst_insert_phase _ _ _ _ _ Hi).
      * intros u. rewrite Hr', Hrun. unfold held. simpl.
        by rewrite (bool_decide_ext _ _ (Hh u)).
      * intros u. rewrite Hr'. apply Hex.
      * intros u. rewrite Hr'. unfold executions. simpl. lia.
      * intros u Hu. simpl in Hu. apply bool_decide_eq_true in Hu.
        rewrite Hri in Hu. injection Hu as <-.
        pose proof (Hrun w) as Hw. unfold held in Hw.
        rewrite bool_decide_eq_true_2 in Hw by done.
        pose proof (Hex w). unfold executions in *. simpl. lia.
    + (* the lock is free: lines 216-219 *)
      apply bool_decide_eq_false in Hl.
      pose proof (fun u => running_insert c i w Sending Unsubscribing u
                             (acquire w b) (executed c ++ [w]) Hi) as Hr.
      assert (Hr' : forall u,
        running u (mkConf (<[i := (w, Unsubscribing)]> (tasks c))
                          (acquire w b) (executed c ++ [w]))
        = (running u c + (if decide (w = u) then 1 else 0))%nat).
      { intros u. specialize (Hr u).
        repeat case_decide; simplify_eq; lia. }
      assert (Hw : running w c = 0%nat).
      { rewrite Hrun. unfold held. by rewrite bool_decide_eq_false_2. }
      split; [split; [|split]|split].
      * simpl. by rewrite (fst_insert_phase _ _ _ _ _ Hi).
      * intros u. rewrite Hr', held_acquire.
        destruct (decide (w = u)) as [<-|Hne]; [lia|].
        rewrite Hrun. unfold held.
        rewrite (bool_decide_ext _ _ (Hh u)). lia.
      * intros u. rewrite Hr', executions_snoc.
        pose proof (Hex u). unfold executions in *. simpl in *.
        destruct (decide (w = u)); lia.
      * intros u. rewrite Hr', executions_snoc.
        unfold executions. simpl. lia.
      * intros u Hu. simpl in Hu. apply bool_decide_eq_true in Hu.
        rewrite Hri in Hu. injection Hu as <-.
        rewrite executions_snoc. rewrite decide_True by done. lia.
  - (* [unsub_all] comes back *)
    injection Hstep as <-.
    pose proof (lookup_recipient _ _ _ _ _ Hc Hi) as Hri.
    pose proof (fun u => running_insert c i w Unsubscribing Finished u
                           (release w (locks c)) (executed c) Hi) as Hr.
    assert (Hr' : forall u,
      (running u (mkConf (<[i := (w, Finished)]> (tasks c))
                         (release w (locks c)) (executed c))
       + (if decide (w = u) then 1 else 0))%nat
      = running u c).
    { intros u. specialize (Hr u). repeat case_decide; simplify_eq; lia. }
    assert (Hw : running w c = 1%nat).
    { pose proof (Hrun w) as H1. pose proof (Hr' w) as H2.
      rewrite decide_True in H2 by done. destruct (held w c); lia. }
    assert (Hrw :
      running w (mkConf (<[i := (w, Finished)]> (tasks c))
                        (release w (locks c)) (executed c)) = 0%nat).
    { pose proof (Hr' w) as H2. rewrite decide_True in H2 by done. lia. }
    assert (Hro : forall u, w <> u ->
      running u (mkConf (<[i := (w, Finished)]> (tasks c))
                        (release w (locks c)) (executed c)) = running u c).
    { intros u Hne. pose proof (Hr' u) as H2.
      rewrite decide_False in H2 by done. lia. }
    split; [split; [|split]|split].
    + simpl. by rewrite (fst_insert_phase _ _ _ _ _ Hi).
    + intros u. rewrite held_release.
      destruct (decide (w = u)) as [<-|Hne]; [done|].
      rewrite Hro by done. apply Hrun.
    + intros u. destruct (decide (w = u)) as [<-|Hne].
      * rewrite Hrw. lia.
      * rewrite Hro by done. apply Hex.
    + intros u. simpl. rewrite Hri.
      change (executions u (mkConf (<[i := (w, Finished)]> (tasks c))
                                   (release w (locks c)) (executed c)))
        with (executions u c).
      destruct (decide (w = u)) as [<-|Hne].
      * rewrite bool_decide_eq_true_2 by done. lia.
      * rewrite bool_decide_eq_false_2 by congruence.
        rewrite Hro by done. lia.
    + done.
Qed.

Lemma step_executed c t c' :
  step c t = Some c' -> exists l, executed c' = executed c ++ l.
Proof.
  intros Hstep. destruct t as [i|i|i]; simpl in Hstep;
    destruct (tasks c !! i) as [[w [| |]]|]; try done.
  - injection Hstep as <-. exists []. by rewrite app_nil_r.
  - destruct (bucket_get w (locks c)) as [[|] b]; injection Hstep as <-.
    + exists []. by rewrite app_nil_r.
    + by exists [w].
  - injection Hstep as <-. exists []. by rewrite app_nil_r.
Qed.

Lemma step_executions_mono c t c' u :
  step c t = Some c' -> (executions u c <= executions u c')%nat.
Proof.
  intros [l Hl]%step_executed. unfold executions.
  rewrite Hl, filter_app, length_app. lia.
Qed.

Lemma run_executions_mono sched c c' u :
  run c sched = Some c' -> (executions u c <= executions u c')%nat.
Proof.
  revert c. induction sched as [|t sched IH]; intros c Hrun; simpl in Hrun.
  - by injection Hrun as <-.
  - destruct (step c t) as [c1|] eqn:Hstep; [|done].
    pose proof (step_executions_mono _ _ _ u Hstep).
    pose proof (IH _ Hrun). lia.
Qed.

(** The same over a schedule. *)
Lemma run_consistent recipients sched c c' :
  consistent recipients c -> run c sched = Some c' ->
  consistent recipients c'
  /\ (forall u,
       (executions u c' + running u c
        = executions u c + running u c' + returns recipients u sched)%nat)
  /\ (forall u, (1 <= failures recipients u sched)%nat ->
                (1 <= executions u c')%nat).
Proof.
  revert c. induction sched as [|t sched IH]; intros c Hc Hrun;
    simpl in Hrun.
  - injection Hrun as <-. split; [done|]. split.
    + intros u. unfold returns. simpl. lia.
    + intros u. unfold failures. simpl. lia.
  - destruct (step c t) as [c1|] eqn:Hstep; [|done].
    destruct (step_consistent _ _ _ _ Hc Hstep) as (Hc1 & Hacc & Hfail).
    destruct (IH _ Hc1 Hrun) as (Hc' & Hacc' & Hfail').
    split; [done|]. split.
    + intros u. specialize (Hacc u). specialize (Hacc' u).
      unfold returns in *. rewrite filter_cons.
      destruct (decide (is_return recipients u t = true)) as [Hd|Hd].
      * rewrite Hd in Hacc. simpl. lia.
      * apply not_true_is_false in Hd. rewrite Hd in Hacc. lia.
    + intros u. unfold failures. rewrite filter_cons.
      destruct (decide (is_failure recipients u t = true)) as [Hd|Hd].
      * intros _. pose proof (Hfail u Hd).
        pose proof (run_executions_mono _ _ _ u Hrun). lia.
      * apply Hfail'.
Qed.

Lemma start_consistent b recipients :
  free b -> consistent recipients (start b recipients).
Proof.
  intros Hb. unfold consistent, start. simpl.
  assert (Hrun : forall u,
    running u (mkConf (map (fun user_id => (user_id, Sending)) recipients)
                      b []) = 0%nat).
  { intros u. unfold running. simpl.
    induction recipients as [|v l IH]; [done|]. simpl.
    rewrite filter_cons. by rewrite decide_False. }
  split; [|split].
  - rewrite map_map. simpl. apply map_id.
  - intros u. rewrite Hrun. unfold held. simpl.
    by rewrite bool_decide_eq_false_2.
  - intros u. rewrite Hrun. lia.
Qed.

(** C6, amended (one unsubscription while the lock is held).  For every
    recipient and every interleaving of the sends in flight: the calls
    of [unsub_all] for the recipient are those that came back plus one
    exactly when the lock is held, so they never overlap; failures that
    all arrive before an [unsub_all] for the recipient has come back
    make exactly one call; and a failure that arrives while the lock is
    held ends its send at once without a call. *)
Theorem single_unsubscribe_while_held b recipients sched c u :
  free b ->
  run (start b recipients) sched = Some c ->
  executions u c
  = (returns recipients u sched + (if held u c then 1 else 0))%nat
  /\ (returns recipients u sched = 0%nat ->
      (1 <= failures recipients u sched)%nat ->
      executions u c = 1%nat)
  /\ (forall i c',
        held u c = true -> recipients !! i = Some u ->
        step c (Fails i) = Some c' ->
        executed c' = executed c /\ tasks c' !! i = Some (u, Finished)).
Proof.
  intros Hb Hrun.
  destruct (run_consistent _ _ _ _ (start_consistent b recipients Hb) Hrun)
    as (Hc & Hacc & Hfail).
  destruct Hc as (Hfst & Hheld & Hex).
  assert (Heq : executions u c
                = (returns recipients u sched
                   + (if held u c then 1 else 0))%nat).
  { specialize (Hacc u). rewrite <- Hheld.
    destruct (start_consistent b recipients Hb) as (_ & H0 & _).
    specialize (H0 u). unfold held in H0. simpl in H0.
    rewrite bool_decide_eq_false_2 in H0 by apply Hb.
    change (executions u (start b recipients)) with 0%nat in Hacc. lia. }
  split; [done|]. split.
  - intros Hret Hf. specialize (Hfail u Hf). rewrite Heq, Hret in *.
    destruct (held u c); simpl in *; lia.
  - intros i c' Hh Hi Hstep. simpl in Hstep.
    destruct (tasks c !! i) as [[w [| |]]|] eqn:Hti; try done.
    assert (w = u) as ->.
    { rewrite <- Hfst, list_lookup_fmap, Hti in Hi. by injection Hi. }
    pose proof (bucket_get_locked u (locks c)) as Hl.
    unfold held in Hh. rewrite Hh in Hl.
    destruct (bucket_get u (locks c)) as [l b']. simpl in Hl. subst l.
    injection Hstep as <-. simpl. split; [done|].
    apply list_lookup_insert_eq. by apply lookup_lt_Some in Hti.
Qed.

(** The run of [__send] in the sequential model is an interleaving: the
    send that fails runs to its end with nothing in between.  The
    bucket it leaves and its calls of [unsub_all] are those of the
    schedule. *)
Lemma send_agrees_with_interleaving {Post W} (env : Env Post W)
    (sub : Sub.t) (post : Content Post) (s : State W) e w :
  send_message env (Sub.user_id sub) post (world s) = (Some e, w) ->
  caught_by_send e = true ->
  exists sched c,
    (sched = [Fails 0; Returns 0] \/ sched = [Fails 0])
    /\ run (mkConf [(Sub.user_id sub, Sending)] (bucket s) []) sched
       = Some c
    /\ all_finished c = true
    /\ bucket (final (__send env sub post s)) = locks c
    /\ unsubs (calls (__send env sub post s)) = executed c.
Proof.
  intros Hsend He.
  destruct (bucket_get (Sub.user_id sub) (bucket s)) as [[|] b] eqn:Hb.
  - exists [Fails 0], (mkConf [(Sub.user_id sub, Finished)] b []).
    split; [by right|]. simpl. rewrite Hb.
    rewrite (send_caught_locked env sub post s w e b Hsend He Hb).
    done.
  - exists [Fails 0; Returns 0],
      (mkConf [(Sub.user_id sub, Finished)]
              (release (Sub.user_id sub) (acquire (Sub.user_id sub) b))
              [Sub.user_id sub]).
    split; [by left|]. simpl. rewrite Hb. simpl.
    rewrite (send_caught_free env sub post s w e b Hsend He Hb).
    done.
Qed.

End Interleavings.

(** ** The claims on the sample world *)

(** C1 at a feed with [error_count = 100] and two subscribers. *)
Lemma deactivation_at_threshold_witness :
  deactivations
    (calls (__monitor Sample.deactivation_env Sample.deactivation_feed
                      Sample.s0))
  = [Sample.deactivation_feed]
  /\ saves
       (calls (__monitor Sample.deactivation_env Sample.deactivation_feed
                         Sample.s0))
     = []
  /\ sends
       (calls (__monitor Sample.deactivation_env Sample.deactivation_feed
                         Sample.s0))
     = map (fun sub =>
              (Sub.user_id sub,
               inl (deactivation_notice Sample.deactivation_env
                      Sample.deactivation_feed sub)))
           [Sample.sub 7; Sample.sub 8]
  /\ result (__monitor Sample.deactivation_env Sample.deactivation_feed
                       Sample.s0)
     = Ok FAILED.
Proof.
  destruct (deactivation_at_threshold Sample.deactivation_env
              Sample.deactivation_feed Sample.s0 Sample.broken tt
              [Sample.sub 7; Sample.sub 8] tt)
    as (rest & _ & Hde & Hsv & Hsd & _ & Hres).
  - reflexivity.
  - reflexivity.
  - reflexivity.
  - vm_compute. discriminate.
  - vm_compute. discriminate.
  - reflexivity.
  - split; [exact Hde|]. split; [exact Hsv|]. split; [exact Hsd|].
    apply Hres. vm_compute. reflexivity.
Defined.

(** C2 as the specification states it fails: at the tenth failure of a
    feed polled every five minutes the delay is 10 minutes, not 5, and
    the record is written with a next check ten minutes ahead. *)
Lemma backoff_boundary_counterexample :
  next_check_interval 5 10 = 10
  /\ next_check_interval 5 10 <> 5
  /\ Feed.next_check_time
       <$> saves (calls (__monitor Sample.backoff_env Sample.backoff_feed
                                   Sample.s0))
     = [Some (1000 + Py.timedelta_minutes 10)]
  /\ Feed.next_check_time
       <$> saves (calls (__monitor Sample.backoff_env Sample.backoff_feed
                                   Sample.s0))
     <> [None]
  /\ result (__monitor Sample.backoff_env Sample.backoff_feed Sample.s0)
     = Ok FAILED.
Proof.
  split; [reflexivity|]. split; [vm_compute; discriminate|].
  split; [vm_compute; reflexivity|]. split; [vm_compute; discriminate|].
  vm_compute. reflexivity.
Defined.

Lemma backoff_tenth_failure_witness :
  next_check_interval 5 10 = 10
  /\ __monitor Sample.backoff_env Sample.backoff_feed Sample.s0
     = ([EvFeedGet (Feed.link Sample.backoff_feed)
                   (request_headers (format_datetime Sample.backoff_env)
                                    Sample.backoff_feed);
         EvLog WARNING
               (MsgFetchFailed 10 (Fetched.msg Sample.broken)
                               (Feed.link Sample.backoff_feed));
         EvSave
           (Feed.set_next_check_time
              (Some (datetime_now Sample.backoff_env (world Sample.s0)
                     + Py.timedelta_minutes 10))
              (Feed.set_error_count 10 Sample.backoff_feed))],
        Ok FAILED,
        mkState
          (Feed_save Sample.backoff_env
             (Feed.set_next_check_time
                (Some (datetime_now Sample.backoff_env (world Sample.s0)
                       + Py.timedelta_minutes 10))
                (Feed.set_error_count 10 Sample.backoff_feed))
             tt)
          (bucket Sample.s0) (logs Sample.s0)).
Proof.
  apply (backoff_tenth_failure Sample.backoff_env Sample.backoff_feed
           Sample.s0 Sample.broken tt).
  - reflexivity.
  - reflexivity.
  - reflexivity.
  - vm_compute. discriminate.
  - reflexivity.
  - reflexivity.
Defined.

(** C3 as the specification states it fails: a delivery refused with an
    error that line 212 does not name ends the poll with that error, not
    with an outcome, and the cycle with it, although the sibling feed
    had nothing new; nothing is tallied. *)
Lemma unclassified_failure_counterexample :
  result (__monitor Sample.flood_env Sample.flood_feed Sample.s0)
  = Raise (OtherError "FloodWaitError")
  /\ (forall o,
        result (__monitor Sample.flood_env Sample.flood_feed Sample.s0)
        <> Ok o)
  /\ result (__monitor Sample.flood_env Sample.sibling_feed Sample.s0)
     = Ok NOT_UPDATED
  /\ result (run_monitor_task Sample.flood_env Sample.s0)
     = Raise (OtherError "FloodWaitError")
  /\ logs (final (run_monitor_task Sample.flood_env Sample.s0))
     = logs Sample.s0
  /\ logged (calls (run_monitor_task Sample.flood_env Sample.s0))
     = [(DEBUG, MsgStarted);
        (DEBUG, MsgUpdated "http://example.org/feed");
        (DEBUG, MsgNotUpdated "http://example.org/other")].
Proof.
  split; [vm_compute; reflexivity|].
  split; [intros o; vm_compute; discriminate|].
  split; [vm_compute; reflexivity|].
  split; [vm_compute; reflexivity|].
  split; vm_compute; reflexivity.
Defined.

Lemma unclassified_failure_escapes_witness :
  (forall feed s', propagates (__monitor Sample.flood_env feed s'))
  /\ propagates
       (gather (map (__monitor Sample.flood_env)
                    [Sample.flood_feed; Sample.sibling_feed])
               (mkState tt (bucket Sample.s0) (logs Sample.s0)))
  /\ (forall e,
        result
          (gather (map (__monitor Sample.flood_env)
                       [Sample.flood_feed; Sample.sibling_feed])
                  (mkState tt (bucket Sample.s0) (logs Sample.s0)))
        = Raise e ->
        run_monitor_task Sample.flood_env Sample.s0
        = (EvGetTasks :: EvFeedFilter [1; 2] :: EvLog DEBUG MsgStarted
             :: calls
                  (gather (map (__monitor Sample.flood_env)
                               [Sample.flood_feed; Sample.sibling_feed])
                          (mkState tt (bucket Sample.s0) (logs Sample.s0))),
           Raise e,
           final
             (gather (map (__monitor Sample.flood_env)
                          [Sample.flood_feed; Sample.sibling_feed])
                     (mkState tt (bucket Sample.s0) (logs Sample.s0))))).
Proof.
  apply (unclassified_failure_escapes Sample.flood_env Sample.s0 1 [2] tt
           [Sample.flood_feed; Sample.sibling_feed] tt).
  - reflexivity.
  - reflexivity.
Defined.

(** C4 as the specification states it fails: a feed that had failed
    three times and now brings a new entry is written twice. *)
Lemma single_write_counterexample :
  saves (calls (__monitor Sample.recovering_env Sample.recovering_feed
                          Sample.s0))
  = [Feed.set_next_check_time None
       (Feed.set_error_count 0 Sample.recovering_feed);
     Feed.set_entry_hashes (Some ["a"])
       (Feed.set_next_check_time None
          (Feed.set_error_count 0 Sample.recovering_feed))]
  /\ ~ (length (saves (calls (__monitor Sample.recovering_env
                                        Sample.recovering_feed Sample.s0)))
        <= 1)%nat
  /\ result (__monitor Sample.recovering_env Sample.recovering_feed
                       Sample.s0)
     = Ok UPDATED.
Proof.
  split; [vm_compute; reflexivity|].
  split; [vm_compute; lia|].
  vm_compute. reflexivity.
Defined.

Lemma at_most_two_writes_witness :
  (length (saves (calls (__monitor Sample.cached_env Sample.long_feed
                                   Sample.s0))) <= 2)%nat
  /\ (length (saves (calls (__monitor Sample.cached_env Sample.long_feed
                                      Sample.s0))) <= 1)%nat
  /\ (length (saves (calls (__monitor Sample.recovering_env
                                      Sample.recovering_feed Sample.s0)))
      <= 2)%nat
  /\ exists o,
      result (__monitor Sample.cached_env Sample.long_feed Sample.s0) = Ok o.
Proof.
  destruct (at_most_two_writes Sample.cached_env Sample.long_feed Sample.s0)
    as (H2 & H1 & _ & Hret).
  destruct (at_most_two_writes Sample.recovering_env Sample.recovering_feed
              Sample.s0) as (H2' & _).
  split; [exact H2|]. split; [|split; [exact H2'|]].
  - apply H1; [vm_compute; discriminate|reflexivity].
  - apply Hret. vm_compute. reflexivity.
Defined.

(** C5 at a feed nobody subscribes to: the post is rendered all the
    same. *)
Lemma notify_all_without_subscribers_witness :
  __notify_all Sample.lonely_env Sample.recovering_feed (Sample.entry "a")
               Sample.s0
  = ([EvSubFilter Sample.recovering_feed false;
      EvUpdateInterval Sample.recovering_feed;
      EvGenerateMessage
        (get_post_from_entry Sample.lonely_env (Sample.entry "a")
           (Feed.title Sample.recovering_feed)
           (Feed.link Sample.recovering_feed))],
     Ok tt,
     mkState
       (generate_message Sample.lonely_env
          (get_post_from_entry Sample.lonely_env (Sample.entry "a")
             (Feed.title Sample.recovering_feed)
             (Feed.link Sample.recovering_feed))
          (update_interval Sample.lonely_env Sample.recovering_feed tt))
       (bucket Sample.s0) (logs Sample.s0)).
Proof.
  apply (notify_all_without_subscribers Sample.lonely_env
           Sample.recovering_feed (Sample.entry "a") Sample.s0 tt).
  reflexivity.
Defined.

(** C7 on the sample world. *)
Lemma dedup_scenario_witness :
  diff (get_hash Sample.dedup_env)
       [Sample.entry "h3"; Sample.entry "h1"; Sample.entry "h2"]
       ["h1"; "h2"]
  = (["h3"], [Sample.entry "h3"])
  /\ merge ["h3"] ["h1"; "h2"] 3 = ["h3"; "h1"; "h2"]
  /\ (exists feed',
        last (saves (calls (__monitor Sample.dedup_env Sample.dedup_feed
                                      Sample.s0)))
        = Some feed'
        /\ Feed.entry_hashes feed' = Some ["h3"; "h1"; "h2"])
  /\ (exists pre feed2 s2,
        calls (__monitor Sample.dedup_env Sample.dedup_feed Sample.s0)
        = pre ++ calls (gather [__notify_all Sample.dedup_env feed2
                                             (Sample.entry "h3")] s2)
        /\ renders pre = [] /\ sends pre = []
        /\ renders (calls (__monitor Sample.dedup_env Sample.dedup_feed
                                     Sample.s0))
           = [get_post_from_entry Sample.dedup_env (Sample.entry "h3")
                (Feed.title feed2) (Feed.link feed2)])
  /\ result (__monitor Sample.dedup_env Sample.dedup_feed Sample.s0)
     = Ok UPDATED.
Proof.
  destruct (dedup_scenario Sample.dedup_env Sample.dedup_feed Sample.s0
              (Sample.fetched 200
                 (Some [Sample.entry "h3"; Sample.entry "h1";
                        Sample.entry "h2"]))
              tt (Sample.entry "h1") (Sample.entry "h2") (Sample.entry "h3")
              "h1" "h2" "h3")
    as (Hdiff & Hmerge & Hsave & Hfan & Hres).
  - reflexivity.
  - reflexivity.
  - vm_compute. discriminate.
  - reflexivity.
  - vm_compute. reflexivity.
  - vm_compute. reflexivity.
  - vm_compute. reflexivity.
  - reflexivity.
  - vm_compute. discriminate.
  - vm_compute. discriminate.
  - split; [exact Hdiff|]. split; [exact Hmerge|]. split; [exact Hsave|].
    split; [exact Hfan|]. apply Hres. vm_compute. reflexivity.
Defined.

(** C8 at a feed with a history of 120 fingerprints and a fetch of three
    entries, two of them new: the two new ones and 98 old ones are
    kept. *)
Lemma bounded_history_witness :
  exists feed' new_hashes k,
    last (saves (calls (__monitor Sample.long_env Sample.long_feed
                                  Sample.s0)))
    = Some feed'
    /\ Feed.entry_hashes feed' = Some new_hashes
    /\ new_hashes
       = fst (diff (get_hash Sample.long_env)
                   [Sample.entry "a"; Sample.entry "old"; Sample.entry "b"]
                   (default [] (Feed.entry_hashes Sample.long_feed)))
         ++ take k (default [] (Feed.entry_hashes Sample.long_feed))
    /\ Py.len new_hashes
       <= Z.max (2 * Py.len [Sample.entry "a"; Sample.entry "old";
                             Sample.entry "b"]) 100.
Proof.
  apply (bounded_history Sample.long_env Sample.long_feed Sample.s0
           (Sample.fetched 200
              (Some [Sample.entry "a"; Sample.entry "old"; Sample.entry "b"]))
           tt [Sample.entry "a"; Sample.entry "old"; Sample.entry "b"]).
  - reflexivity.
  - reflexivity.
  - vm_compute. discriminate.
  - reflexivity.
  - vm_compute. discriminate.
Defined.

(** C9 at the scenario of the specification: a not-modified answer after
    three failures (and with a deferred check that is now due). *)
Lemma recovery_witness :
  calls (__monitor Sample.cached_env Sample.cached_feed Sample.s0)
  = [EvFeedGet (Feed.link Sample.cached_feed)
               (request_headers (format_datetime Sample.cached_env)
                                Sample.cached_feed);
     EvSave (Feed.set_next_check_time None
               (Feed.set_error_count 0 Sample.cached_feed));
     EvLog DEBUG (MsgCached (Feed.link Sample.cached_feed))]
  /\ Feed.error_count
       (Feed.set_next_check_time None
          (Feed.set_error_count 0 Sample.cached_feed)) = 0
  /\ Feed.next_check_time
       (Feed.set_next_check_time None
          (Feed.set_error_count 0 Sample.cached_feed)) = None
  /\ result (__monitor Sample.cached_env Sample.cached_feed Sample.s0)
     = Ok CACHED.
Proof.
  destruct (recovery Sample.cached_env Sample.cached_feed Sample.s0
              Sample.not_modified tt)
    as (Hec & Hnct & rest & Hcalls & _ & Hcached).
  - reflexivity.
  - reflexivity.
  - left. reflexivity.
  - left. vm_compute. reflexivity.
  - destruct (Hcached eq_refl) as [Hrest Hres].
    rewrite Hrest in Hcalls.
    split; [exact Hcalls|]. split; [exact Hec|]. split; [exact Hnct|].
    exact Hres.
Defined.

(** C10 on a batch in which [dup] comes twice. *)
Lemma duplicate_in_batch_witness :
  diff (get_hash Sample.twice_env)
       ([Sample.entry "x"] ++ Sample.entry "dup"
          :: [Sample.entry "old"] ++ Sample.entry "dup" :: [])
       (default [] (Feed.entry_hashes Sample.twice_feed))
  = (["x"; "dup"; "dup"],
     [Sample.entry "x"; Sample.entry "dup"; Sample.entry "dup"])
  /\ renders (calls (__monitor Sample.twice_env Sample.twice_feed Sample.s0))
     = [(Sample.entry "x", "Example", "http://example.org/feed");
        (Sample.entry "dup", "Example", "http://example.org/feed");
        (Sample.entry "dup", "Example", "http://example.org/feed")]
  /\ result (__monitor Sample.twice_env Sample.twice_feed Sample.s0)
     = Ok UPDATED.
Proof.
  destruct (duplicate_in_batch Sample.twice_env Sample.twice_feed Sample.s0
              (Sample.fetched 200
                 (Some [Sample.entry "x"; Sample.entry "dup";
                        Sample.entry "old"; Sample.entry "dup"]))
              tt [Sample.entry "x"] [Sample.entry "old"] []
              (Sample.entry "dup") (Sample.entry "dup") "dup" "dup" "dup")
    as (Hdiff & _ & _ & Hres).
  - reflexivity.
  - reflexivity.
  - vm_compute. discriminate.
  - reflexivity.
  - vm_compute. reflexivity.
  - vm_compute. reflexivity.
  - reflexivity.
  - reflexivity.
  - apply str_in_false. vm_compute. reflexivity.
  - split; [|split].
    + vm_compute. reflexivity.
    + vm_compute. reflexivity.
    + apply Hres. vm_compute. reflexivity.
Defined.

(** C6 as the specification states it fails: two deliveries to
    recipient 7 are in flight; the second fails after the [unsub_all] of
    the first has come back, and [unsub_all] is called again. *)
Lemma single_unsubscribe_counterexample :
  exists c,
    Interleaving.run (Interleaving.start ∅ [7; 7; 8])
                     Interleaving.one_after_the_other
    = Some c
    /\ Interleaving.all_finished c = true
    /\ Interleaving.failures [7; 7; 8] 7 Interleaving.one_after_the_other
       = 2%nat
    /\ Interleaving.executed c = [7; 7; 8]
    /\ Interleaving.executions 7 c = 2%nat
    /\ Interleaving.executions 7 c <> 1%nat.
Proof.
  eexists. split; [vm_compute; reflexivity|].
  split; [vm_compute; reflexivity|].
  split; [vm_compute; reflexivity|].
  split; [vm_compute; reflexivity|].
  split; [vm_compute; reflexivity|].
  vm_compute. discriminate.
Defined.

(** C6, amended, on the same sends when the first send to 7 and the send
    to 8 have failed and nothing has come back: [unsub_all] was called
    once for 7, and the second send to 7, failing now, ends without a
    call. *)
Lemma single_unsubscribe_while_held_witness :
  Interleaving.executions 7 Interleaving.after_two_failures = 1%nat
  /\ exists c',
      Interleaving.step Interleaving.after_two_failures
                        (Interleaving.Fails 1)
      = Some c'
      /\ Interleaving.executed c'
         = Interleaving.executed Interleaving.after_two_failures
      /\ Interleaving.tasks c' !! 1%nat = Some (7, Interleaving.Finished).
Proof.
  destruct (single_unsubscribe_while_held ∅ [7; 7; 8]
              Interleaving.two_failures Interleaving.after_two_failures 7)
    as (_ & Hone & Hheld).
  - intros user_id H. vm_compute in H. discriminate H.
  - vm_compute. reflexivity.
  - split.
    + apply Hone; [vm_compute; reflexivity|vm_compute; lia].
    + destruct (Interleaving.step Interleaving.after_two_failures
                  (Interleaving.Fails 1)) as [c'|] eqn:Hstep;
        [|vm_compute in Hstep; discriminate Hstep].
      exists c'. split; [reflexivity|].
      apply (Hheld 1%nat c'); [vm_compute; reflexivity|reflexivity|exact Hstep].
Defined.

(** * Further properties of the file *)

(** ** [MonitoringLogs] *)

Section Counters.
Context {Post W : Type}.

Implicit Types (s : State W) (t : Tallies).

(** Lines 39-54, below the tenth cycle. *)
Lemma log_cycle_below t s :
  MonitoringLogs.monitoring_counts (logs s) <> 9 ->
  @log_cycle Post W t s
  = ([EvLog (fst (finished_record t)) (snd (finished_record t))], Ok tt,
     mkState (world s) (bucket s)
       (MonitoringLogs.mk
          (MonitoringLogs.monitoring_counts (logs s) + 1)
          (MonitoringLogs.not_updated (add_tallies (logs s) t))
          (MonitoringLogs.cached (add_tallies (logs s) t))
          (MonitoringLogs.empty (add_tallies (logs s) t))
          (MonitoringLogs.failed (add_tallies (logs s) t))
          (MonitoringLogs.updated (add_tallies (logs s) t))
          (MonitoringLogs.skipped (add_tallies (logs s) t)))).
Proof.
  intros H. destruct t as [[[[[nu c] e] f] u] k].
  unfold log_cycle, MonitoringLogs_log, print_summary. run_simpl.
  destruct (Z.eqb_spec (MonitoringLogs.monitoring_counts (logs s) + 1) 10);
    [lia|done].
Qed.

(** Lines 39-66, at the tenth cycle. *)
Lemma log_cycle_tenth t s :
  MonitoringLogs.monitoring_counts (logs s) = 9 ->
  @log_cycle Post W t s
  = ([EvLog (fst (finished_record t)) (snd (finished_record t));
      EvLog (fst (summary_record (add_tallies (logs s) t)))
            (snd (summary_record (add_tallies (logs s) t)))],
     Ok tt,
     mkState (world s) (bucket s) (MonitoringLogs.mk 0 0 0 0 0 0 0)).
Proof.
  intros H. destruct t as [[[[[nu c] e] f] u] k].
  unfold log_cycle, MonitoringLogs_log, print_summary. run_simpl.
  rewrite H. done.
Qed.

(** X1: the cycle counter counts modulo ten. *)
Theorem log_cycle_counts t s :
  0 <= MonitoringLogs.monitoring_counts (logs s) < 10 ->
  MonitoringLogs.monitoring_counts (logs (final (@log_cycle Post W t s)))
  = (MonitoringLogs.monitoring_counts (logs s) + 1) mod 10
  /\ 0 <= MonitoringLogs.monitoring_counts
            (logs (final (@log_cycle Post W t s))) < 10.
Proof.
  intros H.
  destruct (Z.eq_dec (MonitoringLogs.monitoring_counts (logs s)) 9) as [E|E].
  - rewrite (log_cycle_tenth t s E), final_run. simpl. rewrite E. done.
  - rewrite (log_cycle_below t s E), final_run. simpl.
    rewrite Z.mod_small by lia. lia.
Qed.

Lemma add_tallies_with_counts n l t :
  add_tallies (with_counts n l) t = with_counts n (add_tallies l t).
Proof. by destruct t as [[[[[nu c] e] f] u] k]. Qed.

Lemma fold_add_tallies_with_counts n ts l :
  fold_left add_tallies ts (with_counts n l)
  = with_counts n (fold_left add_tallies ts l).
Proof.
  revert l. induction ts as [|t ts IH]; intros l; [done|]. simpl.
  by rewrite add_tallies_with_counts, IH.
Qed.

Lemma summary_record_with_counts n l :
  summary_record (with_counts n l) = summary_record l.
Proof. done. Qed.

(** X2: the cycles up to the tenth.  From a cycle count [n] below ten,
    [10 - n] consecutive calls log one record each and then, once, the
    summary of everything counted since the last one; all counters are
    zero afterwards. *)
Theorem cycles_to_summary (ts : list Tallies) s :
  0 <= MonitoringLogs.monitoring_counts (logs s) < 10 ->
  Py.len ts = 10 - MonitoringLogs.monitoring_counts (logs s) ->
  logged (calls (@log_cycles Post W ts s))
  = map finished_record ts
    ++ [summary_record (fold_left add_tallies ts (logs s))]
  /\ result (@log_cycles Post W ts s) = Ok tt
  /\ final (@log_cycles Post W ts s)
     = mkState (world s) (bucket s) (MonitoringLogs.mk 0 0 0 0 0 0 0).
Proof.
  revert s. induction ts as [|t ts IH]; intros s Hn Hlen.
  { unfold Py.len in Hlen. simpl in Hlen. lia. }
  destruct ts as [|t' ts].
  - assert (E : MonitoringLogs.monitoring_counts (logs s) = 9)
      by (unfold Py.len in Hlen; simpl in Hlen; lia).
    simpl log_cycles.
    rewrite (bind_ok _ _ _ _ _ _ (log_cycle_tenth t s E)).
    rewrite calls_run, result_run, final_run.
    destruct t as [[[[[nu c] e] f] u] k]. done.
  - assert (E : MonitoringLogs.monitoring_counts (logs s) <> 9)
      by (unfold Py.len in Hlen; simpl in Hlen; lia).
    change (log_cycles (t :: t' :: ts))
      with (@log_cycle Post W t;; log_cycles (t' :: ts)).
    rewrite (bind_ok _ _ _ _ _ _ (log_cycle_below t s E)).
    rewrite calls_run, result_run, final_run.
    set (s1 := mkState _ _ _).
    destruct (IH s1) as (Hlog & Hres & Hfin).
    { subst s1. simpl. lia. }
    { subst s1. unfold Py.len in *. simpl in *. lia. }
    split; [|split; [done|]].
    + unfold logged in *. rewrite omap_app, Hlog.
      destruct t as [[[[[nu c] e] f] u] k].
      change (fold_left add_tallies ((nu, c, e, f, u, k) :: t' :: ts) (logs s))
        with (fold_left add_tallies (t' :: ts)
                (add_tallies (logs s) (nu, c, e, f, u, k))).
      change (logs s1)
        with (with_counts (MonitoringLogs.monitoring_counts (logs s) + 1)
                (add_tallies (logs s) (nu, c, e, f, u, k))).
      by rewrite fold_add_tallies_with_counts, summary_record_with_counts.
    + rewrite Hfin. done.
Qed.

End Counters.

(** ** The tally of a cycle (lines 80-101) *)

Lemma tally_from (results : list Outcome) (acc : Tallies) :
  fold_left tally results acc
  = let '(not_updated, cached, empty, failed, updated, skipped) := acc in
    (not_updated + occurrences NOT_UPDATED results
       + occurrences CACHED results + occurrences EMPTY results,
     cached + occurrences CACHED results,
     empty + occurrences EMPTY results,
     failed + occurrences FAILED results,
     updated + occurrences UPDATED results,
     skipped + occurrences SKIPPED results).
Proof.
  revert acc. induction results as [|r results IH];
    intros [[[[[nu c] e] f] u] k].
  - unfold occurrences, Py.len. simpl.
    repeat match goal with |- (_, _) = (_, _) => f_equal end; lia.
  - simpl fold_left. rewrite IH. unfold occurrences, Py.len.
    rewrite !filter_cons.
    destruct r; simpl;
      repeat match goal with |- (_, _) = (_, _) => f_equal end; lia.
Qed.

Lemma occurrences_total (results : list Outcome) :
  occurrences NOT_UPDATED results + occurrences CACHED results
  + occurrences EMPTY results + occurrences FAILED results
  + occurrences UPDATED results + occurrences SKIPPED results
  = Py.len results.
Proof.
  unfold occurrences, Py.len. induction results as [|r results IH]; [done|].
  rewrite !filter_cons.
  destruct r; simpl in *; lia.
Qed.

(** X3: the tally of a cycle.  Every result is counted once among
    not-updated, failed, updated and skipped; the cached and the empty
    ones are counted as not updated as well. *)
Theorem tally_partition (results : list Outcome) :
  fold_left tally results (0, 0, 0, 0, 0, 0)
  = (occurrences NOT_UPDATED results + occurrences CACHED results
       + occurrences EMPTY results,
     occurrences CACHED results, occurrences EMPTY results,
     occurrences FAILED results, occurrences UPDATED results,
     occurrences SKIPPED results)
  /\ (let '(not_updated, cached, empty, failed, updated, skipped) :=
        fold_left tally results (0, 0, 0, 0, 0, 0) in
      not_updated + failed + updated + skipped = Py.len results
      /\ 0 <= cached /\ 0 <= empty /\ cached + empty <= not_updated).
Proof.
  rewrite tally_from. simpl. split; [done|].
  pose proof (occurrences_total results).
  unfold occurrences, Py.len in *. lia.
Qed.

(** ** What the coroutines leave as they found it *)

Section Frames.
Context {Post W : Type} (env : Env Post W).
Context (R : State W -> State W -> Prop).
Hypothesis R_refl : forall s, R s s.
Hypothesis R_trans : forall s1 s2 s3, R s1 s2 -> R s2 s3 -> R s1 s3.
Hypothesis R_world : forall s w, R s (mkState w (bucket s) (logs s)).
Hypothesis R_send : forall sub post, keeps R (__send env sub post).

Lemma keeps_mret {A} (a : A) : keeps R (mret a : M Post W A).
Proof. intros s. apply R_refl. Qed.

Lemma keeps_log lvl m : keeps R (@log Post W lvl m).
Proof. intros s. apply R_refl. Qed.

Lemma keeps_read {A} (h : W -> A) : keeps R (@read Post W A h).
Proof. intros s. apply R_refl. Qed.

Lemma keeps_call {A} ev (h : W -> A * W) : keeps R (@call Post W A ev h).
Proof.
  intros s. unfold call. destruct (h (world s)) as [a w]. apply R_world.
Qed.

Lemma keeps_call_ ev (h : W -> W) : keeps R (@call_ Post W ev h).
Proof. apply keeps_call. Qed.

Lemma keeps_bind {A B} (m : M Post W A) (k : A -> M Post W B) :
  keeps R m -> (forall a, keeps R (k a)) -> keeps R (m ≫= k).
Proof.
  intros Hm Hk s. specialize (Hm s).
  destruct (m s) as [[t1 [a|e]] s1] eqn:Hms.
  - erewrite bind_ok by done. rewrite final_run.
    eapply R_trans; [exact Hm|apply Hk].
  - erewrite bind_raise by done. exact Hm.
Qed.

Lemma keeps_gather {A} (ts : list (M Post W A)) :
  (forall t, t ∈ ts -> keeps R t) -> keeps R (gather ts).
Proof.
  induction ts as [|t ts IH]; intros Hts s; [apply R_refl|].
  rewrite gather_cons, final_run.
  eapply R_trans; [apply (Hts t); by left|].
  apply IH. intros t' Hin. apply Hts. by right.
Qed.

Lemma keeps_gather_map {A B} (f : B -> M Post W A) (l : list B) :
  (forall b, keeps R (f b)) -> keeps R (gather (map f l)).
Proof.
  intros Hf. apply keeps_gather. intros t Hin.
  apply list_elem_of_fmap in Hin as (b & -> & _). apply Hf.
Qed.

Lemma notify_all_keeps feed entry : keeps R (__notify_all env feed entry).
Proof.
  unfold __notify_all.
  apply keeps_bind; [apply keeps_call|intros subs].
  apply keeps_bind.
  { destruct subs; [apply keeps_call_|apply keeps_mret]. }
  intros _. apply keeps_bind; [apply keeps_call_|intros _].
  apply keeps_bind; [|intros; apply keeps_mret].
  apply keeps_gather_map. intros sub. apply R_send.
Qed.

Lemma deactivate_keeps feed :
  keeps R (__deactivate_feed_and_notify_all env feed).
Proof.
  unfold __deactivate_feed_and_notify_all.
  apply keeps_bind; [apply keeps_call|intros subs].
  apply keeps_bind; [apply keeps_call_|intros _].
  destruct subs as [|sub subs]; [apply keeps_mret|].
  apply keeps_bind; [|intros; apply keeps_mret].
  apply keeps_gather_map. intros sub'. apply R_send.
Qed.

Lemma on_error_keeps now d feed : keeps R (on_error env now d feed).
Proof.
  unfold on_error. destruct (100 <=? Feed.error_count feed).
  - apply keeps_bind; [apply keeps_log|intros _].
    apply keeps_bind; [apply deactivate_keeps|intros; apply keeps_mret].
  - apply keeps_bind.
    { destruct (_ =? 0); [apply keeps_log|apply keeps_mret]. }
    intros _. apply keeps_bind; [apply keeps_read|intros default].
    apply keeps_bind; [apply keeps_call_|intros; apply keeps_mret].
Qed.

Lemma on_entries_keeps d entries feed :
  keeps R (on_entries env d entries feed).
Proof.
  unfold on_entries. destruct (diff _ _ _) as [[|h hs] ue].
  - apply keeps_bind; [apply keeps_log|intros; apply keeps_mret].
  - apply keeps_bind; [apply keeps_log|intros _].
    apply keeps_bind; [apply keeps_call_|intros _].
    apply keeps_bind.
    { unfold follow. destruct (bool_decide _); [|apply keeps_mret].
      apply keeps_bind; [apply keeps_call|intros; apply keeps_mret]. }
    intros feed2. apply keeps_bind; [|intros; apply keeps_mret].
    apply keeps_gather_map. intros entry. apply notify_all_keeps.
Qed.

Lemma after_fetch_keeps now d feed : keeps R (after_fetch env now d feed).
Proof.
  unfold after_fetch. apply keeps_bind.
  { unfold recover. destruct (recovers d feed); [|apply keeps_mret].
    apply keeps_bind; [apply keeps_call_|intros; apply keeps_mret]. }
  intros feed'. destruct (Fetched.status d =? 304).
  { apply keeps_bind; [apply keeps_log|intros; apply keeps_mret]. }
  destruct (Fetched.rss_d d) as [[|entry entries]|].
  - unfold on_empty. apply keeps_bind.
    { destruct (bool_decide _); [|apply keeps_mret].
      apply keeps_bind; [apply keeps_call|intros; apply keeps_mret]. }
    intros _. apply keeps_bind; [apply keeps_log|intros; apply keeps_mret].
  - apply on_entries_keeps.
  - apply on_error_keeps.
Qed.

Lemma monitor_keeps feed : keeps R (__monitor env feed).
Proof.
  unfold __monitor. apply keeps_bind; [apply keeps_read|intros now].
  destruct (not_due now feed); [apply keeps_mret|].
  apply keeps_bind; [apply keeps_call|intros d]. apply after_fetch_keeps.
Qed.

End Frames.

Section Kept.
Context {Post W : Type} (env : Env Post W).

Implicit Types (s : State W) (feed : Feed.t) (sub : Sub.t).

Lemma same_logs_send sub post : keeps same_logs (__send env sub post).
Proof.
  intros s. unfold same_logs.
  destruct (send_message env (Sub.user_id sub) post (world s))
    as [[e|] w] eqn:H.
  - destruct (caught_by_send e) eqn:He.
    + destruct (bucket_get (Sub.user_id sub) (bucket s)) as [[|] b] eqn:Hb.
      * by erewrite send_caught_locked.
      * by erewrite send_caught_free.
    + by erewrite send_uncaught.
  - by erewrite send_delivered.
Qed.

Lemma bucket_get_lock_held u v (b : gmap Z bool) :
  lock_held (snd (bucket_get u b)) v <-> lock_held b v.
Proof.
  unfold lock_held, bucket_get. destruct (b !! u) as [l|] eqn:Hu; [done|].
  simpl. destruct (decide (u = v)) as [->|Hne].
  - rewrite lookup_insert_eq, Hu. split; intros [=].
  - by rewrite lookup_insert_ne.
Qed.

Lemma send_same_locks sub post : keeps same_locks (__send env sub post).
Proof.
  intros s v. unfold same_locks.
  destruct (send_message env (Sub.user_id sub) post (world s))
    as [[e|] w] eqn:H.
  - destruct (caught_by_send e) eqn:He.
    + pose proof (bucket_get_lock_held (Sub.user_id sub) v (bucket s)) as Hg.
      destruct (bucket_get (Sub.user_id sub) (bucket s)) as [l b] eqn:Hb.
      pose proof (bucket_get_locked (Sub.user_id sub) (bucket s)) as Hl.
      rewrite Hb in Hl. simpl in Hl, Hg.
      destruct l.
      * erewrite send_caught_locked by done. by rewrite final_run.
      * erewrite send_caught_free by done. rewrite final_run. simpl in *.
        unfold lock_held, release, acquire in *.
        destruct (decide (Sub.user_id sub = v)) as [<-|Hne].
        -- rewrite lookup_insert_eq. split; [done|]. intros Hh.
           symmetry in Hl. by apply bool_decide_eq_false in Hl.
        -- by rewrite !lookup_insert_ne.
    + by erewrite send_uncaught.
  - by erewrite send_delivered.
Qed.

Lemma same_logs_refl (s : State W) : same_logs s s.
Proof. done. Qed.

Lemma same_logs_trans (s1 s2 s3 : State W) :
  same_logs s1 s2 -> same_logs s2 s3 -> same_logs s1 s3.
Proof. unfold same_logs. congruence. Qed.

Lemma same_locks_refl (s : State W) : same_locks s s.
Proof. done. Qed.

Lemma same_locks_trans (s1 s2 s3 : State W) :
  same_locks s1 s2 -> same_locks s2 s3 -> same_locks s1 s3.
Proof.
  unfold same_locks. intros H1 H2 v. by rewrite H2, H1.
Qed.

Lemma monitor_same_logs feed : keeps same_logs (__monitor env feed).
Proof.
  apply (monitor_keeps env same_logs same_logs_refl same_logs_trans
           (fun s w => eq_refl) (same_logs_send)).
Qed.

Lemma monitor_same_locks feed : keeps same_locks (__monitor env feed).
Proof.
  apply (monitor_keeps env same_locks same_locks_refl same_locks_trans
           (fun s w v => reflexivity _) send_same_locks).
Qed.

(** X4: [__send] and the locks.  Whatever the delivery does, a send
    leaves every lock as it found it: the lock it takes for [unsub_all]
    is released before it ends, and reading the bucket only adds free
    locks.  It calls [unsub_all] for nobody but its own recipient, and
    only after the delivery raised one of the errors of line 212. *)
Theorem send_releases sub post s :
  (forall user_id,
     lock_held (bucket (final (__send env sub post s))) user_id
     <-> lock_held (bucket s) user_id)
  /\ (unsubs (calls (__send env sub post s)) = []
      \/ unsubs (calls (__send env sub post s)) = [Sub.user_id sub]
         /\ exists e,
             fst (send_message env (Sub.user_id sub) post (world s)) = Some e
             /\ caught_by_send e = true).
Proof.
  split; [apply send_same_locks|].
  destruct (send_calls env sub post s)
    as (o & rest & -> & Ho & [->|(e & -> & He & ->)]).
  - by left.
  - right. split; [done|]. exists e. by rewrite <- Ho.
Qed.

Lemma gather_length {A} (ts : list (M Post W A)) s l :
  result (gather ts s) = Ok l -> length l = length ts.
Proof.
  revert s l. induction ts as [|t ts IH]; intros s l.
  - rewrite gather_nil, result_run. by intros [= <-].
  - rewrite gather_cons, result_run.
    destruct (result (t s)) as [a|e]; [|done].
    destruct (result (gather ts (final (t s)))) as [l'|e] eqn:E; [|done].
    intros [= <-]. simpl. by rewrite (IH _ _ E).
Qed.

Lemma log_cycle_logs_only (t : Tallies) (s1 s2 : State W) :
  logs s1 = logs s2 ->
  calls (@log_cycle Post W t s1) = calls (@log_cycle Post W t s2)
  /\ result (@log_cycle Post W t s1) = Ok tt
  /\ logs (final (@log_cycle Post W t s1))
     = logs (final (@log_cycle Post W t s2))
  /\ bucket (final (@log_cycle Post W t s1)) = bucket s1.
Proof.
  intros H.
  destruct (Z.eq_dec (MonitoringLogs.monitoring_counts (logs s1)) 9) as [E|E].
  - rewrite (log_cycle_tenth t s1 E).
    rewrite H in E. rewrite (log_cycle_tenth t s2 E). by rewrite H.
  - rewrite (log_cycle_below t s1 E).
    rewrite H in E. rewrite (log_cycle_below t s2 E). by rewrite H.
Qed.

(** Lines 70-72: with no task the cycle ends after asking for them. *)
Lemma idle_cycle s w :
  get_tasks env (world s) = ([], w) ->
  run_monitor_task env s
  = ([EvGetTasks], Ok tt, mkState w (bucket s) (logs s)).
Proof.
  intros H. unfold run_monitor_task. run_simpl. by rewrite H.
Qed.

(** X5: the accounts of a cycle.  When every poll of a cycle returns, the
    cycle returns; there is one outcome per feed read; no poll has
    touched the counters; and [MonitoringLogs.log] is called once, after
    the polls, with the tally of the outcomes. *)
Theorem cycle_accounts s id ids w feeds w' outcomes :
  get_tasks env (world s) = (id :: ids, w) ->
  Feed_filter env (id :: ids) w = (feeds, w') ->
  let x := gather (map (__monitor env) feeds)
                  (mkState w' (bucket s) (logs s)) in
  result x = Ok outcomes ->
  length outcomes = length feeds
  /\ logs (final x) = logs s
  /\ result (run_monitor_task env s) = Ok tt
  /\ logs (final (run_monitor_task env s))
     = logs (final (@log_cycle Post W
                      (fold_left tally outcomes (0, 0, 0, 0, 0, 0)) s))
  /\ calls (run_monitor_task env s)
     = EvGetTasks :: EvFeedFilter (id :: ids) :: EvLog DEBUG MsgStarted
         :: calls x
         ++ calls (@log_cycle Post W
                     (fold_left tally outcomes (0, 0, 0, 0, 0, 0)) s).
Proof.
  intros Ht Hf x Hx.
  assert (Hlogs : logs (final x) = logs s).
  { exact (keeps_gather_map same_logs same_logs_refl same_logs_trans
             (__monitor env) feeds monitor_same_logs
             (mkState w' (bucket s) (logs s))). }
  split.
  { rewrite (gather_length _ _ _ Hx). apply length_map. }
  split; [done|].
  destruct (run_monitor_task_run env s id ids w feeds w' Ht Hf)
    as (y & -> & Hy).
  fold x in Hy. rewrite Hx in Hy.
  destruct Hy as (nu & c & e & f & u & k & Hfold & ->).
  rewrite Hfold, calls_run, result_run, final_run.
  destruct (log_cycle_logs_only (nu, c, e, f, u, k) (final x) s Hlogs)
    as (Hc & Hr & Hl & _).
  simpl in Hc, Hr, Hl. by rewrite Hc, Hr, Hl.
Qed.

(** X6: a cycle and the locks.  With the awaitables run one after the
    other, a cycle leaves every lock as it found it -- held if it was
    held, free otherwise -- whether it returns or raises. *)
Theorem cycle_keeps_locks s user_id :
  lock_held (bucket (final (run_monitor_task env s))) user_id
  <-> lock_held (bucket s) user_id.
Proof.
  destruct (get_tasks env (world s)) as [[|id ids] w] eqn:Ht.
  { by rewrite (idle_cycle s w Ht). }
  destruct (Feed_filter env (id :: ids) w) as [feeds w'] eqn:Hf.
  destruct (run_monitor_task_run env s id ids w feeds w' Ht Hf)
    as (y & -> & Hy).
  rewrite final_run.
  set (x := gather _ _) in *.
  assert (Hx : same_locks (mkState w' (bucket s) (logs s)) (final x)).
  { exact (keeps_gather_map same_locks same_locks_refl same_locks_trans
             (__monitor env) feeds monitor_same_locks
             (mkState w' (bucket s) (logs s))). }
  specialize (Hx user_id). simpl in Hx. rewrite <- Hx.
  destruct (result x) as [outcomes|e].
  - destruct Hy as (nu & c & e & f & u & k & _ & ->).
    destruct (log_cycle_logs_only (nu, c, e, f, u, k) (final x) (final x)
                eq_refl) as (_ & _ & _ & Hb).
    simpl in Hb. by rewrite Hb.
  - by subst y.
Qed.

End Kept.

(** ** The backoff of lines 143-147 *)

Lemma backoff_bounds_aux interval error_count :
  0 < interval -> 0 <= error_count ->
  Z.min interval 15 <= next_check_interval interval error_count <= 75
  /\ next_check_interval interval error_count <= 5 * interval
  /\ (10 <= error_count ->
      2 * Z.min interval 15 <= next_check_interval interval error_count).
Proof.
  intros Hi He. unfold next_check_interval.
  assert (H0 : 0 <= error_count / 10) by (apply Z.div_pos; lia).
  assert (H1 : 1 <= Z.min (error_count / 10 + 1) 5 <= 5) by lia.
  assert (H2 : 0 < Z.min interval 15 <= 15) by lia.
  repeat split; try nia.
  intros H10.
  assert (1 <= error_count / 10)
    by (apply Z.div_le_lower_bound; lia).
  assert (2 <= Z.min (error_count / 10 + 1) 5) by lia.
  nia.
Qed.

(** X7: the delay of line 145.  For a positive interval the delay is at
    least the interval capped at fifteen minutes and at most 75 minutes,
    never more than five intervals; it grows with the error count and
    stays at five capped intervals from the fortieth error on. *)
Theorem backoff_bounds interval error_count :
  0 < interval -> 0 <= error_count ->
  let d := next_check_interval interval error_count in
  Z.min interval 15 <= d <= 75
  /\ d <= 5 * interval
  /\ (40 <= error_count -> d = 5 * Z.min interval 15)
  /\ (forall later, error_count <= later ->
        d <= next_check_interval interval later).
Proof.
  intros Hi He. unfold next_check_interval. cbv zeta.
  assert (H0 : 0 <= error_count / 10) by (apply Z.div_pos; lia).
  assert (H1 : 1 <= Z.min (error_count / 10 + 1) 5 <= 5) by lia.
  assert (H2 : 0 < Z.min interval 15 <= 15) by lia.
  split; [nia|]. split; [nia|]. split.
  - intros H40.
    assert (4 <= error_count / 10) by (apply Z.div_le_lower_bound; lia).
    lia.
  - intros later Hl.
    assert (Z.min (error_count / 10 + 1) 5 <= Z.min (later / 10 + 1) 5).
    { assert (error_count / 10 <= later / 10)
        by (apply Z.div_le_mono; lia).
      lia. }
    nia.
Qed.

(** X8: when the next check is put off.  Below ten errors it never is.
    From ten errors on, a feed checked more often than every half hour
    always is, a feed checked every 75 minutes or less often never is;
    and a check that is put off comes later than the interval would have
    it, at most 75 minutes from now.  The interval is the feed's own, or
    the default when the feed has none or has zero. *)
Theorem backoff_deferral now default feed :
  let interval := Py.int_or (Feed.interval feed) default in
  let delayed := delay_next_check now default feed in
  0 < interval ->
  (Feed.error_count feed < 10 -> delayed = feed)
  /\ (75 <= interval -> delayed = feed)
  /\ (10 <= Feed.error_count feed -> interval < 30 ->
      Feed.next_check_time delayed
      = Some (now + Py.timedelta_minutes
                      (next_check_interval interval
                                           (Feed.error_count feed))))
  /\ (delayed = feed
      \/ exists minutes,
           delayed
           = Feed.set_next_check_time
               (Some (now + Py.timedelta_minutes minutes)) feed
           /\ interval < minutes <= 75).
Proof.
  intros interval delayed Hi. subst delayed. unfold delay_next_check.
  fold interval.
  pose proof (backoff_bounds_aux interval (Feed.error_count feed)) as Hb.
  destruct (Z.leb_spec 10 (Feed.error_count feed)) as [He|He].
  - specialize (Hb Hi ltac:(lia)). destruct Hb as (Hb1 & Hb2 & Hb3).
    destruct (Z.ltb_spec interval
                (next_check_interval interval (Feed.error_count feed)))
      as [Hn|Hn].
    + repeat split; try lia.
      right. eexists. split; [reflexivity|lia].
    + specialize (Hb3 He).
      repeat split; try lia; try done. by left.
  - repeat split; try done; try lia. by left.
Qed.

(** ** New entries *)

Section Fingerprints.
Variable hash : string -> string.

Lemma str_in_elem_of (x : string) (l : list string) :
  Py.str_in x l = true <-> x ∈ l.
Proof.
  unfold Py.str_in. rewrite existsb_exists. split.
  - intros (y & Hin & Heq). apply String.eqb_eq in Heq. subst y.
    by apply list_elem_of_In.
  - intros Hin. exists x. split; [by apply list_elem_of_In|].
    apply String.eqb_refl.
Qed.

Lemma str_in_app (x : string) (l1 l2 : list string) :
  Py.str_in x (l1 ++ l2) = Py.str_in x l1 || Py.str_in x l2.
Proof. unfold Py.str_in. apply existsb_app. Qed.

Lemma diff_one entry old_hashes :
  diff hash [entry] old_hashes
  = if is_new hash old_hashes entry
    then (omap (fingerprint hash) [entry], [entry])
    else ([], []).
Proof.
  unfold diff, is_new, fingerprint. simpl.
  destruct (guid_of entry) as [guid|]; [|done].
  by destruct (Py.str_in (hash guid) old_hashes).
Qed.

Lemma diff_filter entries old_hashes :
  diff hash entries old_hashes
  = (omap (fingerprint hash)
          (filter (fun entry => is_new hash old_hashes entry) entries),
     filter (fun entry => is_new hash old_hashes entry) entries).
Proof.
  induction entries as [|entry entries IH]; [done|].
  rewrite diff_cons, IH, diff_one, filter_cons.
  destruct (is_new hash old_hashes entry) eqn:E.
  - rewrite decide_True by done. simpl fst. simpl snd.
    unfold fingerprint, is_new in *.
    destruct (guid_of entry) as [guid|] eqn:G; [|done].
    simpl. by rewrite G.
  - rewrite decide_False; [done|]. by intros [].
Qed.

Lemma guid_of_identifies entry guid :
  guid_of entry = Some guid ->
  guid <> EmptyString
  /\ (entry !! "guid" = Some guid
      \/ Py.truthy_str (entry !! "guid") = false
         /\ entry !! "link" = Some guid).
Proof.
  unfold guid_of, Py.opt_str_or.
  destruct (Py.truthy_str (entry !! "guid")) eqn:Hg.
  - rewrite Hg. intros Heq. split; [|by left].
    rewrite Heq in Hg. simpl in Hg. intros ->. done.
  - destruct (Py.truthy_str (entry !! "link")) eqn:Hl; [|done].
    intros Heq. split; [|by right].
    rewrite Heq in Hl. simpl in Hl. intros ->. done.
Qed.

(** X9: what counts as new.  The entries a fetch is taken to bring anew
    are the fetched entries, in the order of the feed, that have an
    identifier whose fingerprint the stored history lacks; the new
    fingerprints are theirs, one for each and in the same order.  The
    identifier of such an entry is its guid, or its link when the guid is
    missing or empty, and is never empty: an entry with neither is passed
    over. *)
Theorem diff_selects entries old_hashes :
  let news := filter (fun entry => is_new hash old_hashes entry) entries in
  diff hash entries old_hashes = (omap (fingerprint hash) news, news)
  /\ length (omap (fingerprint hash) news) = length news
  /\ Forall (fun entry =>
               exists guid,
                 guid <> EmptyString
                 /\ (entry !! "guid" = Some guid
                     \/ Py.truthy_str (entry !! "guid") = false
                        /\ entry !! "link" = Some guid)
                 /\ fingerprint hash entry = Some (hash guid)
                 /\ hash guid ∉ old_hashes) news.
Proof.
  intros news. split; [apply diff_filter|]. subst news.
  set (news := filter _ entries).
  assert (Hnews : Forall (fun entry =>
            exists guid, guid_of entry = Some guid
                         /\ hash guid ∉ old_hashes) news).
  { apply List.Forall_forall. intros entry Hin.
    apply list_elem_of_In in Hin. unfold news in Hin.
    apply list_elem_of_filter in Hin as [Hn _].
    unfold is_new in Hn. destruct (guid_of entry) as [guid|]; [|done].
    exists guid. split; [done|]. rewrite <- str_in_elem_of.
    by destruct (Py.str_in (hash guid) old_hashes). }
  split.
  - clear -Hnews. induction Hnews as [|entry l (guid & Hg & _) _ IH]; [done|].
    change (omap (fingerprint hash) (entry :: l))
      with (match fingerprint hash entry with
            | Some h => h :: omap (fingerprint hash) l
            | None => omap (fingerprint hash) l
            end).
    unfold fingerprint at 1. rewrite Hg. simpl. by rewrite IH.
  - eapply Forall_impl; [exact Hnews|].
    intros entry (guid & Hg & Hn). exists guid.
    destruct (guid_of_identifies entry guid Hg) as [He Hw].
    repeat split; try done. unfold fingerprint. by rewrite Hg.
Qed.

Lemma slice_to_all {A} (l : list A) (k : Z) :
  Py.len l <= k -> Py.slice_to l k = l.
Proof.
  unfold Py.len, Py.slice_to. intros H.
  destruct (Z.leb_spec 0 k); [|lia].
  apply firstn_all2. lia.
Qed.

Lemma diff_known entries history :
  (forall entry guid,
     entry ∈ entries -> guid_of entry = Some guid -> hash guid ∈ history) ->
  diff hash entries history = ([], []).
Proof.
  intros H. rewrite diff_filter.
  assert (filter (fun entry => is_new hash history entry) entries = [])
    as ->; [|done].
  induction entries as [|entry entries IH]; [done|].
  rewrite filter_cons, decide_False.
  - apply IH. intros e g Hin. apply H. by right.
  - unfold is_new. destruct (guid_of entry) as [guid|] eqn:G; [|by intros []].
    assert (Py.str_in (hash guid) history = true) as ->; [|by intros []].
    apply str_in_elem_of. apply (H entry); [by left|done].
Qed.

Lemma diff_merge entries old_hashes updated_hashes updated_entries :
  diff hash entries old_hashes = (updated_hashes, updated_entries) ->
  Py.len updated_hashes + Py.len old_hashes
  <= Z.max (Py.len entries * 2) 100 ->
  diff hash entries (merge updated_hashes old_hashes (Py.len entries))
  = ([], []).
Proof.
  intros Hd Hl. apply diff_known. intros entry guid Hin Hg.
  unfold merge. rewrite slice_to_all by lia.
  apply elem_of_app.
  destruct (Py.str_in (hash guid) old_hashes) eqn:Ho.
  { right. by apply str_in_elem_of. }
  left. rewrite diff_filter in Hd. injection Hd as <- _.
  apply list_elem_of_omap. exists entry. split.
  - apply list_elem_of_filter. split; [|done].
    unfold is_new. by rewrite Hg, Ho.
  - unfold fingerprint. by rewrite Hg.
Qed.

End Fingerprints.

(** ** What the traces of the coroutines hold *)

Section Traces.
Context {Post W : Type} (env : Env Post W).
Context (Q : list (event Post) -> Prop).
Hypothesis Q_nil : Q [].
Hypothesis Q_app : forall t1 t2, Q t1 -> Q t2 -> Q (t1 ++ t2).
Hypothesis Q_send : forall sub post, traces Q (__send env sub post).
Hypothesis Q_sub : forall feed prefetch, Q [EvSubFilter feed prefetch].

Lemma traces_mret {A} (a : A) : traces Q (mret a : M Post W A).
Proof. intros s. apply Q_nil. Qed.

Lemma traces_read {A} (h : W -> A) : traces Q (@read Post W A h).
Proof. intros s. apply Q_nil. Qed.

Lemma traces_log lvl m : Q [EvLog lvl m] -> traces Q (@log Post W lvl m).
Proof. intros H s. exact H. Qed.

Lemma traces_call {A} ev (h : W -> A * W) :
  Q [ev] -> traces Q (@call Post W A ev h).
Proof.
  intros H s. unfold call. by destruct (h (world s)) as [a w].
Qed.

Lemma traces_call_ ev (h : W -> W) : Q [ev] -> traces Q (@call_ Post W ev h).
Proof. apply traces_call. Qed.

Lemma traces_bind {A B} (m : M Post W A) (k : A -> M Post W B) :
  traces Q m -> (forall a, traces Q (k a)) -> traces Q (m ≫= k).
Proof.
  intros Hm Hk s. specialize (Hm s).
  destruct (m s) as [[t1 [a|e]] s1] eqn:Hms.
  - erewrite bind_ok by done. rewrite calls_run.
    apply Q_app; [exact Hm|apply Hk].
  - erewrite bind_raise by done. exact Hm.
Qed.

Lemma traces_gather {A} (ts : list (M Post W A)) :
  (forall t, t ∈ ts -> traces Q t) -> traces Q (gather ts).
Proof.
  induction ts as [|t ts IH]; intros Hts s; [apply Q_nil|].
  rewrite gather_cons, calls_run.
  apply Q_app; [apply (Hts t); by left|].
  apply IH. intros t' Hin. apply Hts. by right.
Qed.

Lemma traces_gather_map {A B} (f : B -> M Post W A) (l : list B) :
  (forall b, traces Q (f b)) -> traces Q (gather (map f l)).
Proof.
  intros Hf. apply traces_gather. intros t Hin.
  apply list_elem_of_fmap in Hin as (b & -> & _). apply Hf.
Qed.

Lemma notify_all_traces feed entry :
  Q [EvUpdateInterval feed] ->
  (forall post, Q [EvGenerateMessage post]) ->
  traces Q (__notify_all env feed entry).
Proof.
  intros Hu Hg. unfold __notify_all.
  apply traces_bind; [apply traces_call, Q_sub|intros subs].
  apply traces_bind.
  { destruct subs; [by apply traces_call_|apply traces_mret]. }
  intros _. apply traces_bind; [apply traces_call_, Hg|intros _].
  apply traces_bind; [|intros; apply traces_mret].
  apply traces_gather_map. intros sub. apply Q_send.
Qed.

Lemma deactivate_traces feed :
  Q [EvDeactivateFeed feed] ->
  traces Q (__deactivate_feed_and_notify_all env feed).
Proof.
  intros Hd. unfold __deactivate_feed_and_notify_all.
  apply traces_bind; [apply traces_call, Q_sub|intros subs].
  apply traces_bind; [by apply traces_call_|intros _].
  destruct subs as [|sub subs]; [apply traces_mret|].
  apply traces_bind; [|intros; apply traces_mret].
  apply traces_gather_map. intros sub'. apply Q_send.
Qed.

Lemma fanout_traces feed entries :
  Q [EvUpdateInterval feed] ->
  (forall post, Q [EvGenerateMessage post]) ->
  traces Q (gather (map (__notify_all env feed) entries)).
Proof.
  intros Hu Hg. apply traces_gather_map. intros entry.
  by apply notify_all_traces.
Qed.

End Traces.

Section Inner.
Context {Post W : Type} (env : Env Post W).
Context (Q : list (event Post) -> Prop).
Hypothesis Q_nil : Q [].
Hypothesis Q_app : forall t1 t2, Q t1 -> Q t2 -> Q (t1 ++ t2).
Hypothesis Q_send : forall sub post, traces Q (__send env sub post).
Hypothesis Q_inner : forall ev, inner ev -> Q [ev].

Lemma on_error_traces now d feed : traces Q (on_error env now d feed).
Proof.
  unfold on_error. destruct (100 <=? Feed.error_count feed).
  - apply traces_bind; [done|by apply traces_log, Q_inner|intros _].
    apply traces_bind; [done| |intros; by apply traces_mret].
    apply deactivate_traces; try done; intros; by apply Q_inner.
  - apply traces_bind; [done| |intros _].
    { destruct (_ =? 0); [by apply traces_log, Q_inner|by apply traces_mret]. }
    apply traces_bind; [done|by apply traces_read|intros default].
    apply traces_bind; [done| |intros; by apply traces_mret].
    by apply traces_call_, Q_inner.
Qed.

Lemma on_entries_traces d entries feed :
  traces Q (on_entries env d entries feed).
Proof.
  unfold on_entries.
  destruct (diff _ _ _) as [[|h updated_hashes] updated_entries].
  - apply traces_bind; [done|by apply traces_log, Q_inner|].
    intros; by apply traces_mret.
  - apply traces_bind; [done|by apply traces_log, Q_inner|intros _].
    apply traces_bind; [done|by apply traces_call_, Q_inner|intros _].
    apply traces_bind; [done| |].
    { unfold follow. destruct (bool_decide _); [|by apply traces_mret].
      apply traces_bind; [done|by apply traces_call, Q_inner|].
      intros; by apply traces_mret. }
    intros feed2. apply traces_bind; [done| |intros; by apply traces_mret].
    apply fanout_traces; try done; intros; by apply Q_inner.
Qed.

Lemma after_fetch_traces now d feed : traces Q (after_fetch env now d feed).
Proof.
  unfold after_fetch. apply traces_bind; [done| |].
  { unfold recover. destruct (recovers d feed); [|by apply traces_mret].
    apply traces_bind; [done|by apply traces_call_, Q_inner|].
    intros; by apply traces_mret. }
  intros feed'. destruct (Fetched.status d =? 304).
  { apply traces_bind; [done|by apply traces_log, Q_inner|].
    intros; by apply traces_mret. }
  destruct (Fetched.rss_d d) as [[|entry entries]|].
  - unfold on_empty. apply traces_bind; [done| |].
    { destruct (bool_decide _); [|by apply traces_mret].
      apply traces_bind; [done|by apply traces_call, Q_inner|].
      intros; by apply traces_mret. }
    intros _. apply traces_bind; [done|by apply traces_log, Q_inner|].
    intros; by apply traces_mret.
  - apply on_entries_traces.
  - apply on_error_traces.
Qed.

Lemma monitor_traces feed :
  (forall link headers, Q [EvFeedGet link headers]) ->
  traces Q (__monitor env feed).
Proof.
  intros Hf. unfold __monitor.
  apply traces_bind; [done|by apply traces_read|intros now].
  destruct (not_due now feed); [by apply traces_mret|].
  apply traces_bind; [done|by apply traces_call|intros d].
  apply after_fetch_traces.
Qed.

Lemma run_monitor_task_traces :
  (forall link headers, Q [EvFeedGet link headers]) ->
  Q [EvGetTasks] -> (forall ids, Q [EvFeedFilter ids]) ->
  traces Q (run_monitor_task env).
Proof.
  intros Hf Ht Hff. unfold run_monitor_task.
  apply traces_bind; [done|by apply traces_call|intros [|id ids]].
  { by apply traces_mret. }
  apply traces_bind; [done|by apply traces_call|intros feeds].
  apply traces_bind; [done|by apply traces_log, Q_inner|intros _].
  apply traces_bind; [done| |intros outcomes].
  { apply traces_gather_map; try done. intros feed.
    by apply monitor_traces. }
  destruct (fold_left tally outcomes (0, 0, 0, 0, 0, 0))
    as [[[[[nu c] e] f] u] k].
  unfold MonitoringLogs_log, print_summary, get_logs, put_logs.
  repeat (apply traces_bind; [done| |intros ?]);
    try (intros s; exact Q_nil);
    try (by apply traces_log, Q_inner).
  destruct (_ =? 10); [|by apply traces_mret].
  repeat (apply traces_bind; [done| |intros ?]);
    try (intros s; exact Q_nil);
    try (by apply traces_log, Q_inner).
Qed.

End Inner.

(** ** The paths of a poll *)

Section Polls.
Context {Post W : Type} (env : Env Post W).

Implicit Types (s : State W) (feed : Feed.t) (sub : Sub.t).

Lemma silent_app {X} (obs : event Post -> option X) t1 t2 :
  omap obs t1 = [] -> omap obs t2 = [] -> omap obs (t1 ++ t2) = [].
Proof. intros H1 H2. by rewrite omap_app, H1, H2. Qed.

Lemma omap_cons_none {X} (obs : event Post -> option X) ev t :
  obs ev = None -> omap obs (ev :: t) = omap obs t.
Proof. intros H. simpl. by rewrite H. Qed.

Lemma omap_cons_some {X} (obs : event Post -> option X) ev t x :
  obs ev = Some x -> omap obs (ev :: t) = x :: omap obs t.
Proof. intros H. simpl. by rewrite H. Qed.

Lemma send_silent {X} (obs : event Post -> option X) sub post :
  (forall u c o, obs (EvSend u c o) = None) ->
  (forall l m, obs (EvLog l m) = None) ->
  (forall u, obs (EvUnsubAll u) = None) ->
  traces (fun t => omap obs t = []) (__send env sub post).
Proof.
  intros Hs Hl Hu s.
  destruct (send_calls env sub post s)
    as (o & rest & -> & _ & [->|(e & _ & _ & ->)]); simpl.
  - by rewrite Hs.
  - by rewrite Hs, Hl, Hu.
Qed.

Lemma recovered_identity d feed : same_identity feed (recovered d feed).
Proof. unfold recovered. by destruct (recovers d feed). Qed.

Lemma recovered_entry_hashes d feed :
  Feed.entry_hashes (recovered d feed) = Feed.entry_hashes feed.
Proof. unfold recovered. by destruct (recovers d feed). Qed.

Lemma follow_calls d feed s :
  calls (follow env d feed s) = moved d feed
  /\ exists feed2, result (follow env d feed s) = Ok feed2.
Proof.
  unfold follow, moved. destruct (bool_decide _); run_simpl.
  - destruct (migrate_to_new_url _ _ _ _) as [o w]. simpl. eauto.
  - eauto.
Qed.

Lemma on_empty_calls d feed s :
  calls (on_empty env d feed s)
  = moved d feed ++ [EvLog DEBUG (MsgEmpty (Feed.link feed))]
  /\ result (on_empty env d feed s) = Ok EMPTY.
Proof.
  unfold on_empty, moved. destruct (bool_decide _); run_simpl.
  - by destruct (migrate_to_new_url _ _ _ _) as [o w].
  - done.
Qed.

Lemma on_entries_updated_calls d entries feed s updated_hashes
    updated_entries :
  diff (get_hash env) entries (default [] (Feed.entry_hashes feed))
  = (updated_hashes, updated_entries) ->
  updated_hashes <> [] ->
  let feed1 :=
    refresh env d
      (merge updated_hashes (default [] (Feed.entry_hashes feed))
             (Py.len entries)) feed in
  exists feed2 s2,
    let x := gather (map (__notify_all env feed2) updated_entries) s2 in
    calls (on_entries env d entries feed s)
    = EvLog DEBUG (MsgUpdated (Feed.link feed)) :: EvSave feed1
        :: moved d feed1 ++ calls x
    /\ result (on_entries env d entries feed s)
       = match result x with Ok _ => Ok UPDATED | Raise e => Raise e end.
Proof.
  intros H Hne feed1. unfold on_entries. rewrite H.
  destruct updated_hashes as [|h hs]; [done|]. fold feed1.
  pose proof (follow_calls d feed1
    (mkState (Feed_save env feed1 (world s)) (bucket s) (logs s)))
    as (Hc & feed2 & Hr).
  destruct (follow env d feed1 _) as [[t r] s2] eqn:Hf.
  rewrite calls_run in Hc. rewrite result_run in Hr. subst t r.
  exists feed2, s2.
  run_simpl. rewrite Hf.
  destruct (gather _ s2) as [[t2 [l|e]] s3]; simpl; by rewrite ?app_nil_r.
Qed.

(** The trace of a poll that fetched, path by path. *)
Lemma poll_cases feed s d w :
  not_due (datetime_now env (world s)) feed = false ->
  feed_get env (Feed.link feed)
           (request_headers (format_datetime env) feed) (world s) = (d, w) ->
  let x := __monitor env feed s in
  let feed0 := recovered d feed in
  exists body,
    calls x
    = EvFeedGet (Feed.link feed) (request_headers (format_datetime env) feed)
        :: (if recovers d feed then [EvSave feed0] else []) ++ body
    /\ match outcome_of (get_hash env) d feed with
       | SKIPPED => False
       | CACHED =>
           body = [EvLog DEBUG (MsgCached (Feed.link feed0))]
           /\ result x = Ok CACHED
       | EMPTY =>
           body = moved d feed0 ++ [EvLog DEBUG (MsgEmpty (Feed.link feed0))]
           /\ result x = Ok EMPTY
       | NOT_UPDATED =>
           body = [EvLog DEBUG (MsgNotUpdated (Feed.link feed0))]
           /\ result x = Ok NOT_UPDATED
       | FAILED =>
           recovers d feed = false
           /\ if 100 <=? Feed.error_count feed then
                exists s',
                  let y := __deactivate_feed_and_notify_all env feed s' in
                  body = EvLog ERROR (MsgDeactivated (Feed.link feed))
                           :: calls y
                  /\ result x
                     = match result y with
                       | Ok _ => Ok FAILED
                       | Raise e => Raise e
                       end
              else
                let feed1 :=
                  Feed.set_error_count (Feed.error_count feed + 1) feed in
                body
                = (if Feed.error_count feed1 mod 10 =? 0
                   then [EvLog WARNING
                           (MsgFetchFailed (Feed.error_count feed1)
                                           (Fetched.msg d) (Feed.link feed))]
                   else [])
                  ++ [EvSave (delay_next_check (datetime_now env (world s))
                                (default_interval env w) feed1)]
                /\ result x = Ok FAILED
       | UPDATED =>
           exists entries feed2 s2,
             let old_hashes := default [] (Feed.entry_hashes feed) in
             let updated := diff (get_hash env) entries old_hashes in
             let feed1 :=
               refresh env d
                 (merge (fst updated) old_hashes (Py.len entries)) feed0 in
             let y :=
               gather (map (__notify_all env feed2) (snd updated)) s2 in
             Fetched.rss_d d = Some entries
             /\ body = EvLog DEBUG (MsgUpdated (Feed.link feed0))
                         :: EvSave feed1 :: moved d feed1 ++ calls y
             /\ result x
                = match result y with
                  | Ok _ => Ok UPDATED
                  | Raise e => Raise e
                  end
       end.
Proof.
  intros Hdue Hget x feed0. subst x.
  rewrite (monitor_fetched env feed s d w Hdue Hget).
  rewrite after_fetch_run. cbv zeta.
  rewrite !calls_run, !result_run. fold (recovered d feed). fold feed0.
  set (s' := if recovers d feed then mkState _ _ _ else _).
  unfold outcome_of.
  destruct (Fetched.status d =? 304) eqn:H304.
  { eexists. split; [reflexivity|]. done. }
  destruct (Fetched.rss_d d) as [[|entry entries]|] eqn:Hd.
  - destruct (on_empty_calls d feed0 s') as [Hc Hr].
    eexists. split; [reflexivity|]. done.
  - rewrite <- (recovered_entry_hashes d feed). fold feed0.
    destruct (diff (get_hash env) (entry :: entries)
                (default [] (Feed.entry_hashes feed0)))
      as [[|h hs] ue] eqn:Hdiff.
    + rewrite (on_entries_not_updated env d _ feed0 s' ue Hdiff).
      eexists. split; [reflexivity|]. done.
    + destruct (on_entries_updated_calls d _ feed0 s' _ _ Hdiff)
        as (feed2 & s2 & Hc & Hr); [done|].
      eexists. split; [reflexivity|].
      exists (entry :: entries), feed2, s2. cbv zeta.
      rewrite Hdiff. simpl fst. simpl snd.
      split; [done|]. split; [exact Hc|exact Hr].
  - assert (Hrec : recovers d feed = false).
    { unfold recovers. rewrite Hd, H304. done. }
    assert (feed0 = feed) as -> by (unfold feed0, recovered; by rewrite Hrec).
    assert (Hs : s' = mkState w (bucket s) (logs s)).
    { unfold s'. by rewrite Hrec. }
    rewrite Hs.
    eexists. split; [reflexivity|]. split; [done|].
    destruct (Z.leb_spec 100 (Feed.error_count feed)) as [He|He].
    + rewrite (on_error_deactivates env _ d feed _ He). cbv zeta.
      eexists. by rewrite calls_run, result_run.
    + rewrite (on_error_backs_off env _ d feed _ He). cbv zeta.
      by rewrite calls_run, result_run.
Qed.

End Polls.

Section Paths.
Context {Post W : Type} (env : Env Post W).

Implicit Types (s : State W) (feed : Feed.t) (sub : Sub.t).

Lemma after_fetch_fetches now d feed s :
  fetches (calls (after_fetch env now d feed s)) = [].
Proof.
  apply (after_fetch_traces env (fun t => fetches t = [])).
  - done.
  - apply silent_app.
  - intros sub post. by apply send_silent.
  - by intros [].
Qed.

Lemma deactivate_silent {X} (obs : event Post -> option X) feed s :
  (forall u c o, obs (EvSend u c o) = None) ->
  (forall l m, obs (EvLog l m) = None) ->
  (forall u, obs (EvUnsubAll u) = None) ->
  (forall f b, obs (EvSubFilter f b) = None) ->
  (forall f, obs (EvDeactivateFeed f) = None) ->
  omap obs (calls (__deactivate_feed_and_notify_all env feed s)) = [].
Proof.
  intros Hs Hl Hu Hf Hd.
  apply (deactivate_traces env (fun t => omap obs t = [])).
  - done.
  - apply silent_app.
  - intros sub post. by apply send_silent.
  - intros f b. simpl. by rewrite Hf.
  - simpl. by rewrite Hd.
Qed.

Lemma fanout_silent {X} (obs : event Post -> option X) feed entries s :
  (forall u c o, obs (EvSend u c o) = None) ->
  (forall l m, obs (EvLog l m) = None) ->
  (forall u, obs (EvUnsubAll u) = None) ->
  (forall f b, obs (EvSubFilter f b) = None) ->
  (forall f, obs (EvUpdateInterval f) = None) ->
  (forall p, obs (EvGenerateMessage p) = None) ->
  omap obs (calls (gather (map (__notify_all env feed) entries) s)) = [].
Proof.
  intros Hs Hl Hu Hf Hi Hg.
  apply (fanout_traces env (fun t => omap obs t = [])).
  - done.
  - apply silent_app.
  - intros sub post. by apply send_silent.
  - intros f b. simpl. by rewrite Hf.
  - simpl. by rewrite Hi.
  - intros p. simpl. by rewrite Hg.
Qed.

Lemma after_fetch_outcome now d feed s o :
  result (after_fetch env now d feed s) = Ok o ->
  o <> SKIPPED.
Proof.
  rewrite after_fetch_run. cbv zeta. rewrite result_run.
  set (feed0 := if recovers d feed then _ else _).
  set (s' := if recovers d feed then mkState _ _ _ else _).
  destruct (Fetched.status d =? 304).
  { rewrite result_run. by intros [= <-]. }
  destruct (Fetched.rss_d d) as [[|entry entries]|].
  - destruct (on_empty_calls env d feed0 s') as [_ ->]. by intros [= <-].
  - destruct (diff (get_hash env) (entry :: entries)
                (default [] (Feed.entry_hashes feed0)))
      as [[|h hs] ue] eqn:Hdiff.
    + rewrite (on_entries_not_updated env d _ feed0 s' ue Hdiff).
      rewrite result_run. by intros [= <-].
    + destruct (on_entries_updated_calls env d _ feed0 s' _ _ Hdiff)
        as (feed2 & s2 & _ & ->); [done|].
      destruct (result _); [|done]. by intros [= <-].
  - destruct (Z.leb_spec 100 (Feed.error_count feed0)) as [He|He].
    + rewrite (on_error_deactivates env _ d feed0 _ He). cbv zeta.
      rewrite result_run. destruct (result _); [|done]. by intros [= <-].
    + rewrite (on_error_backs_off env _ d feed0 _ He). cbv zeta.
      rewrite result_run. by intros [= <-].
Qed.

(** X10: the due check.  A poll is skipped exactly when the feed has a
    next check time and the clock is strictly before it: a feed without
    one, or whose time has come, is fetched.  A skipped poll calls
    nothing and changes nothing; any other poll fetches once, from the
    link of the feed with the headers of lines 117-121, before anything
    else. *)
Theorem skip_until_due feed s :
  let now := datetime_now env (world s) in
  let x := __monitor env feed s in
  (result x = Ok SKIPPED
   <-> exists t, Feed.next_check_time feed = Some t /\ now < t)
  /\ (result x = Ok SKIPPED -> x = ([], Ok SKIPPED, s))
  /\ (result x <> Ok SKIPPED ->
      fetches (calls x)
      = [(Feed.link feed, request_headers (format_datetime env) feed)]
      /\ exists rest,
           calls x
           = EvFeedGet (Feed.link feed)
                       (request_headers (format_datetime env) feed) :: rest).
Proof.
  intros now x. subst x.
  destruct (not_due now feed) eqn:Hdue.
  - rewrite (monitor_skipped env feed s Hdue), result_run.
    split; [|split; [done|by intros []]].
    split; [intros _|done].
    unfold not_due in Hdue.
    destruct (Feed.next_check_time feed) as [t|]; [|done].
    exists t. split; [done|]. by apply Z.ltb_lt.
  - destruct (feed_get env (Feed.link feed)
                (request_headers (format_datetime env) feed) (world s))
      as [d w] eqn:Hget.
    rewrite (monitor_fetched env feed s d w Hdue Hget). cbv zeta.
    rewrite result_run, calls_run. fold now.
    assert (Hne : result (after_fetch env now d feed
                            (mkState w (bucket s) (logs s))) <> Ok SKIPPED).
    { intros H. by apply after_fetch_outcome in H. }
    split; [|split; [done|]].
    + split; [done|]. intros (t & Ht & Hlt).
      unfold not_due in Hdue. rewrite Ht in Hdue.
      apply Z.ltb_ge in Hdue. lia.
    + intros _. split; [|by eexists].
      pose proof (after_fetch_fetches now d feed
                    (mkState w (bucket s) (logs s))) as Hf.
      unfold fetches in *.
      erewrite omap_cons_some by reflexivity. by rewrite Hf.
Qed.

(** X11: the conditional request.  The headers of a fetch always carry
    [If-Modified-Since], made from the feed's [last_modified] or, when it
    has none, from [updated_at]; they carry [If-None-Match] exactly when
    the feed has a non-empty etag, which is then sent as it is; and they
    carry nothing else. *)
Theorem conditional_request (fmt : Z -> string) feed :
  let headers := request_headers fmt feed in
  headers !! "If-Modified-Since"
  = Some (fmt match Feed.last_modified feed with
              | Some t => t
              | None => Feed.updated_at feed
              end)
  /\ headers !! "If-None-Match"
     = match Feed.etag feed with
       | Some etag => if String.eqb etag EmptyString then None else Some etag
       | None => None
       end
  /\ forall name,
       name <> "If-Modified-Since" -> name <> "If-None-Match" ->
       headers !! name = None.
Proof.
  intros headers. subst headers. unfold request_headers.
  destruct (Feed.etag feed) as [etag|]; unfold Py.truthy_str.
  - destruct (String.eqb etag EmptyString); cbv beta iota delta [negb].
    + rewrite lookup_singleton_eq. split; [by destruct (Feed.last_modified feed)|].
      split; [by rewrite lookup_singleton_ne|].
      intros name H1 H2. by rewrite lookup_singleton_ne.
    + rewrite lookup_insert_ne by done. rewrite lookup_singleton_eq.
      rewrite lookup_insert_eq.
      split; [by destruct (Feed.last_modified feed)|]. split; [done|].
      intros name H1 H2.
      rewrite lookup_insert_ne by done. by rewrite lookup_singleton_ne.
  - rewrite lookup_singleton_eq. split; [by destruct (Feed.last_modified feed)|].
    split; [by rewrite lookup_singleton_ne|].
    intros name H1 H2. by rewrite lookup_singleton_ne.
Qed.

Lemma poll_returns feed s d w o :
  not_due (datetime_now env (world s)) feed = false ->
  feed_get env (Feed.link feed)
           (request_headers (format_datetime env) feed) (world s) = (d, w) ->
  result (__monitor env feed s) = Ok o ->
  o = outcome_of (get_hash env) d feed.
Proof.
  intros Hdue Hget Hr.
  destruct (poll_cases env feed s d w Hdue Hget) as (body & _ & Hcase).
  cbv zeta in Hcase. rewrite Hr in Hcase.
  destruct (outcome_of (get_hash env) d feed); try done;
    try (destruct Hcase as [_ Hcase]; congruence).
  - destruct Hcase as [_ Hcase].
    destruct (100 <=? Feed.error_count feed).
    + destruct Hcase as (s' & _ & Hy).
      destruct (result (__deactivate_feed_and_notify_all env feed s'));
        congruence.
    + destruct Hcase as [_ Hcase]. congruence.
  - destruct Hcase as (entries & feed2 & s2 & _ & _ & Hy).
    destruct (result (gather _ s2)); congruence.
Qed.

(** X12: the outcome of a poll.  The outcome of a poll that fetched is
    settled by the answer of the fetch and the stored history alone: 304
    gives CACHED whatever else the answer holds, no parsed feed gives
    FAILED, a feed without entries EMPTY, entries that are all known
    NOT_UPDATED, and UPDATED otherwise.  The poll returns it unless a
    delivery raised an error line 212 does not catch, which it raises
    instead. *)
Theorem poll_outcome feed s d w :
  not_due (datetime_now env (world s)) feed = false ->
  feed_get env (Feed.link feed)
           (request_headers (format_datetime env) feed) (world s) = (d, w) ->
  let x := __monitor env feed s in
  result x
  = match uncaught (calls x) with
    | [] => Ok (outcome_of (get_hash env) d feed)
    | e :: _ => Raise e
    end.
Proof.
  intros Hdue Hget x.
  pose proof (monitor_propagates env feed s) as Hp. fold x in Hp.
  unfold propagates in Hp.
  pose proof (poll_returns feed s d w) as Ho. fold x in Ho.
  destruct (result x) as [o|e] eqn:Hr.
  - rewrite Hp. f_equal. by apply Ho.
  - destruct (uncaught (calls x)) as [|e' l]; [done|]. by injection Hp as ->.
Qed.

End Paths.

Section Effects.
Context {Post W : Type} (env : Env Post W).

Implicit Types (s : State W) (feed : Feed.t) (sub : Sub.t).

Lemma moved_silent {X} (obs : event Post -> option X) d feed :
  (forall f url, obs (EvMigrate f url) = None) ->
  omap obs (moved d feed) = [].
Proof.
  intros H. unfold moved. destruct (bool_decide _); [|done].
  simpl. by rewrite H.
Qed.

(** What a poll that fetched and found nothing new lets be seen of an
    observation that is blind to the fetch, the writes, the records and
    the migration. *)
Lemma quiet_body {X} (obs : event Post -> option X) feed s d w :
  not_due (datetime_now env (world s)) feed = false ->
  feed_get env (Feed.link feed)
           (request_headers (format_datetime env) feed) (world s) = (d, w) ->
  (forall link headers, obs (EvFeedGet link headers) = None) ->
  (forall f, obs (EvSave f) = None) ->
  (forall l m, obs (EvLog l m) = None) ->
  (forall f url, obs (EvMigrate f url) = None) ->
  outcome_of (get_hash env) d feed <> UPDATED ->
  (100 <= Feed.error_count feed ->
   outcome_of (get_hash env) d feed = FAILED ->
   forall s',
     omap obs (calls (__deactivate_feed_and_notify_all env feed s')) = []) ->
  omap obs (calls (__monitor env feed s)) = [].
Proof.
  intros Hdue Hget Hf Hs Hl Hm Hne Hde.
  destruct (poll_cases env feed s d w Hdue Hget) as (body & -> & Hcase).
  rewrite omap_cons_none by apply Hf.
  apply silent_app.
  { destruct (recovers d feed); [|done]. by rewrite omap_cons_none. }
  destruct (outcome_of (get_hash env) d feed); try done.
  - destruct Hcase as [-> _]. by rewrite omap_cons_none.
  - destruct Hcase as [-> _]. by rewrite omap_cons_none.
  - destruct Hcase as [-> _]. apply silent_app; [by apply moved_silent|].
    by rewrite omap_cons_none.
  - destruct Hcase as [_ Hcase].
    destruct (Z.leb_spec 100 (Feed.error_count feed)) as [He|He].
    + destruct Hcase as (s' & -> & _).
      rewrite omap_cons_none by apply Hl. by apply Hde.
    + destruct Hcase as [-> _]. apply silent_app.
      * destruct (_ =? 0); [|done]. by rewrite omap_cons_none.
      * by rewrite omap_cons_none.
Qed.

(** X13: a poll with nothing new is quiet.  A poll that returns anything
    but UPDATED has rendered no post and updated no interval; and unless
    it returns FAILED for a feed that had reached a hundred errors, it
    has delivered nothing, unsubscribed nobody and deactivated nothing. *)
Theorem quiet_poll feed s o :
  let x := __monitor env feed s in
  result x = Ok o -> o <> UPDATED ->
  renders (calls x) = [] /\ interval_updates (calls x) = []
  /\ (o <> FAILED \/ Feed.error_count feed < 100 ->
      sends (calls x) = [] /\ unsubs (calls x) = []
      /\ deactivations (calls x) = []).
Proof.
  intros x Hr Hne. subst x.
  destruct (not_due (datetime_now env (world s)) feed) eqn:Hdue.
  { by rewrite (monitor_skipped env feed s Hdue). }
  destruct (feed_get env (Feed.link feed)
              (request_headers (format_datetime env) feed) (world s))
    as [d w] eqn:Hget.
  pose proof (poll_returns env feed s d w o Hdue Hget Hr) as Ho. subst o.
  split; [|split].
  - apply (quiet_body _ feed s d w); try done.
    intros _ _ s'. by apply deactivate_silent.
  - apply (quiet_body _ feed s d w); try done.
    intros _ _ s'. by apply deactivate_silent.
  - intros Hq.
    split; [|split]; (apply (quiet_body _ feed s d w); try done);
      intros He Hf; destruct Hq; (done || lia).
Qed.

(** X14: when a feed is migrated.  A poll asks for a migration at most
    once, to the URL the fetch ended at, and only when that URL differs
    from the link of the feed and the fetch brought an empty feed or new
    entries; the record handed over has the identity of the polled feed.
    A redirect seen with a 304, with a failed fetch or with a feed that
    has nothing new is not followed. *)
Theorem poll_migrations feed s d w :
  not_due (datetime_now env (world s)) feed = false ->
  feed_get env (Feed.link feed)
           (request_headers (format_datetime env) feed) (world s) = (d, w) ->
  let x := __monitor env feed s in
  let o := outcome_of (get_hash env) d feed in
  (Fetched.url d = Feed.link feed -> migrations (calls x) = [])
  /\ (o <> EMPTY -> o <> UPDATED -> migrations (calls x) = [])
  /\ (Fetched.url d <> Feed.link feed -> o = EMPTY \/ o = UPDATED ->
      exists record,
        migrations (calls x) = [(record, Fetched.url d)]
        /\ same_identity feed record).
Proof.
  intros Hdue Hget x o.
  assert (Hbody : exists body : list (event Post),
             migrations (calls x) = migrations body
             /\ match o with
                | EMPTY => body = moved d (recovered d feed)
                | UPDATED =>
                    exists feed1,
                      body = moved d feed1 /\ same_identity feed feed1
                | _ => body = []
                end).
  { destruct (poll_cases env feed s d w Hdue Hget) as (body & Hc & Hcase).
    fold x in Hc. fold o in Hcase. cbv zeta in Hcase. rewrite Hc.
    unfold migrations. rewrite omap_cons_none by done. rewrite omap_app.
    assert (omap (fun ev : event Post =>
                    match ev with
                    | EvMigrate f url => Some (f, url)
                    | _ => None
                    end)
                 (if recovers d feed then [EvSave (recovered d feed)] else [])
            = []) as -> by (by destruct (recovers d feed)).
    rewrite app_nil_l.
    destruct o; try done.
    - destruct Hcase as [-> _]. by exists [].
    - destruct Hcase as [-> _]. by exists [].
    - destruct Hcase as [-> _]. exists (moved d (recovered d feed)).
      split; [|done]. rewrite omap_app, app_nil_r. done.
    - destruct Hcase as [_ Hcase]. exists []. split; [|done].
      destruct (100 <=? Feed.error_count feed).
      + destruct Hcase as (s' & -> & _). rewrite omap_cons_none by done.
        by apply deactivate_silent.
      + destruct Hcase as [-> _]. apply silent_app.
        * by destruct (_ =? 0).
        * done.
    - destruct Hcase as (entries & feed2 & s2 & _ & -> & _).
      eexists. split; [|eexists; split; [reflexivity|]].
      + rewrite !omap_cons_none by done. rewrite omap_app.
        rewrite (fanout_silent env _ feed2) by done.
        by rewrite app_nil_r.
      + destruct (recovered_identity d feed) as (? & ? & ? & ? & ?).
        by repeat split. }
  destruct Hbody as (body & -> & Hbody).
  assert (Hmoved : forall record,
            Feed.link record = Feed.link feed ->
            migrations (@moved Post d record)
            = if bool_decide (Fetched.url d ≠ Feed.link feed)
              then [(record, Fetched.url d)] else []).
  { intros record Hl. unfold moved. rewrite Hl.
    by destruct (bool_decide _). }
  split; [|split].
  - intros Hu.
    destruct o; try (by rewrite Hbody).
    + rewrite Hbody, Hmoved by apply recovered_identity.
      by rewrite bool_decide_false by (by intros []).
    + destruct Hbody as (feed1 & -> & Hid).
      rewrite Hmoved by apply Hid.
      by rewrite bool_decide_false by (by intros []).
  - intros H1 H2. destruct o; try done; by rewrite Hbody.
  - intros Hu [Ho|Ho]; rewrite Ho in Hbody.
    + exists (recovered d feed). rewrite Hbody.
      rewrite Hmoved by apply recovered_identity.
      rewrite bool_decide_true by done.
      split; [done|apply recovered_identity].
    + destruct Hbody as (feed1 & -> & Hid). exists feed1.
      rewrite Hmoved by apply Hid.
      by rewrite bool_decide_true by done.
Qed.

Lemma delay_next_check_fields now default feed :
  let delayed := delay_next_check now default feed in
  same_identity feed delayed
  /\ Feed.entry_hashes delayed = Feed.entry_hashes feed
  /\ Feed.etag delayed = Feed.etag feed
  /\ Feed.last_modified delayed = Feed.last_modified feed
  /\ Feed.error_count delayed = Feed.error_count feed.
Proof.
  unfold delay_next_check.
  destruct (10 <=? _); [|done]. by destruct (_ <? _).
Qed.

(** X15: what a poll writes of a feed.  Every record a poll saves is the
    polled feed with its id, link, title, interval and [updated_at]
    untouched; and unless the fetch brought new entries, its history and
    its cache validators ([etag], [last_modified]) are untouched as
    well: only the error count and the next check time are written. *)
Theorem poll_saves feed s d w :
  not_due (datetime_now env (world s)) feed = false ->
  feed_get env (Feed.link feed)
           (request_headers (format_datetime env) feed) (world s) = (d, w) ->
  Forall (fun saved =>
            same_identity feed saved
            /\ (outcome_of (get_hash env) d feed <> UPDATED ->
                Feed.entry_hashes saved = Feed.entry_hashes feed
                /\ Feed.etag saved = Feed.etag feed
                /\ Feed.last_modified saved = Feed.last_modified feed))
         (saves (calls (__monitor env feed s))).
Proof.
  intros Hdue Hget.
  destruct (poll_cases env feed s d w Hdue Hget) as (body & -> & Hcase).
  cbv zeta in Hcase.
  unfold saves. rewrite omap_cons_none by done. rewrite omap_app.
  apply Forall_app. split.
  { unfold recovered. destruct (recovers d feed); [|by constructor].
    by repeat constructor. }
  destruct (outcome_of (get_hash env) d feed); try done.
  - destruct Hcase as [-> _]. constructor.
  - destruct Hcase as [-> _]. constructor.
  - destruct Hcase as [-> _]. rewrite omap_app, moved_silent by done.
    constructor.
  - destruct Hcase as [_ Hcase].
    destruct (100 <=? Feed.error_count feed).
    + destruct Hcase as (s' & -> & _). rewrite omap_cons_none by done.
      rewrite deactivate_silent by done. constructor.
    + destruct Hcase as [-> _]. rewrite omap_app.
      assert (omap (fun ev : event Post =>
                      match ev with EvSave f => Some f | _ => None end)
                (if Feed.error_count
                      (Feed.set_error_count (Feed.error_count feed + 1) feed)
                    mod 10 =? 0
                 then [EvLog WARNING
                         (MsgFetchFailed
                            (Feed.error_count
                               (Feed.set_error_count
                                  (Feed.error_count feed + 1) feed))
                            (Fetched.msg d) (Feed.link feed))]
                 else []) = []) as -> by (by destruct (_ =? 0)).
      rewrite app_nil_l. erewrite omap_cons_some by reflexivity.
      constructor; [|constructor].
      pose proof (delay_next_check_fields (datetime_now env (world s))
                    (default_interval env w)
                    (Feed.set_error_count (Feed.error_count feed + 1) feed))
        as (Hid & Hh & He & Hl & _).
      split; [exact Hid|]. intros _. by rewrite Hh, He, Hl.
  - destruct Hcase as (entries & feed2 & s2 & _ & -> & _).
    rewrite omap_cons_none by done.
    erewrite omap_cons_some by reflexivity.
    rewrite omap_app, moved_silent by done.
    rewrite (fanout_silent env _ feed2) by done.
    constructor; [|constructor]. split; [|done].
    destruct (recovered_identity d feed) as (? & ? & ? & ? & ?).
    by repeat split.
Qed.

End Effects.

Section Records.
Context {Post W : Type} (env : Env Post W).

Implicit Types (s : State W) (feed : Feed.t) (sub : Sub.t).

Lemma send_unsubs sub post :
  traces (fun t => unsubs t `sublist_of` permanent_failures t)
         (__send env sub post).
Proof.
  intros s.
  destruct (send_calls env sub post s)
    as (o & rest & -> & _ & [->|(e & -> & He & ->)]); simpl.
  - apply sublist_nil_l.
  - by rewrite He.
Qed.

(** X16: nobody is unsubscribed without cause.  The recipients a cycle
    calls [unsub_all] for are, in order, among the recipients of the
    deliveries of that cycle that raised one of the three errors of line
    212: no other error, and no other call, unsubscribes anybody. *)
Theorem unsubscribed_after_failure s :
  unsubs (calls (run_monitor_task env s))
  `sublist_of` permanent_failures (calls (run_monitor_task env s)).
Proof.
  apply (run_monitor_task_traces env
           (fun t => unsubs t `sublist_of` permanent_failures t)); try done.
  - intros t1 t2 H1 H2. unfold unsubs, permanent_failures.
    rewrite !omap_app. by apply sublist_app.
  - apply send_unsubs.
  - intros ev Hin. destruct ev; try done; apply sublist_nil_l.
Qed.

(** X17: what a poll logs.  A poll that fetched logs one DEBUG record for
    a 304, an empty feed or a feed with nothing new, and starts with one
    when there are new entries.  A failed fetch below the threshold is
    logged only when the error count reaches a multiple of ten, as one
    WARNING with the new count and the message of the fetch; at the
    threshold the first record is the ERROR of the deactivation. *)
Theorem poll_logs feed s d w :
  not_due (datetime_now env (world s)) feed = false ->
  feed_get env (Feed.link feed)
           (request_headers (format_datetime env) feed) (world s) = (d, w) ->
  let x := __monitor env feed s in
  let link := Feed.link feed in
  match outcome_of (get_hash env) d feed with
  | SKIPPED => False
  | CACHED => logged (calls x) = [(DEBUG, MsgCached link)]
  | EMPTY => logged (calls x) = [(DEBUG, MsgEmpty link)]
  | NOT_UPDATED => logged (calls x) = [(DEBUG, MsgNotUpdated link)]
  | UPDATED =>
      exists rest, logged (calls x) = (DEBUG, MsgUpdated link) :: rest
  | FAILED =>
      if 100 <=? Feed.error_count feed then
        exists rest, logged (calls x) = (ERROR, MsgDeactivated link) :: rest
      else
        logged (calls x)
        = if (Feed.error_count feed + 1) mod 10 =? 0
          then [(WARNING, MsgFetchFailed (Feed.error_count feed + 1)
                                         (Fetched.msg d) link)]
          else []
  end.
Proof.
  intros Hdue Hget x link. subst x link.
  destruct (poll_cases env feed s d w Hdue Hget) as (body & -> & Hcase).
  cbv zeta in Hcase.
  unfold logged. rewrite omap_cons_none by done. rewrite omap_app.
  assert (omap (fun ev : event Post =>
                  match ev with
                  | EvLog lvl m => Some (lvl, m)
                  | _ => None
                  end)
               (if recovers d feed then [EvSave (recovered d feed)] else [])
          = []) as -> by (by destruct (recovers d feed)).
  rewrite app_nil_l.
  assert (Hlink : Feed.link (recovered d feed) = Feed.link feed)
    by apply recovered_identity.
  rewrite Hlink in Hcase.
  destruct (outcome_of (get_hash env) d feed); try done.
  - by destruct Hcase as [-> _].
  - by destruct Hcase as [-> _].
  - destruct Hcase as [-> _]. rewrite omap_app, moved_silent by done. done.
  - destruct Hcase as [_ Hcase].
    destruct (100 <=? Feed.error_count feed).
    + destruct Hcase as (s' & -> & _).
      erewrite omap_cons_some by reflexivity. by eexists.
    + destruct Hcase as [-> _]. rewrite omap_app. simpl.
      by destruct (_ =? 0).
  - destruct Hcase as (entries & feed2 & s2 & _ & -> & _).
    erewrite omap_cons_some by reflexivity. by eexists.
Qed.

(** X18: the same entries again.  Once a batch has been merged into the
    history without pushing any stored fingerprint out, a poll that
    fetches the same batch finds nothing new: it returns NOT_UPDATED,
    renders and delivers nothing, and leaves the history as it is. *)
Theorem same_entries_again feed s d w entries old_hashes updated_hashes
    updated_entries :
  not_due (datetime_now env (world s)) feed = false ->
  feed_get env (Feed.link feed)
           (request_headers (format_datetime env) feed) (world s) = (d, w) ->
  Fetched.status d <> 304 ->
  Fetched.rss_d d = Some entries ->
  entries <> [] ->
  diff (get_hash env) entries old_hashes
  = (updated_hashes, updated_entries) ->
  Py.len updated_hashes + Py.len old_hashes
  <= Z.max (Py.len entries * 2) 100 ->
  Feed.entry_hashes feed
  = Some (merge updated_hashes old_hashes (Py.len entries)) ->
  let x := __monitor env feed s in
  result x = Ok NOT_UPDATED
  /\ sends (calls x) = [] /\ renders (calls x) = []
  /\ Forall (fun saved => Feed.entry_hashes saved = Feed.entry_hashes feed)
            (saves (calls x)).
Proof.
  intros Hdue Hget H304 Hd Hne Hdiff Hlen Hh x. subst x.
  assert (Ho : outcome_of (get_hash env) d feed = NOT_UPDATED).
  { unfold outcome_of. apply Z.eqb_neq in H304. rewrite H304, Hd, Hh.
    destruct entries as [|entry entries]; [done|]. simpl default.
    by rewrite (diff_merge _ _ _ _ _ Hdiff Hlen). }
  split; [|split; [|split]].
  - destruct (poll_cases env feed s d w Hdue Hget) as (body & _ & Hcase).
    cbv zeta in Hcase. rewrite Ho in Hcase. by destruct Hcase.
  - apply (quiet_body env _ feed s d w); try done; by rewrite Ho.
  - apply (quiet_body env _ feed s d w); try done; by rewrite Ho.
  - destruct (poll_cases env feed s d w Hdue Hget) as (body & -> & Hcase).
    cbv zeta in Hcase. rewrite Ho in Hcase. destruct Hcase as [-> _].
    unfold saves. rewrite omap_cons_none by done. rewrite omap_app.
    rewrite app_nil_r.
    destruct (recovers d feed) eqn:Hr; [|constructor].
    repeat constructor. apply recovered_entry_hashes.
Qed.

End Records.

(** ** More on interleaved sends *)

Section Schedules.
Import Interleaving.

Implicit Types (c : conf) (u v : Z) (b : gmap Z bool).

Lemma step_tasks c t c' :
  step c t = Some c' -> map fst (tasks c') = map fst (tasks c).
Proof.
  intros Hstep. destruct t as [i|i|i]; simpl in Hstep;
    destruct (tasks c !! i) as [[w [| |]]|] eqn:Hi; try done.
  - injection Hstep as <-. simpl. by eapply fst_insert_phase.
  - destruct (bucket_get w (locks c)) as [[|] b']; injection Hstep as <-;
      simpl; by eapply fst_insert_phase.
  - injection Hstep as <-. simpl. by eapply fst_insert_phase.
Qed.

Lemma step_executions_failure recipients c t c' u :
  map fst (tasks c) = recipients ->
  step c t = Some c' ->
  (executions u c'
   <= executions u c + (if is_failure recipients u t then 1 else 0))%nat.
Proof.
  intros Hfst Hstep. destruct t as [i|i|i]; simpl in Hstep;
    destruct (tasks c !! i) as [[w [| |]]|] eqn:Hi; try done.
  - injection Hstep as <-. unfold executions. simpl. lia.
  - destruct (bucket_get w (locks c)) as [[|] b']; injection Hstep as <-.
    + unfold executions. simpl. lia.
    + rewrite executions_snoc. unfold executions at 1 2. simpl.
      destruct (decide (w = u)) as [->|Hne]; [|lia].
      assert (recipients !! i = Some u) as ->; [|by rewrite bool_decide_true].
      by rewrite <- Hfst, list_lookup_fmap, Hi.
  - injection Hstep as <-. unfold executions. simpl. lia.
Qed.

(** X19: no unsubscription without a failure, in any interleaving.
    However the sends in flight are interleaved, [unsub_all] is called
    for a recipient at most as often as deliveries to that recipient
    have failed; a recipient whose deliveries all went through is never
    unsubscribed. *)
Theorem executions_need_failures b recipients sched c u :
  run (start b recipients) sched = Some c ->
  (executions u c <= failures recipients u sched)%nat
  /\ (failures recipients u sched = 0%nat -> u ∉ executed c).
Proof.
  intros Hrun.
  assert (H : forall sched c0 c,
            map fst (tasks c0) = recipients ->
            run c0 sched = Some c ->
            (executions u c
             <= executions u c0 + failures recipients u sched)%nat).
  { clear. intros sched. induction sched as [|t sched IH];
      intros c0 c Hfst Hrun; simpl in Hrun.
    - injection Hrun as <-. lia.
    - destruct (step c0 t) as [c1|] eqn:Hstep; [|done].
      pose proof (step_executions_failure recipients c0 t c1 u Hfst Hstep).
      assert (Hfst1 : map fst (tasks c1) = recipients)
        by (by rewrite (step_tasks _ _ _ Hstep)).
      pose proof (IH c1 c Hfst1 Hrun).
      unfold failures in *. rewrite filter_cons.
      destruct (decide (is_failure recipients u t = true)) as [Hd|Hd].
      + rewrite Hd in *. simpl. lia.
      + apply not_true_is_false in Hd. rewrite Hd in *. lia. }
  assert (Hle : (executions u c <= failures recipients u sched)%nat).
  { specialize (H sched (start b recipients) c).
    change (executions u (start b recipients)) with 0%nat in H.
    apply H; [|done]. unfold start. simpl. rewrite map_map. apply map_id. }
  split; [done|]. intros H0 Hin.
  rewrite H0 in Hle. unfold executions in Hle.
  assert (u ∈ filter (fun v => v = u) (executed c))
    by (by apply list_elem_of_filter).
  destruct (filter (fun v => v = u) (executed c)); [|simpl in Hle; lia].
  by apply not_elem_of_nil in H1.
Qed.

Lemma all_finished_running c u :
  all_finished c = true -> running u c = 0%nat.
Proof.
  unfold all_finished, running. intros H.
  induction (tasks c) as [|[w p] l IH]; [done|].
  simpl in H. apply andb_true_iff in H as [Hp Hl].
  apply bool_decide_eq_true in Hp. simpl in Hp. subst p.
  rewrite filter_cons, decide_False by done. by apply IH.
Qed.

(** X20: no lock is left behind.  Once every send in flight has come to
    its end, however they were interleaved, no lock is held, and every
    call of [unsub_all] has come back. *)
Theorem locks_released b recipients sched c :
  free b ->
  run (start b recipients) sched = Some c ->
  all_finished c = true ->
  free (locks c)
  /\ forall u, executions u c = returns recipients u sched.
Proof.
  intros Hb Hrun Hfin.
  destruct (run_consistent _ _ _ _ (start_consistent b recipients Hb) Hrun)
    as ((Hfst & Hheld & Hex) & Hacc & _).
  split.
  - intros u Hu. specialize (Hheld u).
    rewrite (all_finished_running c u Hfin) in Hheld.
    unfold held in Hheld. by rewrite bool_decide_true in Hheld.
  - intros u. specialize (Hacc u).
    rewrite (all_finished_running c u Hfin) in Hacc.
    destruct (start_consistent b recipients Hb) as (_ & H0 & _).
    specialize (H0 u). unfold held in H0. simpl in H0.
    rewrite bool_decide_eq_false_2 in H0 by apply Hb.
    change (executions u (start b recipients)) with 0%nat in Hacc. lia.
Qed.

End Schedules.

Section Counts.
Context {Post W : Type} (env : Env Post W).

Implicit Types (s : State W) (feed : Feed.t) (sub : Sub.t).

(** X21: a failure is counted.  A failed fetch of a feed below the
    threshold writes the feed once, with the error count one higher;
    while the new count is below ten the next check time is left as it
    was.  Nothing is deactivated and the poll returns FAILED. *)
Theorem failure_counted feed s d w :
  not_due (datetime_now env (world s)) feed = false ->
  feed_get env (Feed.link feed)
           (request_headers (format_datetime env) feed) (world s) = (d, w) ->
  Fetched.rss_d d = None ->
  Fetched.status d <> 304 ->
  Feed.error_count feed < 100 ->
  let x := __monitor env feed s in
  exists saved,
    saves (calls x) = [saved]
    /\ Feed.error_count saved = Feed.error_count feed + 1
    /\ (Feed.error_count feed + 1 < 10 ->
        Feed.next_check_time saved = Feed.next_check_time feed)
    /\ deactivations (calls x) = []
    /\ result x = Ok FAILED.
Proof.
  intros Hdue Hget Hd H304 He x.
  destruct (failure_below_threshold env feed s d w Hdue Hget Hd H304 He)
    as (Hde & Hsv & Hres).
  eexists. split; [exact Hsv|].
  pose proof (delay_next_check_fields (datetime_now env (world s))
                (default_interval env w)
                (Feed.set_error_count (Feed.error_count feed + 1) feed))
    as (_ & _ & _ & _ & Hec).
  split; [by rewrite Hec|]. split; [|done].
  intros Hlt. unfold delay_next_check.
  destruct (Z.leb_spec 10
              (Feed.error_count
                 (Feed.set_error_count (Feed.error_count feed + 1) feed)))
    as [H10|H10]; [simpl in H10; lia|done].
Qed.

Lemma send_unsubs_own sub (post : Content Post) s :
  unsubs (calls (__send env sub post s)) = []
  \/ unsubs (calls (__send env sub post s)) = [Sub.user_id sub].
Proof.
  destruct (send_calls env sub post s)
    as (o & rest & -> & Ho & [->|(e & -> & He & ->)]); [by left|by right].
Qed.

(** X22: the fanout of one entry.  [__notify_all] asks for the active
    subscriptions once, renders one post, and attempts one delivery of
    that post to every subscriber, in order, whether or not an earlier
    delivery raised; [update_interval] is called when, and only when,
    there is no subscriber. *)
Theorem notify_all_fanout feed entry s :
  let subs := fst (Sub_filter env feed (world s)) in
  let post :=
    get_post_from_entry env entry (Feed.title feed) (Feed.link feed) in
  let x := __notify_all env feed entry s in
  interval_updates (calls x)
  = match subs with [] => [feed] | _ :: _ => [] end
  /\ renders (calls x) = [post]
  /\ sends (calls x) = map (fun sub => (Sub.user_id sub, inr post)) subs
  /\ unsubs (calls x) `sublist_of` map Sub.user_id subs.
Proof.
  intros subs post x.
  destruct (notify_all_with_subscribers env feed entry s) as [Hr Hs].
  fold x post subs in Hr, Hs.
  split; [|split; [done|split; [done|]]].
  - subst x subs.
    destruct (Sub_filter env feed (world s)) as [subs w] eqn:Hf.
    rewrite (notify_all_run env feed entry s subs w Hf). cbv zeta.
    rewrite calls_run. simpl fst.
    unfold interval_updates. rewrite omap_cons_none by done.
    rewrite omap_app. erewrite (omap_cons_none _ (EvGenerateMessage _)) by done.
    rewrite gather_omap_none by (intros; by apply send_silent).
    rewrite app_nil_r. by destruct subs.
  - subst x subs.
    destruct (Sub_filter env feed (world s)) as [subs w] eqn:Hf.
    rewrite (notify_all_run env feed entry s subs w Hf). cbv zeta.
    rewrite calls_run. simpl fst.
    unfold unsubs in *. rewrite omap_cons_none by done.
    rewrite omap_app.
    assert (omap (fun ev : event Post =>
                    match ev with
                    | EvUnsubAll u => Some u
                    | _ => None
                    end)
              match subs with
              | [] => [EvUpdateInterval feed]
              | _ :: _ => []
              end = []) as -> by (by destruct subs).
    rewrite app_nil_l, omap_cons_none by done.
    match goal with |- context [gather _ ?s1] => generalize s1 end.
    clear Hf Hs Hr. subst post.
    induction subs as [|sub subs IH]; intros s1; [done|].
    simpl map. rewrite gather_cons, calls_run, omap_app.
    change (Sub.user_id sub :: map Sub.user_id subs)
      with ([Sub.user_id sub] ++ map Sub.user_id subs).
    apply sublist_app; [|apply IH].
    destruct (send_unsubs_own sub
                (inr (get_post_from_entry env entry (Feed.title feed)
                                          (Feed.link feed))) s1) as [H|H];
      unfold unsubs in H; rewrite H; [apply sublist_nil_l|done].
Qed.

End Counts.

(** ** The further properties on the sample world *)

(** The ninth cycle since a summary moves the cycle count to nine. *)
Lemma log_cycle_counts_witness :
  MonitoringLogs.monitoring_counts
    (logs (final (@log_cycle Sample.Post unit (2, 1, 0, 0, 1, 0)
                    Trial.ninth)))
  = 9.
Proof.
  destruct (@log_cycle_counts Sample.Post unit (2, 1, 0, 0, 1, 0) Trial.ninth)
    as [H _].
  - simpl. lia.
  - rewrite H. reflexivity.
Defined.

(** The ninth and the tenth cycle: two records, then the summary. *)
Lemma cycles_to_summary_witness :
  logged (calls (@log_cycles Sample.Post unit
                   [(2, 1, 0, 0, 1, 0); (0, 0, 0, 1, 0, 0)] Trial.ninth))
  = [(DEBUG, MsgFinished 2 1 0 0 1 0); (DEBUG, MsgFinished 0 0 0 1 0 0);
     (INFO, MsgSummary 5 2 0 3 5 0)]
  /\ logs (final (@log_cycles Sample.Post unit
                    [(2, 1, 0, 0, 1, 0); (0, 0, 0, 1, 0, 0)] Trial.ninth))
     = MonitoringLogs.mk 0 0 0 0 0 0 0.
Proof.
  destruct (@cycles_to_summary Sample.Post unit
              [(2, 1, 0, 0, 1, 0); (0, 0, 0, 1, 0, 0)] Trial.ninth)
    as (Hl & _ & Hf).
  - simpl. lia.
  - reflexivity.
  - split; [rewrite Hl; reflexivity|rewrite Hf; reflexivity].
Defined.

(** A cycle over two feeds, one with nothing new and one with a new
    entry. *)
Lemma cycle_accounts_witness :
  result (run_monitor_task Trial.calm_env Sample.s0) = Ok tt
  /\ logs (final (run_monitor_task Trial.calm_env Sample.s0))
     = MonitoringLogs.mk 1 1 0 0 0 1 0.
Proof.
  destruct (cycle_accounts Trial.calm_env Sample.s0 2 [1] tt
              [Sample.sibling_feed; Sample.flood_feed] tt
              [NOT_UPDATED; UPDATED])
    as (_ & _ & Hr & Hl & _).
  - reflexivity.
  - reflexivity.
  - vm_compute. reflexivity.
  - split; [exact Hr|]. rewrite Hl. vm_compute. reflexivity.
Defined.

(** The delay of a feed polled every five minutes at its tenth error. *)
Lemma backoff_bounds_witness : 5 <= next_check_interval 5 10 <= 75.
Proof.
  destruct (backoff_bounds 5 10) as [H _].
  - lia.
  - lia.
  - exact H.
Defined.

Lemma backoff_deferral_witness :
  Feed.next_check_time
    (delay_next_check 1000 10 (Sample.feed 10 (Some 5) None None))
  = Some (1000 + Py.timedelta_minutes 10).
Proof.
  pose proof (backoff_deferral 1000 10 (Sample.feed 10 (Some 5) None None))
    as H.
  cbv zeta in H. destruct H as (_ & _ & H & _).
  - simpl. lia.
  - rewrite H.
    + reflexivity.
    + simpl. lia.
    + simpl. lia.
Defined.

(** A 304 after three failures. *)
Lemma poll_outcome_witness :
  result (__monitor Sample.cached_env Sample.cached_feed Sample.s0)
  = Ok CACHED.
Proof.
  rewrite (poll_outcome Sample.cached_env Sample.cached_feed Sample.s0
             Sample.not_modified tt).
  - vm_compute. reflexivity.
  - reflexivity.
  - reflexivity.
Defined.

Lemma quiet_poll_witness :
  renders (calls (__monitor Sample.cached_env Sample.cached_feed Sample.s0))
  = []
  /\ sends (calls (__monitor Sample.cached_env Sample.cached_feed Sample.s0))
     = [].
Proof.
  destruct (quiet_poll Sample.cached_env Sample.cached_feed Sample.s0 CACHED)
    as (Hr & _ & Hq).
  - vm_compute. reflexivity.
  - discriminate.
  - split; [exact Hr|]. apply Hq. left. discriminate.
Defined.

(** An empty feed found at another address is migrated. *)
Lemma poll_migrations_witness :
  exists record,
    migrations
      (calls (__monitor Trial.redirect_env Sample.flood_feed Sample.s0))
    = [(record, "http://example.org/new")]
    /\ same_identity Sample.flood_feed record.
Proof.
  destruct (poll_migrations Trial.redirect_env Sample.flood_feed Sample.s0
              Trial.redirected tt) as (_ & _ & H).
  - reflexivity.
  - reflexivity.
  - apply H.
    + vm_compute. discriminate.
    + left. vm_compute. reflexivity.
Defined.

(** The tenth failure of a feed: the record written keeps the link. *)
Lemma poll_saves_witness :
  Forall (fun saved => Feed.link saved = Feed.link Sample.backoff_feed)
         (saves (calls (__monitor Sample.backoff_env Sample.backoff_feed
                                  Sample.s0))).
Proof.
  eapply Forall_impl.
  - apply (poll_saves Sample.backoff_env Sample.backoff_feed Sample.s0
             Sample.broken tt); reflexivity.
  - intros saved [(_ & Hl & _) _]. exact Hl.
Defined.

Lemma poll_logs_witness :
  logged (calls (__monitor Sample.backoff_env Sample.backoff_feed Sample.s0))
  = [(WARNING, MsgFetchFailed 10 None "http://example.org/feed")].
Proof.
  pose proof (poll_logs Sample.backoff_env Sample.backoff_feed Sample.s0
                Sample.broken tt eq_refl eq_refl) as H.
  vm_compute in H. vm_compute. exact H.
Defined.

(** The batch of [Sample.dedup_env] fetched again after its update. *)
Lemma same_entries_again_witness :
  result (__monitor Sample.dedup_env Trial.merged_feed Sample.s0)
  = Ok NOT_UPDATED
  /\ sends (calls (__monitor Sample.dedup_env Trial.merged_feed Sample.s0))
     = [].
Proof.
  destruct (same_entries_again Sample.dedup_env Trial.merged_feed Sample.s0
              (Sample.fetched 200
                 (Some [Sample.entry "h3"; Sample.entry "h1";
                        Sample.entry "h2"]))
              tt
              [Sample.entry "h3"; Sample.entry "h1"; Sample.entry "h2"]
              ["h1"; "h2"] ["h3"] [Sample.entry "h3"])
    as (Hr & Hs & _).
  - reflexivity.
  - reflexivity.
  - vm_compute. discriminate.
  - reflexivity.
  - discriminate.
  - vm_compute. reflexivity.
  - vm_compute. discriminate.
  - vm_compute. reflexivity.
  - split; [exact Hr|exact Hs].
Defined.

(** Two failures with nothing come back: one call for 7, two failures
    at most. *)
Lemma executions_need_failures_witness :
  (Interleaving.executions 7 Interleaving.after_two_failures
   <= Interleaving.failures [7%Z; 7%Z; 8%Z] 7
                            Interleaving.two_failures)%nat.
Proof.
  destruct (executions_need_failures ∅ [7; 7; 8] Interleaving.two_failures
              Interleaving.after_two_failures 7) as [H _].
  - vm_compute. reflexivity.
  - exact H.
Defined.

(** Every send has failed and come back in turn. *)
Lemma locks_released_witness :
  Interleaving.free (Interleaving.locks Trial.all_done)
  /\ Interleaving.executions 7 Trial.all_done
     = Interleaving.returns [7; 7; 8] 7 Interleaving.one_after_the_other.
Proof.
  destruct (locks_released ∅ [7; 7; 8] Interleaving.one_after_the_other
              Trial.all_done) as [Hf He].
  - intros user_id H. vm_compute in H. discriminate H.
  - vm_compute. reflexivity.
  - vm_compute. reflexivity.
  - split; [exact Hf|apply He].
Defined.

Lemma failure_counted_witness :
  exists saved,
    saves (calls (__monitor Sample.backoff_env Sample.backoff_feed
                            Sample.s0))
    = [saved]
    /\ Feed.error_count saved = 10.
Proof.
  destruct (failure_counted Sample.backoff_env Sample.backoff_feed Sample.s0
              Sample.broken tt) as (saved & Hs & He & _).
  - reflexivity.
  - reflexivity.
  - reflexivity.
  - vm_compute. discriminate.
  - simpl. lia.
  - exists saved. split; [exact Hs|]. rewrite He. reflexivity.
Defined.
